(** * A shallow embedding of the concurrent red-black tree of rbtree.go

    The Go package keeps a pointer-linked red-black tree whose nodes carry
    three atomic words (writer flag, reader count, marker).  The embedding
    below follows the current revision of [rbtree.go] function by function:
    nodes live in a heap addressed by natural numbers, a Go pointer is an
    optional address, and every method becomes a computation in a small
    state-and-failure monad.  A nil dereference is the outcome [Panic];
    recursion and retry loops are bounded by a fuel argument and report
    [Timeout] when it runs out. *)

From stdpp Require Import gmap list sorting.
From Stdlib Require Import ZArith Lia.

Local Open Scope Z_scope.

(** ** Data model *)

Definition addr := nat.

(** [*RBTreeNode[K,V]]: [None] is Go's nil. *)
Abbreviation ptr := (option addr).

(** [type color int] with [red = iota + 1] and [black]; every node is
    created with [c: red] and only [red] and [black] are ever assigned. *)
Inductive color := red | black.

(** [type direction int]: [root], [left], [right]. *)
Inductive direction := dir_root | dir_left | dir_right.

Definition color_eqb (a b : color) : bool :=
  match a, b with red, red | black, black => true | _, _ => false end.

Definition direction_eqb (a b : direction) : bool :=
  match a, b with
  | dir_root, dir_root | dir_left, dir_left | dir_right, dir_right => true
  | _, _ => false
  end.

Definition ptr_eqb (p q : ptr) : bool :=
  match p, q with
  | None, None => true
  | Some a, Some b => Nat.eqb a b
  | _, _ => false
  end.

Definition is_nil (p : ptr) : bool := match p with None => true | Some _ => false end.

(** [RBTreeNode[K,V]] instantiated at [K = V = int] as in the tests; the
    three atomic words are [flag], [hpflag] (an [Int32]) and [marker]. *)
Record RBTreeNode := mkNode {
  n_c : color;
  n_left : ptr;
  n_right : ptr;
  n_parent : ptr;
  n_key : Z;
  n_value : Z;
  n_flag : bool;
  n_hpflag : Z;
  n_marker : bool
}.

Definition with_c (x : color) (d : RBTreeNode) : RBTreeNode :=
  mkNode x (n_left d) (n_right d) (n_parent d) (n_key d) (n_value d) (n_flag d) (n_hpflag d) (n_marker d).
Definition with_left (x : ptr) (d : RBTreeNode) : RBTreeNode :=
  mkNode (n_c d) x (n_right d) (n_parent d) (n_key d) (n_value d) (n_flag d) (n_hpflag d) (n_marker d).
Definition with_right (x : ptr) (d : RBTreeNode) : RBTreeNode :=
  mkNode (n_c d) (n_left d) x (n_parent d) (n_key d) (n_value d) (n_flag d) (n_hpflag d) (n_marker d).
Definition with_parent (x : ptr) (d : RBTreeNode) : RBTreeNode :=
  mkNode (n_c d) (n_left d) (n_right d) x (n_key d) (n_value d) (n_flag d) (n_hpflag d) (n_marker d).
Definition with_key (x : Z) (d : RBTreeNode) : RBTreeNode :=
  mkNode (n_c d) (n_left d) (n_right d) (n_parent d) x (n_value d) (n_flag d) (n_hpflag d) (n_marker d).
Definition with_value (x : Z) (d : RBTreeNode) : RBTreeNode :=
  mkNode (n_c d) (n_left d) (n_right d) (n_parent d) (n_key d) x (n_flag d) (n_hpflag d) (n_marker d).
Definition with_flag (x : bool) (d : RBTreeNode) : RBTreeNode :=
  mkNode (n_c d) (n_left d) (n_right d) (n_parent d) (n_key d) (n_value d) x (n_hpflag d) (n_marker d).
Definition with_hpflag (x : Z) (d : RBTreeNode) : RBTreeNode :=
  mkNode (n_c d) (n_left d) (n_right d) (n_parent d) (n_key d) (n_value d) (n_flag d) x (n_marker d).
Definition with_marker (x : bool) (d : RBTreeNode) : RBTreeNode :=
  mkNode (n_c d) (n_left d) (n_right d) (n_parent d) (n_key d) (n_value d) (n_flag d) (n_hpflag d) x.

(** The program state: the heap of nodes with its allocation counter, the
    two fields of [RBTree] ([root], [count]; the mutex [mu] is never
    used), and the two [LocalArea] slices [l] and [m] that [Insert] and
    [Delete] create and hand down by pointer. *)
Record state := mkState {
  heap : gmap addr RBTreeNode;
  next : addr;
  t_root : ptr;
  t_count : Z;
  area_l : list ptr;
  area_m : list ptr
}.

Definition with_heap (h : gmap addr RBTreeNode) (s : state) : state :=
  mkState h (next s) (t_root s) (t_count s) (area_l s) (area_m s).
Definition with_next (x : addr) (s : state) : state :=
  mkState (heap s) x (t_root s) (t_count s) (area_l s) (area_m s).
Definition with_root (x : ptr) (s : state) : state :=
  mkState (heap s) (next s) x (t_count s) (area_l s) (area_m s).
Definition with_count (x : Z) (s : state) : state :=
  mkState (heap s) (next s) (t_root s) x (area_l s) (area_m s).
Definition with_l (x : list ptr) (s : state) : state :=
  mkState (heap s) (next s) (t_root s) (t_count s) x (area_m s).
Definition with_m (x : list ptr) (s : state) : state :=
  mkState (heap s) (next s) (t_root s) (t_count s) (area_l s) x.

(** Go's [int] is 64 bits wide and [atomic.Int32] is 32 bits wide; both
    wrap around in two's complement. *)
Definition wrap (w : Z) (x : Z) : Z := (x + 2 ^ (w - 1)) mod 2 ^ w - 2 ^ (w - 1).
Definition wrap64 : Z -> Z := wrap 64.
Definition wrap32 : Z -> Z := wrap 32.

(** ** The monad *)

Inductive result (A : Type) :=
| Ret (a : A) (s : state)
| Panic
| Timeout.
Arguments Ret {A} a s.
Arguments Panic {A}.
Arguments Timeout {A}.

Definition M (A : Type) : Type := state -> result A.

Definition ret {A} (a : A) : M A := fun s => Ret a s.
Definition bind {A B} (m : M A) (k : A -> M B) : M B :=
  fun s => match m s with
           | Ret a s' => k a s'
           | Panic => Panic
           | Timeout => Timeout
           end.
Definition panic {A} : M A := fun _ => Panic.
Definition timeout {A} : M A := fun _ => Timeout.
Definition get_state : M state := fun s => Ret s s.
Definition modify (f : state -> state) : M unit := fun s => Ret tt (f s).

Notation "'let*' x ':=' e 'in' k" := (bind e (fun x => k))
  (at level 10, x pattern, e at level 100, k at level 200).
Notation "e '>>' k" := (bind e (fun _ => k))
  (at level 100, k at level 200, right associativity).

(** ** Memory access *)

Definition load (p : ptr) : M RBTreeNode :=
  fun s => match p with
           | None => Panic
           | Some a => match heap s !! a with
                       | Some d => Ret d s
                       | None => Panic
                       end
           end.

Definition update (p : ptr) (f : RBTreeNode -> RBTreeNode) : M unit :=
  let* d := load p in
  match p with
  | None => panic
  | Some a => modify (fun s => with_heap (<[a := f d]> (heap s)) s)
  end.

(** [&RBTreeNode{...}] *)
Definition alloc (d : RBTreeNode) : M ptr :=
  fun s => Ret (Some (next s))
               (with_next (S (next s)) (with_heap (<[next s := d]> (heap s)) s)).

Definition parent_of (n : ptr) : M ptr := let* d := load n in ret (n_parent d).
Definition left_of (n : ptr) : M ptr := let* d := load n in ret (n_left d).
Definition right_of (n : ptr) : M ptr := let* d := load n in ret (n_right d).
Definition c_of (n : ptr) : M color := let* d := load n in ret (n_c d).
Definition key_of (n : ptr) : M Z := let* d := load n in ret (n_key d).
Definition value_of (n : ptr) : M Z := let* d := load n in ret (n_value d).

Definition set_c (n : ptr) (x : color) : M unit := update n (with_c x).
Definition set_left (n : ptr) (x : ptr) : M unit := update n (with_left x).
Definition set_right (n : ptr) (x : ptr) : M unit := update n (with_right x).
Definition set_parent (n : ptr) (x : ptr) : M unit := update n (with_parent x).
Definition set_key (n : ptr) (x : Z) : M unit := update n (with_key x).
Definition set_value (n : ptr) (x : Z) : M unit := update n (with_value x).

(** The atomic operations of [sync/atomic] used by the package. *)
Definition flag_Load (n : ptr) : M bool := let* d := load n in ret (n_flag d).
Definition flag_CompareAndSwap (n : ptr) (old new : bool) : M bool :=
  let* d := load n in
  if Bool.eqb (n_flag d) old then update n (with_flag new) >> ret true else ret false.
Definition flag_Swap (n : ptr) (new : bool) : M bool :=
  let* d := load n in update n (with_flag new) >> ret (n_flag d).
Definition marker_Load (n : ptr) : M bool := let* d := load n in ret (n_marker d).
Definition marker_CompareAndSwap (n : ptr) (old new : bool) : M bool :=
  let* d := load n in
  if Bool.eqb (n_marker d) old then update n (with_marker new) >> ret true else ret false.
Definition marker_Swap (n : ptr) (new : bool) : M bool :=
  let* d := load n in update n (with_marker new) >> ret (n_marker d).
Definition hpflag_Load (n : ptr) : M Z := let* d := load n in ret (n_hpflag d).
Definition hpflag_Add (n : ptr) (delta : Z) : M Z :=
  let* d := load n in
  let v := wrap32 (n_hpflag d + delta) in
  update n (with_hpflag v) >> ret v.

(** ** Node methods *)

(** [func (n *RBTreeNode) dir() direction] *)
Definition dir (n : ptr) : M direction :=
  let* p := parent_of n in
  if is_nil p then ret dir_root else
  let* pl := left_of p in
  if negb (is_nil pl) && ptr_eqb pl n then ret dir_left else ret dir_right.

(** [func (n *RBTreeNode) uncle() *RBTreeNode] *)
Definition uncle (n : ptr) : M ptr :=
  let* p := parent_of n in
  if is_nil p then ret None else
  let* g := parent_of p in
  if is_nil g then ret None else
  let* d := dir p in
  if direction_eqb d dir_left then right_of g else left_of g.

(** [func (n *RBTreeNode) sibling() *RBTreeNode] *)
Definition sibling (n : ptr) : M ptr :=
  let* p := parent_of n in
  if is_nil p then ret None else
  let* d := dir n in
  if direction_eqb d dir_left then right_of p else left_of p.

(** [isRed] and [isBlack] accept a nil receiver. *)
Definition isRed (n : ptr) : M bool :=
  if is_nil n then ret false else let* x := c_of n in ret (color_eqb x red).
Definition isBlack (n : ptr) : M bool :=
  if is_nil n then ret true else let* x := c_of n in ret (color_eqb x black).

(** [func (n *RBTreeNode) islock() bool] *)
Definition islock (n : ptr) : M bool := flag_Load n.

(** [func (n *RBTreeNode) isMark() bool] *)
Definition isMark (n : ptr) : M bool := marker_Load n.

(** [func (n *RBTreeNode) lock() bool]: CAS the flag, then look at the
    reader count and back out when a reader is present. *)
Definition lock (n : ptr) : M bool :=
  if is_nil n then ret false else
  let* ok := flag_CompareAndSwap n false true in
  if negb ok then ret false else
  let* h := hpflag_Load n in
  if 0 <? h then flag_Swap n false >> ret false else
  ret true.

(** [func (n *RBTreeNode) unlock() bool] *)
Definition unlock (n : ptr) : M bool :=
  if is_nil n then ret true else flag_CompareAndSwap n true false.

(** [func (n *RBTreeNode) get(key K)] returns a value pointer and a
    success bit, here an optional value and a bool.  The second component
    is false when the descent met a held writer flag.  The deferred
    [hpflag.Add(-1)] runs after the result of the body is known. *)
Fixpoint get (fuel : nat) (n : ptr) (k : Z) : M (option Z * bool) :=
  match fuel with
  | O => timeout
  | S fuel =>
    if is_nil n then ret (None, true) else
    let* lk := islock n in
    if lk then ret (None, false) else
    hpflag_Add n 1 >>
    let* nk := key_of n in
    let* r := (match k ?= nk with
               | Eq => let* v := value_of n in ret (Some v, true)
               | Lt => let* c := left_of n in get fuel c k
               | Gt => let* c := right_of n in get fuel c k
               end) in
    hpflag_Add n (-1) >>
    ret r
  end.

(** Short-circuit [&&] and [||] over effectful operands. *)
Definition andM (a b : M bool) : M bool := let* x := a in if x then b else ret false.
Definition orM (a b : M bool) : M bool := let* x := a in if x then ret true else b.
Definition notM (a : M bool) : M bool := let* x := a in ret (negb x).
Definition non_nil (a : M ptr) : M bool := let* x := a in ret (negb (is_nil x)).
Definition when (b : bool) (m : M unit) : M unit := if b then m else ret tt.
Definition ignore {A} (m : M A) : M unit := m >> ret tt.

(** [time.Sleep] and the random jitter of the back-off leave the state
    alone. *)
Definition sleep : M unit := ret tt.

(** [for !x.CompareAndSwap(false, true) { time.Sleep(...) }] *)
Fixpoint spin (fuel : nat) (cas : M bool) : M unit :=
  match fuel with
  | O => timeout
  | S fuel => let* ok := cas in if ok then ret tt else sleep >> spin fuel cas
  end.

Definition get_l : M (list ptr) := fun s => Ret (area_l s) s.
Definition set_l (x : list ptr) : M unit := modify (with_l x).
Definition append_l (n : ptr) : M unit := modify (fun s => with_l (area_l s ++ [n]) s).
Definition get_m : M (list ptr) := fun s => Ret (area_m s) s.
Definition set_m (x : list ptr) : M unit := modify (with_m x).
Definition append_m (n : ptr) : M unit := modify (fun s => with_m (area_m s ++ [n]) s).
Definition get_root : M ptr := fun s => Ret (t_root s) s.
Definition set_root (x : ptr) : M unit := modify (with_root x).
Definition get_count : M Z := fun s => Ret (t_count s) s.
Definition set_count (x : Z) : M unit := modify (with_count x).

(** [for i := range xs { f(xs[i]) }] *)
Fixpoint for_each (xs : list ptr) (f : ptr -> M unit) : M unit :=
  match xs with
  | [] => ret tt
  | x :: xs => f x >> for_each xs f
  end.

(** [func (n *RBTreeNode) cleanMarker(left bool)] *)
Definition cleanMarker (n : ptr) (left : bool) : M unit :=
  marker_Swap n false >>
  let* p := parent_of n in
  when (negb (is_nil p)) (ignore (marker_Swap p false)) >>
  if left
  then let* c := left_of n in ignore (marker_Swap c false)
  else let* c := right_of n in ignore (marker_Swap c false).

(** The [switch dir] that ends both rotations and the one-child case of
    [delete]: hook [x] where the old subtree root hung. *)
Definition replace_child (d : direction) (p x : ptr) : M unit :=
  match d with
  | dir_root => set_root x
  | dir_left => set_left p x
  | dir_right => set_right p x
  end.

(** [func (t *RBTree) rotateLeft(n *RBTreeNode)] *)
Definition rotateLeft (n : ptr) : M unit :=
  let* stop := orM (ret (is_nil n)) (let* r := right_of n in ret (is_nil r)) in
  if stop then ret tt else
  cleanMarker n false >>
  let* d := dir n in
  let* p := parent_of n in
  let* newn := right_of n in
  let* nl := left_of newn in
  set_right n nl >>
  set_parent n newn >>
  let* nl := left_of newn in
  when (negb (is_nil nl)) (set_parent nl n) >>
  set_parent newn p >>
  set_left newn n >>
  replace_child d p newn.

(** [func (t *RBTree) rotateRight(n *RBTreeNode)] *)
Definition rotateRight (n : ptr) : M unit :=
  let* stop := orM (ret (is_nil n)) (let* l := left_of n in ret (is_nil l)) in
  if stop then ret tt else
  cleanMarker n true >>
  let* d := dir n in
  let* p := parent_of n in
  let* newn := left_of n in
  let* nr := right_of newn in
  set_left n nr >>
  set_parent n newn >>
  let* nr := right_of newn in
  when (negb (is_nil nr)) (set_parent nr n) >>
  set_parent newn p >>
  set_right newn n >>
  replace_child d p newn.

(** The parent of the last entry of the marker area [m]. *)
Definition last_parent : M ptr :=
  let* m := get_m in
  match last m with
  | None => panic
  | Some x => parent_of x
  end.

(** The body of the [for i := 0; i < 4 && d != nil; i++] loop of
    [getMarker]. *)
Fixpoint mark_chain (fuel : nat) (i : nat) (d : ptr) : M unit :=
  match i with
  | O => ret tt
  | S i =>
    if is_nil d then ret tt else
    spin fuel (flag_CompareAndSwap d false true) >>
    spin fuel (marker_CompareAndSwap d false true) >>
    flag_CompareAndSwap d true false >>
    append_m d >>
    let* d' := parent_of d in
    mark_chain fuel i d'
  end.

(** [func (n *RBTreeNode) getMarker(m, isUp)] *)
Definition getMarker (fuel : nat) (n : ptr) (isUp : bool) : M unit :=
  let* p := parent_of n in
  if is_nil p then ret tt else
  if isUp then
    let* stop := orM (let* m := get_m in ret (Nat.eqb (length m) 0))
                     (let* lp := last_parent in ret (is_nil lp)) in
    if stop then ret tt else
    spin fuel (let* lp := last_parent in flag_CompareAndSwap lp false true) >>
    spin fuel (let* lp := last_parent in marker_CompareAndSwap lp false true) >>
    (let* lp := last_parent in flag_CompareAndSwap lp true false) >>
    let* lp := last_parent in
    append_m lp
  else
    let* d := parent_of p in
    mark_chain fuel 4 d.

(** [func (n *RBTreeNode) unlockMarker(m)] *)
Definition unlockMarker : M unit :=
  let* m := get_m in
  for_each m (fun x => ignore (marker_CompareAndSwap x true false)) >>
  set_m [].

(** [func (l *LocalArea) unlockArea()] *)
Definition unlockArea : M unit :=
  let* l := get_l in
  for_each l (fun x => ignore (unlock x)) >>
  set_l [].

(** [func NewRBTree(key K, value V) *RBTree]: one red node, [count = 1]. *)
Definition NewRBTree (k v : Z) : state :=
  mkState {[ 0%nat := mkNode red None None None k v false 0 false ]} 1%nat (Some 0%nat) 1 [] [].

(** ** The locality protocol *)

(** [if ok := x.lock(); !ok { l.unlockArea(); return false };
    l = append(l, x)]: the step that [lockDelete] repeats for the sibling
    and for the sibling's two children.  The result says whether the caller
    goes on. *)
Definition lock_into_area (x : ptr) : M bool :=
  let* ok := lock x in
  if negb ok then unlockArea >> ret false else append_l x >> ret true.

(** [func (n *RBTreeNode) lockDelete(l) bool] *)
Definition lockDelete (n : ptr) : M bool :=
  let* held := islock n in
  if held then ret false else
  append_l n >>
  let* p := parent_of n in
  if is_nil p then ret true else
  let* pheld := islock p in
  if pheld then unlockArea >> ret false else
  append_l p >>
  let* s := sibling n in
  if is_nil s then ret true else
  let* ok := lock_into_area s in
  if negb ok then ret false else
  let* sl := left_of s in
  let* ok := (if is_nil sl then ret true else lock_into_area sl) in
  if negb ok then ret false else
  let* sr := right_of s in
  if is_nil sr then ret true else lock_into_area sr.

(** [if ok := x.lock(); !ok || x.isMark() { l.unlockArea(); return false };
    l = append(l, x)]: the step that [lockInsert] repeats for the parent,
    the sibling, the grandparent and the uncle.  The result says whether
    the caller goes on. *)
Definition lock_unmarked (x : ptr) : M bool :=
  let* bad := orM (notM (lock x)) (isMark x) in
  if bad then unlockArea >> ret false else append_l x >> ret true.

(** [func (n *RBTreeNode) lockInsert(l) bool] *)
Definition lockInsert (n : ptr) : M bool :=
  let* bad := orM (notM (islock n)) (isMark n) in
  if bad then ret false else
  append_l n >>
  let* p := parent_of n in
  if is_nil p then ret true else
  let* ok := lock_unmarked p in
  if negb ok then ret false else
  let* s := sibling n in
  let* ok := (if is_nil s then ret true else lock_unmarked s) in
  if negb ok then ret false else
  let* g := parent_of p in
  let* ok := (if is_nil g then ret true else lock_unmarked g) in
  if negb ok then ret false else
  let* u := uncle n in
  if is_nil u then ret true else lock_unmarked u.

(** ** Rebalancing *)

(** [func (t *RBTree) maintainAfterInsert(n, l) bool] *)
Fixpoint maintainAfterInsert (fuel : nat) (n : ptr) : M bool :=
  match fuel with
  | O => timeout
  | S fuel =>
    let* done := orM (isBlack n)
                (orM (let* p := parent_of n in ret (is_nil p))
                     (let* p := parent_of n in let* x := c_of p in ret (color_eqb x black))) in
    if done then ret true else
    let* p := parent_of n in
    let* g := parent_of p in
    if is_nil g then set_c p black >> ret true else
    let* ured := (let* u := uncle n in isRed u) in
    if ured then
      let* ok := lockInsert g in
      if negb ok then ret false else
      set_c p black >>
      set_c g red >>
      (let* u := uncle n in set_c u black) >>
      let* r := maintainAfterInsert fuel g in
      when (negb r)
        ((let* p' := parent_of n in set_c p' red) >>
         (let* p' := parent_of n in let* g' := parent_of p' in set_c g' black) >>
         let* u := uncle n in set_c u red) >>
      ret r
    else
    let* dn := dir n in
    let* dp := dir p in
    if negb (direction_eqb dn dp) then
      (if direction_eqb dn dir_left then
         rotateRight p >>
         (let* p' := parent_of n in rotateLeft p') >>
         let* c := left_of n in set_c c red
       else
         rotateLeft p >>
         (let* p' := parent_of n in rotateRight p') >>
         let* c := right_of n in set_c c red) >>
      set_c n black >>
      ret true
    else
      (if direction_eqb dn dir_left then rotateRight g else rotateLeft g) >>
      (let* p' := parent_of n in set_c p' black) >>
      (let* s := sibling n in set_c s red) >>
      ret true
  end.

(** [n.sibling().left.isBlack()] and its mirror image. *)
Definition sibling_left_isBlack (n : ptr) : M bool :=
  let* s := sibling n in let* c := left_of s in isBlack c.
Definition sibling_right_isBlack (n : ptr) : M bool :=
  let* s := sibling n in let* c := right_of s in isBlack c.
Definition sibling_left_isRed (n : ptr) : M bool :=
  let* s := sibling n in let* c := left_of s in isRed c.
Definition sibling_right_isRed (n : ptr) : M bool :=
  let* s := sibling n in let* c := right_of s in isRed c.
Definition dir_is (n : ptr) (d : direction) : M bool :=
  let* x := dir n in ret (direction_eqb x d).

(** [func (t *RBTree) maintainAfterDelete(n, l, m) bool] *)
Fixpoint maintainAfterDelete (fuel : nat) (n : ptr) : M bool :=
  match fuel with
  | O => timeout
  | S fuel =>
    let* p := parent_of n in
    if is_nil p then ret true else
    let* sred := (let* s := sibling n in isRed s) in
    when sred
      (let* s := sibling n in
       let* isl := dir_is n dir_left in
       (let* p := parent_of n in if isl then rotateLeft p else rotateRight p) >>
       set_c s black >>
       let* p := parent_of n in set_c p red) >>
    let* c2 := andM (sibling_left_isBlack n)
              (andM (sibling_right_isBlack n)
                    (let* p := parent_of n in isRed p)) in
    if c2 then
      (let* s := sibling n in set_c s red) >>
      (let* p := parent_of n in set_c p black) >>
      ret true
    else
    let* c3 := andM (sibling_left_isBlack n)
              (andM (sibling_right_isBlack n)
                    (let* p := parent_of n in let* x := c_of p in ret (color_eqb x black))) in
    if c3 then
      (let* s := sibling n in set_c s red) >>
      (let* p := parent_of n in getMarker fuel p true) >>
      (let* p := parent_of n in ignore (maintainAfterDelete fuel p)) >>
      ret true
    else
    let* c4 := orM (andM (dir_is n dir_left) (andM (sibling_left_isRed n) (sibling_right_isBlack n)))
                   (andM (dir_is n dir_right) (andM (sibling_right_isRed n) (sibling_left_isBlack n))) in
    when c4
      (let* isl := dir_is n dir_left in
       (if isl then
          (let* s := sibling n in rotateRight s) >>
          let* s := sibling n in let* c := right_of s in set_c c red
        else
          (let* s := sibling n in rotateLeft s) >>
          let* s := sibling n in let* c := left_of s in set_c c red) >>
       let* s := sibling n in set_c s black) >>
    let* c5 := orM (andM (dir_is n dir_left) (sibling_right_isRed n))
                   (andM (dir_is n dir_right) (sibling_left_isRed n)) in
    when c5
      (let* isl := dir_is n dir_left in
       (let* p := parent_of n in if isl then rotateLeft p else rotateRight p) >>
       (let* p := parent_of n in
        let* g := parent_of p in
        let* pc := c_of p in
        let* gc := c_of g in
        set_c g pc >> set_c p gc) >>
       let* p := parent_of n in
       let* ps := sibling p in
       set_c ps black) >>
    ret true
  end.

(** ** Insertion *)

(** [if n.key > key { n.left = x } else { n.right = x }] *)
Definition set_child_towards (n : ptr) (k : Z) (x : ptr) : M unit :=
  let* nk := key_of n in
  if k <? nk then set_left n x else set_right n x.

(** [func (t *RBTree) insert(n, key, value, l) (isNew bool, succeed bool)].
    The three deferred calls run innermost first when the function
    returns: [l.unlockArea()], [insert.unlock()], [n.unlock()]. *)
Fixpoint insert (fuel : nat) (n : ptr) (k v : Z) : M (bool * bool) :=
  match fuel with
  | O => timeout
  | S fuel =>
    let* ok := lock n in
    if negb ok then ret (false, false) else
    let* r :=
      (let* p := parent_of n in
       when (negb (is_nil p)) (ignore (unlock p)) >>
       let* nk := key_of n in
       if nk =? k then set_value n v >> ret (false, true) else
       let* goleft := andM (ret (k <? nk)) (non_nil (left_of n)) in
       if goleft then let* c := left_of n in insert fuel c k v else
       let* goright := andM (ret (nk <? k)) (non_nil (right_of n)) in
       if goright then let* c := right_of n in insert fuel c k v else
       let* ins := alloc (mkNode red None None n k v false 0 false) in
       set_child_towards n k ins >>
       let* nred := isRed n in
       if nred then
         lock ins >>
         let* r :=
           (unlock n >>
            let* okl := lockInsert ins in
            if okl then
              let* r :=
                (let* okm := maintainAfterInsert fuel ins in
                 if negb okm then set_child_towards n k None >> ret (true, false)
                 else ret (true, true)) in
              unlockArea >> ret r
            else set_child_towards n k None >> ret (true, false)) in
         unlock ins >> ret r
       else ret (true, true)) in
    unlock n >> ret r
  end.

(** The loop [for new, ok = t.insert(...); !ok; new, ok = t.insert(...)]
    of [Insert], entered with the result [r] of the latest attempt. *)
Fixpoint Insert_loop (attempts fuel : nat) (k v : Z) (r : bool * bool) : M bool :=
  if snd r then ret (fst r) else
  match attempts with
  | O => timeout
  | S attempts =>
    sleep >>
    set_l [] >>
    let* rt := get_root in
    let* r' := insert fuel rt k v in
    Insert_loop attempts fuel k v r'
  end.

(** [func (t *RBTree) Insert(key K, value V)] *)
Definition Insert (fuel : nat) (k v : Z) : M unit :=
  let* rt := get_root in
  if is_nil rt then
    let* x := alloc (mkNode red None None None k v false 0 false) in
    set_root x
  else
    set_l [] >>
    let* rt := get_root in
    let* r := insert fuel rt k v in
    let* new := Insert_loop fuel fuel k v r in
    when new (let* c := get_count in set_count (wrap64 (c + 1))).

(** ** Deletion *)

(** [func (n *RBTreeNode) swap(d *RBTreeNode)]: both tuple assignments
    read their right-hand sides before they write. *)
Definition swap (n d : ptr) : M unit :=
  let* dk := key_of d in
  let* nk := key_of n in
  set_key n dk >> set_key d nk >>
  let* nv := value_of n in
  let* dv := value_of d in
  set_value d nv >> set_value n dv.

(** [s := n.right; for s.left != nil { p = s; s = p.left }] *)
Fixpoint leftmost (fuel : nat) (s : ptr) : M ptr :=
  match fuel with
  | O => timeout
  | S fuel =>
    let* sl := left_of s in
    if is_nil sl then ret s else leftmost fuel sl
  end.

(** The body of [case 0] of [delete] once the local area and the marker
    chain are taken; [n] is the node that holds the key. *)
Definition delete_found (fuel : nat) (n : ptr) : M (option Z * bool) :=
  let* v := value_of n in
  let* two := andM (non_nil (left_of n)) (non_nil (right_of n)) in
  let* n :=
    (if two then
       let* r := right_of n in
       let* s := leftmost fuel r in
       swap n s >> ret s
     else ret n) in
  let* leaf := andM (let* x := left_of n in ret (is_nil x))
                    (let* x := right_of n in ret (is_nil x)) in
  (if leaf then
     let* x := c_of n in
     when (color_eqb x black) (ignore (maintainAfterDelete fuel n)) >>
     let* isl := dir_is n dir_left in
     let* p := parent_of n in
     if isl then set_left p None else set_right p None
   else
     let* nl := left_of n in
     let* rep := (if is_nil nl then right_of n else left_of n) in
     let* p := parent_of n in
     let* d := dir n in
     replace_child d p rep >>
     set_parent rep p >>
     set_c rep black) >>
  (let* c := get_count in set_count (wrap64 (c - 1))) >>
  ret (Some v, true).

(** [if n.parent != nil { if n.parent.parent != nil {
    n.parent.parent.unlock() } }]: the descent of [delete] keeps the parent
    locked and lets go of the grandparent. *)
Definition unlock_grandparent (n : ptr) : M unit :=
  let* p := parent_of n in
  when (negb (is_nil p))
    (let* g := parent_of p in when (negb (is_nil g)) (ignore (unlock g))).

(** [func (t *RBTree) delete(n, key, l, m)] returns a value pointer and a
    success bit.  Deferred calls, innermost first: [n.unlockMarker(m)],
    [l.unlockArea()], [n.unlock()]. *)
Fixpoint delete (fuel : nat) (n : ptr) (k : Z) : M (option Z * bool) :=
  match fuel with
  | O => timeout
  | S fuel =>
    if is_nil n then ret (None, true) else
    let* ok := lock n in
    if negb ok then ret (None, false) else
    let* r :=
      (unlock_grandparent n >>
       let* nk := key_of n in
       match k ?= nk with
       | Eq =>
         let* okd := lockDelete n in
         if negb okd then ret (None, false) else
         let* r :=
           (getMarker fuel n false >>
            let* r := delete_found fuel n in
            unlockMarker >> ret r) in
         unlockArea >> ret r
       | Lt => let* c := left_of n in delete fuel c k
       | Gt => let* c := right_of n in delete fuel c k
       end) in
    unlock n >> ret r
  end.

(** The loop [for b, ok = t.delete(...); !ok; b, ok = t.delete(...)] of
    [Delete], entered with the result [r] of the latest attempt. *)
Fixpoint Delete_loop (attempts fuel : nat) (k : Z) (r : option Z * bool) : M (option Z) :=
  if snd r then ret (fst r) else
  match attempts with
  | O => timeout
  | S attempts =>
    sleep >>
    set_l [] >>
    set_m [] >>
    let* rt := get_root in
    let* r' := delete fuel rt k in
    Delete_loop attempts fuel k r'
  end.

(** [func (t *RBTree) Delete(key K) *V] *)
Definition Delete (fuel : nat) (k : Z) : M (option Z) :=
  let* case0 := andM (let* c := get_count in ret (c =? 1))
                     (let* rt := get_root in let* rk := key_of rt in ret (rk =? k)) in
  if case0 then
    let* rt := get_root in
    let* v := value_of rt in
    set_root None >>
    (let* c := get_count in set_count (wrap64 (c - 1))) >>
    ret (Some v)
  else
    set_l [] >>
    set_m [] >>
    let* rt := get_root in
    let* r := delete fuel rt k in
    Delete_loop fuel fuel k r.

(** ** Lookup *)

(** The loop [for b, ok = t.root.get(key); !ok; b, ok = t.root.get(key)]
    of [Get]. *)
Fixpoint Get_loop (attempts fuel : nat) (k : Z) (r : option Z * bool) : M (option Z) :=
  if snd r then ret (fst r) else
  match attempts with
  | O => timeout
  | S attempts =>
    sleep >>
    let* rt := get_root in
    let* r' := get fuel rt k in
    Get_loop attempts fuel k r'
  end.

(** [func (t *RBTree) Get(key K) *V] *)
Definition Get (fuel : nat) (k : Z) : M (option Z) :=
  let* rt := get_root in
  let* r := get fuel rt k in
  Get_loop fuel fuel k r.

(** ** The invariant checker *)

(** [ErrParentChildDoublRed] and [ErrBlackHeightMisMatch]. *)
Inductive check_error := ErrParentChildDoublRed | ErrBlackHeightMisMatch.

(** [func (t *RBTree) check(n *RBTreeNode, bc int) (int, error)]: the
    number of black nodes from the root down to a leaf below [n], [bc]
    counting those above [n]; a nil error is [None].  A node whose writer
    flag is set ends the walk like a leaf. *)
Fixpoint check (fuel : nat) (n : ptr) (bc : Z) : M (Z * option check_error) :=
  match fuel with
  | O => timeout
  | S fuel =>
    let* skip := orM (ret (is_nil n)) (flag_Load n) in
    if skip then ret (bc, None) else
    let* nred := isRed n in
    let* bad := (if nred
                 then orM (let* l := left_of n in isRed l) (let* r := right_of n in isRed r)
                 else ret false) in
    if bad then ret (0, Some ErrParentChildDoublRed) else
    let* nblack := isBlack n in
    let bc := if nblack then wrap64 (bc + 1) else bc in
    let* l := left_of n in
    let* lr := check fuel l bc in
    match snd lr with
    | Some le => ret (0, Some le)
    | None =>
      let* r := right_of n in
      let* rr := check fuel r bc in
      match snd rr with
      | Some re => ret (0, Some re)
      | None =>
        if negb (fst lr =? fst rr) then ret (0, Some ErrBlackHeightMisMatch)
        else ret (fst lr, None)
      end
    end
  end.

(** [func (t *RBTree) Check() error] *)
Definition Check (fuel : nat) : M (option check_error) :=
  let* rt := get_root in
  if is_nil rt then ret None else
  let* r := check fuel rt 0 in
  ret (snd r).

(** ** The earlier revision kept in the same file

    [rbtree.go] also carries the previous revision of the package.  Its
    [lock] admits a writer while one reader is present, and the post
    statement of its [Delete] loop calls the read path.  Both are modelled
    here so that the difference can be stated. *)
Module Rev1.

(** [func (n *RBTreeNode) lock() bool] of the earlier revision: the
    reader count is compared against 1. *)
Definition lock (n : ptr) : M bool :=
  if is_nil n then ret false else
  let* ok := flag_CompareAndSwap n false true in
  if negb ok then ret false else
  let* h := hpflag_Load n in
  if 1 <? h then flag_Swap n false >> ret false else
  ret true.

Section DeleteLoop.
(** The read path of the earlier revision, [t.root.get(key)], is what
    the post statement of the loop calls; the loop is entered with the
    result of [t.delete(t.root, key)]. *)
Variable get_path : Z -> M (option Z * bool).

(** [for b, ok = t.delete(t.root, key); !ok; b, ok = t.root.get(key)] *)
Fixpoint Delete_loop (attempts : nat) (k : Z) (r : option Z * bool) : M (option Z) :=
  if snd r then ret (fst r) else
  match attempts with
  | O => timeout
  | S attempts =>
    sleep >>
    let* r' := get_path k in
    Delete_loop attempts k r'
  end.
End DeleteLoop.

End Rev1.

(** ** Specification vocabulary *)

(** The node a pointer refers to, as a pure function of the heap. *)
Definition node_at (s : state) (p : ptr) : option RBTreeNode :=
  match p with None => None | Some a => heap s !! a end.

(** The part of a state that is the tree: heap, root and count. *)
Definition same_tree (s s' : state) : Prop :=
  heap s = heap s' /\ t_root s = t_root s' /\ t_count s = t_count s'.

(** In-order traversal of the keys below [p], [None] when the fuel does
    not reach the leaves or a pointer dangles. *)
Fixpoint inorder (fuel : nat) (h : gmap addr RBTreeNode) (p : ptr) : option (list Z) :=
  match fuel with
  | O => None
  | S fuel =>
    match p with
    | None => Some []
    | Some a =>
      match h !! a with
      | None => None
      | Some d =>
        match inorder fuel h (n_left d), inorder fuel h (n_right d) with
        | Some l, Some r => Some (l ++ n_key d :: r)
        | _, _ => None
        end
      end
    end
  end.

(** Run a computation and keep the state, staying put on a failure. *)
Definition exec {A} (m : M A) (s : state) : state :=
  match m s with Ret _ s' => s' | _ => s end.

(** The constructor on the first key, then [Insert] for the others. *)
Definition build (fuel : nat) (k0 : Z) (ks : list Z) : state :=
  fold_left (fun s k => exec (Insert fuel k k) s) ks (NewRBTree k0 k0).


(** Root-black: the root, if any, is black. *)
Definition root_black (s : state) : Prop :=
  forall d, node_at s (t_root s) = Some d -> n_c d = black.

(** [count] equals the length of the in-order traversal from the root. *)
Definition count_matches (fuel : nat) (s : state) : Prop :=
  exists ks, inorder fuel (heap s) (t_root s) = Some ks /\ t_count s = Z.of_nat (length ks).

(** A quiescent node: no writer holds it, no reader stands on it, no
    marker reserves it. *)
Definition node_quiet (d : RBTreeNode) : Prop :=
  n_flag d = false /\ n_hpflag d = 0 /\ n_marker d = false.

Definition quiescent (s : state) : Prop :=
  forall a d, heap s !! a = Some d -> node_quiet d.

(** The retry discipline in the words of the specification: every
    attempt of [Delete] is an invocation of the delete path on the current
    root; an attempt that signals conflict is followed, after the back-off
    and the reset of both areas, by another such attempt; the first attempt
    that does not signal conflict gives the result.  [delete_retries n s v
    s'] counts the [n] conflicts before the successful attempt. *)
Inductive delete_retries (fuel : nat) (k : Z) : nat -> state -> option Z -> state -> Prop :=
| delete_retries_done s v s' :
    delete fuel (t_root s) k s = Ret (v, true) s' ->
    delete_retries fuel k O s v s'
| delete_retries_again n s b s1 v s' :
    delete fuel (t_root s) k s = Ret (b, false) s1 ->
    delete_retries fuel k n (with_m [] (with_l [] s1)) v s' ->
    delete_retries fuel k (S n) s v s'.

(** [Delete] takes its fast path when [count] is 1 and the root holds the
    key. *)
Definition Delete_case0 (k : Z) (s : state) : Prop :=
  t_count s = 1 /\ exists d, node_at s (t_root s) = Some d /\ n_key d = k.

(** An operation that changes the root reference away from a node has
    taken that node's writer flag by [lock]; [lock] only succeeds on a node
    whose flag was clear and on which it saw no reader. *)
Definition root_change_protected {A} (op : M A) (s : state) : Prop :=
  forall r s' d,
    op s = Ret r s' ->
    t_root s' <> t_root s ->
    node_at s (t_root s) = Some d ->
    n_flag d = false /\ n_hpflag d <= 0.


(** [dir], [sibling] as pure functions of the heap. *)
Definition dir_at (h : gmap addr RBTreeNode) (a : addr) : option direction :=
  d ← h !! a;
  match n_parent d with
  | None => Some dir_root
  | Some p =>
    pd ← h !! p;
    Some (if negb (is_nil (n_left pd)) && ptr_eqb (n_left pd) (Some a)
          then dir_left else dir_right)
  end.


Definition some_ptr (p : ptr) : list ptr :=
  match p with None => [] | Some _ => [p] end.




(** The three-node tree of the deletion tests: the constructor on key 1,
    then [Insert(0,0)] and [Insert(2,2)]. *)
Definition tree_012 : state := build 10 1 [0; 2].

(** [tree_012] with a red node for key 3 hung below the red node of key 2
    and held by its writer: the state in which [insert] calls
    [lockInsert]. *)
Definition tree_0123_hung : state :=
  exec (let* ins := alloc (mkNode red None None (Some 2%nat) 3 3 false 0 false) in
        set_right (Some 2%nat) ins >> lock ins) tree_012.

(** The same tree once [lockInsert] has taken the local area of the new
    node: its parent, its grandparent and its uncle. *)
Definition tree_0123_held : state := exec (lockInsert (Some 3%nat)) tree_0123_hung.

(** The four-node tree of the fourth insertion test: keys 2, 1, 3, 0. *)
Definition tree_2130 : state := build 10 2 [1; 3; 0].

(** A single-node tree whose root is held by another writer while three
    readers stand on it. *)
Definition tree_busy_root : state :=
  mkState {[ 0%nat := mkNode red None None None 1 1 true 3 false ]} 1%nat (Some 0%nat) 1 [] [].

(** The constructor, [Delete] of the only key, then [Insert] again. *)
Definition tree_reborn : state :=
  exec (Insert 10 1 1) (exec (Delete 10 1) (NewRBTree 1 1)).

(** ** Trees as the heap draws them

    A heap holds a tree when the nodes reachable from the root unfold into
    a finite binary tree whose child and parent pointers agree.  The tree
    records, for every position, the address of the node and its colour,
    key and value; the three synchronisation words are described apart. *)
Inductive tree :=
| Leaf
| Node (a : addr) (c : color) (l : tree) (k : Z) (v : Z) (r : tree).

Definition ptr_of (t : tree) : ptr :=
  match t with Leaf => None | Node a _ _ _ _ _ => Some a end.

Fixpoint addrs (t : tree) : list addr :=
  match t with
  | Leaf => []
  | Node a _ l _ _ r => a :: addrs l ++ addrs r
  end.

Fixpoint keys (t : tree) : list Z :=
  match t with
  | Leaf => []
  | Node _ _ l k _ r => keys l ++ k :: keys r
  end.

Fixpoint height (t : tree) : nat :=
  match t with
  | Leaf => O
  | Node _ _ l _ _ r => S (Nat.max (height l) (height r))
  end.

(** [repr h par t]: the heap [h] holds [t] below a node whose parent
    pointer is [par]. *)
Fixpoint repr (h : gmap addr RBTreeNode) (par : ptr) (t : tree) : Prop :=
  match t with
  | Leaf => True
  | Node a c l k v r =>
    (exists d, h !! a = Some d /\
               n_c d = c /\ n_left d = ptr_of l /\ n_right d = ptr_of r /\
               n_parent d = par /\ n_key d = k /\ n_value d = v) /\
    repr h (Some a) l /\ repr h (Some a) r
  end.

(** Binary-search order: keys ascend strictly from left to right. *)
Fixpoint bst (lo hi : option Z) (t : tree) : Prop :=
  match t with
  | Leaf => True
  | Node _ _ l k _ r =>
    match lo with Some x => x < k | None => True end /\
    match hi with Some x => k < x | None => True end /\
    bst lo (Some k) l /\ bst (Some k) hi r
  end.

(** A pointer is nil or allocated. *)
Definition allocated (h : gmap addr RBTreeNode) (p : ptr) : Prop :=
  match p with None => True | Some a => is_Some (h !! a) end.

(** The node above a subtree and the node above that one are allocated:
    what the descent of [delete] dereferences on its way down. *)
Definition up_allocated (h : gmap addr RBTreeNode) (par : ptr) : Prop :=
  match par with
  | None => True
  | Some p => exists pd, h !! p = Some pd /\ allocated h (n_parent pd)
  end.

(** A well-formed tree at rest: the heap holds [t] from the root, no node
    occurs twice, nothing is locked, read or marked, and an empty tree
    does not count one node. *)
Record tree_at_rest (s : state) (t : tree) : Prop := {
  rest_root : t_root s = ptr_of t;
  rest_repr : repr (heap s) None t;
  rest_nodup : NoDup (addrs t);
  rest_quiet : quiescent s;
  rest_count : t_root s = None -> t_count s <> 1
}.

(** A relation between heaps, node by node. *)
Definition heap_rel (R : RBTreeNode -> RBTreeNode -> Prop) (h h' : gmap addr RBTreeNode) : Prop :=
  forall a, option_Forall2 R (h !! a) (h' !! a).

(** The second node is the first with, at most, its writer flag cleared. *)
Definition flag_cleared (d d' : RBTreeNode) : Prop :=
  d' = d \/ d' = with_flag false d.

(** The second node is the first up to the writer flag. *)
Definition flag_changed (d d' : RBTreeNode) : Prop :=
  exists b, d' = with_flag b d.

(** Everything in a state but the heap. *)
Definition same_frame (s s' : state) : Prop :=
  next s = next s' /\ t_root s = t_root s' /\ t_count s = t_count s' /\
  area_l s = area_l s' /\ area_m s = area_m s'.

(** The nodes of [t] can be locked: flag clear, no reader. *)
Definition lockable (h : gmap addr RBTreeNode) (t : tree) : Prop :=
  forall a, a ∈ addrs t -> exists d, h !! a = Some d /\ n_flag d = false /\ n_hpflag d <= 0.

(** The shape of [tree_012]. *)
Definition shape_012 : tree :=
  Node 0%nat black (Node 1%nat red Leaf 0 0 Leaf) 1 1 (Node 2%nat red Leaf 2 2 Leaf).

(** ** Positions inside a tree

    A context is a tree with one hole, read from the hole upwards: each
    frame records the node above the hole, on which side the hole hangs,
    and the subtree on the other side. *)
Inductive ctx :=
| Top
| InL (a : addr) (c : color) (k v : Z) (r : tree) (up : ctx)
| InR (a : addr) (c : color) (l : tree) (k v : Z) (up : ctx).

Fixpoint plug (C : ctx) (t : tree) : tree :=
  match C with
  | Top => t
  | InL a c k v r up => plug up (Node a c t k v r)
  | InR a c l k v up => plug up (Node a c l k v t)
  end.

Definition ctx_parent (C : ctx) : ptr :=
  match C with
  | Top => None
  | InL a _ _ _ _ _ | InR a _ _ _ _ _ => Some a
  end.

Fixpoint ctx_depth (C : ctx) : nat :=
  match C with
  | Top => O
  | InL _ _ _ _ _ up | InR _ _ _ _ _ up => S (ctx_depth up)
  end.

Fixpoint addrs_ctx (C : ctx) : list addr :=
  match C with
  | Top => []
  | InL a _ _ _ r up => a :: addrs r ++ addrs_ctx up
  | InR a _ l _ _ up => a :: addrs l ++ addrs_ctx up
  end.

(** [repr_ctx h C hole]: the heap holds the frames of [C] around a hole
    whose pointer is [hole]. *)
Fixpoint repr_ctx (h : gmap addr RBTreeNode) (C : ctx) (hole : ptr) : Prop :=
  match C with
  | Top => True
  | InL a c k v r up =>
    (exists d, h !! a = Some d /\
               n_c d = c /\ n_left d = hole /\ n_right d = ptr_of r /\
               n_parent d = ctx_parent up /\ n_key d = k /\ n_value d = v) /\
    repr h (Some a) r /\ repr_ctx h up (Some a)
  | InR a c l k v up =>
    (exists d, h !! a = Some d /\
               n_c d = c /\ n_left d = ptr_of l /\ n_right d = hole /\
               n_parent d = ctx_parent up /\ n_key d = k /\ n_value d = v) /\
    repr h (Some a) l /\ repr_ctx h up (Some a)
  end.

(** Keys with their values, in order. *)
Fixpoint kvs (t : tree) : list (Z * Z) :=
  match t with
  | Leaf => []
  | Node _ _ l k v r => kvs l ++ (k, v) :: kvs r
  end.

(** What lies to the left and to the right of the hole of a context. *)
Fixpoint lkvs (C : ctx) : list (Z * Z) :=
  match C with
  | Top => []
  | InL _ _ _ _ _ up => lkvs up
  | InR _ _ l k v up => lkvs up ++ kvs l ++ [(k, v)]
  end.

Fixpoint rkvs (C : ctx) : list (Z * Z) :=
  match C with
  | Top => []
  | InL _ _ k v r up => (k, v) :: kvs r ++ rkvs up
  | InR _ _ _ _ _ up => rkvs up
  end.

(** The synchronisation words while one writer is at work: no reader, no
    marker, and every held flag belongs to a node of the list [L]. *)
Definition sync_ok (h : gmap addr RBTreeNode) (L : list ptr) : Prop :=
  forall a d, h !! a = Some d ->
    n_hpflag d = 0 /\ n_marker d = false /\ (n_flag d = true -> Some a ∈ L).

(** Addresses from the allocation counter on are free. *)
Definition fresh_from (s : state) : Prop :=
  forall a, (next s <= a)%nat -> heap s !! a = None.

(** Order of two bindings by their keys. *)
Definition kv_lt (p q : Z * Z) : Prop := p.1 < q.1.

(** A well-formed search tree at rest: keys ascend strictly in order. *)
Record tree_ok (s : state) (t : tree) : Prop := {
  ok_rest : tree_at_rest s t;
  ok_sorted : StronglySorted kv_lt (kvs t);
  ok_fresh : fresh_from s
}.

(** The root pointer of the tree around a hole. *)
Fixpoint ctx_root (C : ctx) (hole : ptr) : ptr :=
  match C with
  | Top => hole
  | InL a _ _ _ _ up | InR a _ _ _ _ up => ctx_root up (Some a)
  end.

Definition root_list (t : tree) : list addr :=
  match t with Leaf => [] | Node a _ _ _ _ _ => [a] end.

(** The nodes that [lockInsert] takes around a hole: parent, sibling,
    grandparent and uncle, those that exist, in this order. *)
Definition ctx_local (C : ctx) : list addr :=
  match C with
  | Top => []
  | InL p _ _ _ sb up | InR p _ sb _ _ up =>
    p :: root_list sb ++
    match up with
    | Top => []
    | InL g _ _ _ u _ | InR g _ u _ _ _ => g :: root_list u
    end
  end.

(** The second node carries the synchronisation words of the first. *)
Definition sync_same (d d' : RBTreeNode) : Prop :=
  n_flag d' = n_flag d /\ n_hpflag d' = n_hpflag d /\ n_marker d' = n_marker d.

(** Every member of the local area is an allocated node. *)
Definition area_allocated (s : state) : Prop :=
  forall p, p ∈ area_l s -> exists a, p = Some a /\ is_Some (heap s !! a).

(** The root of the tree is a red node. *)
Definition red_root (t : tree) : bool :=
  match t with Node _ red _ _ _ _ => true | _ => false end.

(** Put a binding into a list of bindings sorted by key. *)
Fixpoint kv_put (k v : Z) (l : list (Z * Z)) : list (Z * Z) :=
  match l with
  | [] => [(k, v)]
  | (k', v') :: l' =>
    if k <? k' then (k, v) :: l
    else if k =? k' then (k, v) :: l'
    else (k', v') :: kv_put k v l'
  end.

(** A key is bound in a list of bindings. *)
Definition has_key (k : Z) (l : list (Z * Z)) : bool :=
  existsb (fun p => p.1 =? k) l.

(** ** The red-black invariants *)

(** No red node has a red child. *)
Fixpoint no_red_red (t : tree) : Prop :=
  match t with
  | Leaf => True
  | Node _ c l _ _ r =>
    (c = red -> red_root l = false /\ red_root r = false) /\
    no_red_red l /\ no_red_red r
  end.

(** The number of black nodes on the leftmost path. *)
Fixpoint black_height (t : tree) : nat :=
  match t with
  | Leaf => O
  | Node _ c l _ _ _ => (match c with black => 1 | red => 0 end + black_height l)%nat
  end.

(** Every path from the root to a leaf meets the same number of black
    nodes. *)
Fixpoint balanced (t : tree) : Prop :=
  match t with
  | Leaf => True
  | Node _ _ l _ _ r => black_height l = black_height r /\ balanced l /\ balanced r
  end.

(** A red-black tree whose root may be red, as [Check] sees it. *)
Definition is_red_black (t : tree) : Prop := no_red_red t /\ balanced t.

(** The frame next to the hole is a red node. *)
Definition ctx_red (C : ctx) : bool :=
  match C with
  | InL _ red _ _ _ _ | InR _ red _ _ _ _ => true
  | _ => false
  end.

(** The frames of a context belong to a red-black tree whose hole has
    black height [n]. *)
Fixpoint ctx_red_black (C : ctx) (n : nat) : Prop :=
  match C with
  | Top => True
  | InL _ c _ _ sb up | InR _ c sb _ _ up =>
    is_red_black sb /\ black_height sb = n /\
    (c = red -> red_root sb = false /\ ctx_red up = false) /\
    ctx_red_black up (match c with black => 1 | red => 0 end + n)
  end.

(** The same node in another colour. *)
Definition paint (c : color) (t : tree) : tree :=
  match t with
  | Leaf => Leaf
  | Node a _ l k v r => Node a c l k v r
  end.

(** The tree that [maintainAfterInsert] leaves when it starts at the
    subtree [X] in the hole of [C]: nothing to do below a black parent or
    at the root, a red root parent turns black, a red uncle pushes the red
    up to the grandparent, and the four rotations. *)
Fixpoint rebalance (C : ctx) (X : tree) : tree :=
  match X with
  | Leaf => plug C X
  | Node _ black _ _ _ _ => plug C X
  | Node x red xl kx vx xr =>
    match C with
    | Top => X
    | InL _ black _ _ _ _ | InR _ black _ _ _ _ => plug C X
    | InL p red kp vp sb Top => Node p black X kp vp sb
    | InR p red sb kp vp Top => Node p black sb kp vp X
    | InL p red kp vp sb (InL g cg kg vg u up) =>
      if red_root u
      then rebalance up (Node g red (Node p black X kp vp sb) kg vg (paint black u))
      else plug up (Node p black X kp vp (Node g red sb kg vg u))
    | InR p red sb kp vp (InL g cg kg vg u up) =>
      if red_root u
      then rebalance up (Node g red (Node p black sb kp vp X) kg vg (paint black u))
      else plug up (Node x black (Node p red sb kp vp xl) kx vx (Node g red xr kg vg u))
    | InL p red kp vp sb (InR g cg u kg vg up) =>
      if red_root u
      then rebalance up (Node g red (paint black u) kg vg (Node p black X kp vp sb))
      else plug up (Node x black (Node g red u kg vg xl) kx vx (Node p red xr kp vp sb))
    | InR p red sb kp vp (InR g cg u kg vg up) =>
      if red_root u
      then rebalance up (Node g red (paint black u) kg vg (Node p black sb kp vp X))
      else plug up (Node p black (Node g red u kg vg sb) kp vp X)
    end
  end.

(** The tree that [insert] leaves when it starts at the subtree [N] in the
    hole of [C] and the next free address is [nx]. *)
Fixpoint tree_insert (nx : addr) (C : ctx) (N : tree) (k v : Z) : tree :=
  match N with
  | Leaf => rebalance C (Node nx red Leaf k v Leaf)
  | Node n c l kn vn r =>
    match k ?= kn with
    | Eq => plug C (Node n c l kn v r)
    | Lt => tree_insert nx (InL n c kn vn r C) l k v
    | Gt => tree_insert nx (InR n c l kn vn C) r k v
    end
  end.
(** ** Basic facts about the monad and about memory *)

Lemma state_eta (s : state) :
  mkState (heap s) (next s) (t_root s) (t_count s) (area_l s) (area_m s) = s.
Proof. by destruct s. Qed.

Lemma with_heap_id (s : state) : with_heap (heap s) s = s.
Proof. by destruct s. Qed.

Lemma node_eta (d : RBTreeNode) :
  mkNode (n_c d) (n_left d) (n_right d) (n_parent d) (n_key d) (n_value d)
         (n_flag d) (n_hpflag d) (n_marker d) = d.
Proof. by destruct d. Qed.

Lemma with_flag_same (d : RBTreeNode) : with_flag (n_flag d) d = d.
Proof. by destruct d. Qed.

Lemma with_flag_twice (x y : bool) (d : RBTreeNode) :
  with_flag x (with_flag y d) = with_flag x d.
Proof. done. Qed.

Lemma load_Some (s : state) (a : addr) (d : RBTreeNode) :
  heap s !! a = Some d -> load (Some a) s = Ret d s.
Proof. intros H. unfold load. by rewrite H. Qed.


(** What [lock] does on an allocated node, in full. *)
Lemma lock_spec (s : state) (a : addr) (d : RBTreeNode) :
  heap s !! a = Some d ->
  lock (Some a) s =
    if n_flag d then Ret false s
    else if 0 <? n_hpflag d then Ret false s
    else Ret true (with_heap (<[a := with_flag true d]> (heap s)) s).
Proof.
  intros H.
  unfold lock, flag_CompareAndSwap, hpflag_Load, flag_Swap, update, bind, modify, ret, load.
  simpl. rewrite H.
  destruct (n_flag d) eqn:Hf; simpl; [done|].
  rewrite H. simpl. rewrite lookup_insert_eq. simpl.
  destruct (0 <? n_hpflag d) eqn:Hh; simpl; [|done].
  rewrite !lookup_insert_eq. simpl. rewrite lookup_insert_eq. simpl.
  rewrite insert_insert_eq.
  replace (with_flag false (with_flag true d)) with d
    by (destruct d; simpl in *; by subst).
  rewrite (insert_id _ _ _ H). by destruct s.
Qed.

(** What [unlock] does on an allocated node. *)
Lemma unlock_spec (s : state) (a : addr) (d : RBTreeNode) :
  heap s !! a = Some d ->
  unlock (Some a) s =
    if n_flag d then Ret true (with_heap (<[a := with_flag false d]> (heap s)) s)
    else Ret false s.
Proof.
  intros H. unfold unlock, flag_CompareAndSwap, update, bind, modify, ret, load.
  simpl. rewrite H.
  destruct (n_flag d) eqn:Hf; simpl; [|done].
  by rewrite H.
Qed.

Lemma bind_eq {A B} (m : M A) (k : A -> M B) (s : state) :
  bind m k s = match m s with
               | Ret a s' => k a s'
               | Panic => Panic
               | Timeout => Timeout
               end.
Proof. done. Qed.

Lemma bind_Ret {A B} (m : M A) (k : A -> M B) (s s' : state) (a : A) :
  m s = Ret a s' -> bind m k s = k a s'.
Proof. intros H. by rewrite bind_eq, H. Qed.

(** Symbolic execution: unfold the methods, reduce, and resolve heap
    lookups from the hypotheses. *)
Ltac heap_lookup :=
  match goal with
  | |- context [ <[?a := ?x]> ?h !! ?a ] => rewrite (lookup_insert_eq h a x)
  | |- context [ <[?a := ?x]> ?h !! ?b ] => rewrite (lookup_insert_ne h a b x) by congruence
  | |- context [ {[ _ := _ ]} !! _ ] => rewrite lookup_singleton_eq
  | H : ?h !! ?a = _ |- context [ ?h !! ?a ] => rewrite H
  end.

Ltac munfold :=
  unfold lockDelete, lock_into_area, lockInsert, lock_unmarked, unlock_grandparent, unlockArea, unlockMarker, getMarker,
    cleanMarker, rotateLeft, rotateRight, replace_child, last_parent,
    sibling_left_isBlack, sibling_right_isBlack, sibling_left_isRed, sibling_right_isRed,
    dir_is, set_child_towards, swap, uncle, sibling, dir, isRed, isBlack, islock, isMark,
    lock, unlock, andM, orM, notM, non_nil, when, ignore, sleep,
    get_l, set_l, append_l, get_m, set_m, append_m, get_root, set_root, get_count, set_count,
    parent_of, left_of, right_of, c_of, key_of, value_of,
    set_c, set_left, set_right, set_parent, set_key, set_value,
    flag_Load, flag_CompareAndSwap, flag_Swap, marker_Load, marker_CompareAndSwap, marker_Swap,
    hpflag_Load, hpflag_Add, alloc, update, load, modify, get_state, panic, timeout, bind, ret.

Ltac mrun_with tac := repeat (munfold; cbn; try heap_lookup; try tac).
Ltac mrun := mrun_with idtac.

(** ** Writer-flag acquisition *)

(** C5.  [lock] fails on every node whose reader count is greater than 0:
    either the CAS of the flag already fails, or the flag is taken, the
    reader count is seen to be positive and the flag is released again.
    Either way the result is failure and the state is as before. *)
Theorem lock_fails_under_readers (s : state) (a : addr) (d : RBTreeNode) :
  heap s !! a = Some d ->
  0 < n_hpflag d ->
  lock (Some a) s = Ret false s.
Proof.
  intros H Hr. rewrite (lock_spec _ _ _ H).
  destruct (n_flag d); [done|].
  by replace (0 <? n_hpflag d) with true by (symmetry; apply Z.ltb_lt; lia).
Qed.

Lemma lock_fails_under_readers_witness :
  lock (Some 0%nat)
       (mkState {[ 0%nat := mkNode red None None None 1 1 false 1 false ]}
                1%nat (Some 0%nat) 1 [] [])
  = Ret false
       (mkState {[ 0%nat := mkNode red None None None 1 1 false 1 false ]}
                1%nat (Some 0%nat) 1 [] []).
Proof.
  apply (lock_fails_under_readers _ 0%nat (mkNode red None None None 1 1 false 1 false)).
  - reflexivity.
  - simpl. lia.
Defined.

(** The order of the two steps shows on a free node without readers:
    the flag is set and stays set. *)
Lemma lock_takes_free_node (s : state) (a : addr) (d : RBTreeNode) :
  heap s !! a = Some d ->
  n_flag d = false ->
  n_hpflag d <= 0 ->
  lock (Some a) s = Ret true (with_heap (<[a := with_flag true d]> (heap s)) s).
Proof.
  intros H Hf Hr. rewrite (lock_spec _ _ _ H), Hf.
  by replace (0 <? n_hpflag d) with false by (symmetry; apply Z.ltb_ge; lia).
Qed.

(** The earlier revision lets a writer in while one reader is present. *)
Lemma rev1_lock_admits_one_reader :
  exists s',
    Rev1.lock (Some 0%nat)
      (mkState {[ 0%nat := mkNode red None None None 1 1 false 1 false ]}
               1%nat (Some 0%nat) 1 [] [])
    = Ret true s'.
Proof. eexists. vm_compute. reflexivity. Qed.

(** ** Lookup in an empty tree *)

(** C10.  On an empty tree (root is nil) [Get] returns none for every key
    and leaves the state alone: [get] accepts the nil receiver. *)
Theorem Get_empty (fuel : nat) (k : Z) (s : state) :
  t_root s = None ->
  Get (S fuel) k s = Ret None s.
Proof.
  intros H. unfold Get, get_root. rewrite bind_eq, H. reflexivity.
Qed.

Lemma Get_empty_witness :
  Get 1 5 (exec (Delete 10 1) (NewRBTree 1 1))
  = Ret None (exec (Delete 10 1) (NewRBTree 1 1)).
Proof. apply (Get_empty 0 5). reflexivity. Defined.

(** ** Deleting a key that is present *)

(** A delete attempt that finds the key in the root signals conflict and
    puts the state back: [lockDelete] refuses the node that [delete] has
    locked a moment before. *)
Lemma delete_root_conflicts (fuel : nat) (s : state) (a : addr) (d : RBTreeNode) (k : Z) :
  heap s !! a = Some d ->
  n_flag d = false ->
  n_hpflag d <= 0 ->
  n_parent d = None ->
  n_key d = k ->
  delete (S fuel) (Some a) k s = Ret (None, false) s.
Proof.
  intros H Hf Hr Hp Hk.
  assert (Hh : (0 <? n_hpflag d) = false) by (apply Z.ltb_ge; lia).
  cbn [delete is_nil].
  rewrite (bind_Ret _ _ _ _ _ (lock_takes_free_node _ _ _ H Hf Hr)). cbn [negb].
  mrun. rewrite Hp. mrun. rewrite Hk, Z.compare_refl. mrun.
  f_equal. rewrite insert_insert_eq.
  replace (with_flag false (with_flag true d)) with d
    by (destruct d; simpl in *; by subst).
  rewrite (insert_id _ _ _ H). by destruct s.
Qed.

(** Hence the retry loop of [Delete] never ends on such a state. *)
Lemma Delete_loop_root_conflicts (attempts fuel : nat) (s : state) (a : addr) (d : RBTreeNode) (k : Z) :
  t_root s = Some a ->
  heap s !! a = Some d ->
  n_flag d = false ->
  n_hpflag d <= 0 ->
  n_parent d = None ->
  n_key d = k ->
  Delete_loop attempts fuel k (None, false) s = Timeout.
Proof.
  intros Hroot H Hf Hr Hp Hk. revert s Hroot H.
  induction attempts as [|n IH]; intros s Hroot H; [done|].
  cbn [Delete_loop snd]. unfold sleep, set_l, set_m, get_root, modify.
  rewrite !bind_eq. cbn. rewrite Hroot.
  destruct fuel as [|fuel]; [done|].
  rewrite bind_eq, (delete_root_conflicts fuel _ a d k) by done.
  by apply IH.
Qed.

(** C1.  On the three-node tree of [TestDeleteCase1] the call
    [Delete(1)] never returns: whatever the bound on the number of attempts
    and on the depth of the recursion, the retry loop is still running. *)
Theorem Delete_present_never_returns (fuel : nat) :
  Delete fuel 1 tree_012 = Timeout.
Proof.
  unfold Delete.
  assert (Hs : tree_012 = mkState (heap tree_012) 3%nat (Some 0%nat) 3 [] [])
    by (vm_compute; reflexivity).
  assert (H : heap tree_012 !! 0%nat =
              Some (mkNode black (Some 1%nat) (Some 2%nat) None 1 1 false 0 false))
    by (vm_compute; reflexivity).
  rewrite Hs at 1. unfold andM, get_count, get_root, key_of, set_l, set_m, modify.
  rewrite !bind_eq. cbn.
  destruct fuel as [|fuel]; [done|].
  rewrite bind_eq.
  erewrite (delete_root_conflicts fuel _ 0%nat _ 1); [|done..].
  eapply Delete_loop_root_conflicts; done.
Qed.

(** The same key is found and returned as long as nothing is deleted. *)
Lemma Get_present_tree_012 : Get 10 1 tree_012 = Ret (Some 1) tree_012.
Proof. vm_compute. reflexivity. Qed.

(** ** The node count *)

(** C3.  After the constructor, [Delete] of the only key and a further
    [Insert], the tree holds one node and [count] is 0: [Insert] into an
    empty tree returns before it reaches [t.count++]. *)
Theorem count_lost_after_reinsert :
  inorder 10 (heap tree_reborn) (t_root tree_reborn) = Some [1] /\
  t_count tree_reborn = 0.
Proof. vm_compute. done. Qed.

(** ** The colour of the root *)

(** The root of the tree built from keys 2, 1, 3, 0 is red. *)
Lemma root_red_after_2130 : ~ root_black tree_2130.
Proof.
  intros H.
  specialize (H (mkNode red (Some 1%nat) (Some 2%nat) None 2 2 false 0 false)).
  discriminate H. vm_compute. reflexivity.
Qed.

(** ** Field reads on an allocated node *)

Lemma parent_of_spec s a d : heap s !! a = Some d -> parent_of (Some a) s = Ret (n_parent d) s.
Proof. intros H. unfold parent_of. by rewrite bind_eq, (load_Some _ _ _ H). Qed.
Lemma left_of_spec s a d : heap s !! a = Some d -> left_of (Some a) s = Ret (n_left d) s.
Proof. intros H. unfold left_of. by rewrite bind_eq, (load_Some _ _ _ H). Qed.
Lemma right_of_spec s a d : heap s !! a = Some d -> right_of (Some a) s = Ret (n_right d) s.
Proof. intros H. unfold right_of. by rewrite bind_eq, (load_Some _ _ _ H). Qed.
Lemma key_of_spec s a d : heap s !! a = Some d -> key_of (Some a) s = Ret (n_key d) s.
Proof. intros H. unfold key_of. by rewrite bind_eq, (load_Some _ _ _ H). Qed.
Lemma value_of_spec s a d : heap s !! a = Some d -> value_of (Some a) s = Ret (n_value d) s.
Proof. intros H. unfold value_of. by rewrite bind_eq, (load_Some _ _ _ H). Qed.
Lemma c_of_spec s a d : heap s !! a = Some d -> c_of (Some a) s = Ret (n_c d) s.
Proof. intros H. unfold c_of. by rewrite bind_eq, (load_Some _ _ _ H). Qed.

Lemma islock_spec s a d : heap s !! a = Some d -> islock (Some a) s = Ret (n_flag d) s.
Proof. intros H. unfold islock, flag_Load. by rewrite bind_eq, (load_Some _ _ _ H). Qed.
Lemma isMark_spec s a d : heap s !! a = Some d -> isMark (Some a) s = Ret (n_marker d) s.
Proof. intros H. unfold isMark, marker_Load. by rewrite bind_eq, (load_Some _ _ _ H). Qed.

Lemma update_spec s a d f :
  heap s !! a = Some d -> update (Some a) f s = Ret tt (with_heap (<[a := f d]> (heap s)) s).
Proof. intros H. unfold update. by rewrite bind_eq, (load_Some _ _ _ H). Qed.

(** Stepping through a computation: reduce the monad and the state
    projections, then read the next field from the heap. *)
Local Arguments bind {A B} m k s /.
Local Arguments ret {A} a s /.
Local Arguments andM a b /.
Local Arguments orM a b /.
Local Arguments notM a /.
Local Arguments non_nil a /.
Local Arguments when b m /.
Local Arguments ignore {A} m /.
Ltac mcbn :=
  cbn [bind ret get_root get_count set_root set_count set_l set_m get_l get_m
       append_l append_m modify when ignore andM orM notM non_nil is_nil negb sleep
       get_state panic timeout
       heap next t_root t_count area_l area_m
       with_heap with_next with_root with_count with_l with_m fst snd
       n_c n_left n_right n_parent n_key n_value n_flag n_hpflag n_marker
       with_c with_left with_right with_parent with_key with_value with_flag
       with_hpflag with_marker
       color_eqb direction_eqb ptr_eqb ptr_of Z.eqb Pos.eqb].

Ltac heap_solve :=
  cbn [heap with_heap with_next with_root with_count with_l with_m];
  repeat first [ rewrite lookup_insert_eq
               | rewrite lookup_insert_ne by congruence ];
  first [ eassumption | reflexivity ].

Ltac mread :=
  match goal with
  | |- context [parent_of (Some ?a) ?s] => erewrite (parent_of_spec s a) by heap_solve
  | |- context [left_of (Some ?a) ?s] => erewrite (left_of_spec s a) by heap_solve
  | |- context [right_of (Some ?a) ?s] => erewrite (right_of_spec s a) by heap_solve
  | |- context [key_of (Some ?a) ?s] => erewrite (key_of_spec s a) by heap_solve
  | |- context [value_of (Some ?a) ?s] => erewrite (value_of_spec s a) by heap_solve
  | |- context [c_of (Some ?a) ?s] => erewrite (c_of_spec s a) by heap_solve
  | |- context [islock (Some ?a) ?s] => erewrite (islock_spec s a) by heap_solve
  | |- context [isMark (Some ?a) ?s] => erewrite (isMark_spec s a) by heap_solve
  | |- context [update (Some ?a) ?f ?s] => erewrite (update_spec s a _ f) by heap_solve
  end.

Ltac mread_lock :=
  match goal with
  | |- context [lock (Some ?a) ?s] => erewrite (lock_spec s a) by heap_solve
  | |- context [unlock (Some ?a) ?s] => erewrite (unlock_spec s a) by heap_solve
  end.

Ltac msteps_with tac :=
  repeat (mcbn; unfold set_c, set_left, set_right, set_parent, set_key, set_value;
          try first [mread | mread_lock | tac]).

Ltac msteps := msteps_with fail.

(** Unfold the tree-walking helpers as well. *)
Ltac mwalk_with tac :=
  repeat (mcbn;
          unfold set_c, set_left, set_right, set_parent, set_key, set_value,
                 isRed, isBlack, dir, dir_is, sibling, uncle, set_child_towards,
                 lockInsert, lock_unmarked, unlockArea, replace_child;
          cbn [for_each Z.ltb Z.compare Pos.compare];
          try first [mread | mread_lock | tac]).

(** Lazy symbolic execution: bring the left-hand side to weak head normal
    form with the heap operations and the comparisons kept folded, tidy the
    records, then resolve the heap lookup or the comparison that blocks the
    head. *)
Ltac mproj :=
  cbn [heap next t_root t_count area_l area_m
       with_heap with_next with_root with_count with_l with_m fst snd
       n_c n_left n_right n_parent n_key n_value n_flag n_hpflag n_marker
       with_c with_left with_right with_parent with_key with_value with_flag
       with_hpflag with_marker app].

Ltac mhnf :=
  with_strategy opaque [base.lookup base.insert Z.eqb Z.ltb Z.compare Nat.eqb Z.add wrap
                        get insert delete maintainAfterInsert maintainAfterDelete
                        Insert_loop Delete_loop Get_loop leftmost spin mark_chain]
    (lazymatch goal with
     | |- ?L = ?R => let L' := eval lazy head in L in change (L' = R)
     end).

(** One unfolding of a recursive method whose fuel shows a successor. *)
Ltac mfix :=
  progress cbn [get insert delete maintainAfterInsert maintainAfterDelete
                Insert_loop Delete_loop Get_loop leftmost spin mark_chain].

Ltac addr_eqb :=
  match goal with
  | |- context [ (?a =? ?a)%nat ] => rewrite (Nat.eqb_refl a)
  | |- context [ (?a =? ?b)%nat ] =>
      rewrite (proj2 (Nat.eqb_neq a b)) by congruence
  end.

Ltac mgo_with tac :=
  repeat (mhnf; mproj;
          try first [ heap_lookup | addr_eqb | rewrite Z.ltb_irrefl | tac | mfix ]).

Ltac mgo := mgo_with fail.

(** ** Heaps that differ in writer flags only *)

Lemma heap_rel_refl (R : RBTreeNode -> RBTreeNode -> Prop) h :
  (forall d, R d d) -> heap_rel R h h.
Proof. intros HR a. destruct (h !! a); by constructor. Qed.

Lemma heap_rel_trans (R : RBTreeNode -> RBTreeNode -> Prop) h1 h2 h3 :
  (forall x y z, R x y -> R y z -> R x z) ->
  heap_rel R h1 h2 -> heap_rel R h2 h3 -> heap_rel R h1 h3.
Proof.
  intros HR H12 H23 a. specialize (H12 a). specialize (H23 a).
  destruct H12; inversion H23; subst; constructor; eauto.
Qed.

Lemma heap_rel_insert (R : RBTreeNode -> RBTreeNode -> Prop) h a d d' :
  (forall x, R x x) ->
  h !! a = Some d -> R d d' -> heap_rel R h (<[a := d']> h).
Proof.
  intros HR H Hd b. destruct (decide (a = b)) as [->|Hne].
  - rewrite lookup_insert_eq, H. by constructor.
  - rewrite lookup_insert_ne by done. destruct (h !! b); by constructor.
Qed.

Lemma flag_changed_refl d : flag_changed d d.
Proof. exists (n_flag d). by rewrite with_flag_same. Qed.

Lemma flag_changed_trans x y z : flag_changed x y -> flag_changed y z -> flag_changed x z.
Proof. intros [b ->] [b' ->]. by exists b'. Qed.

Lemma flag_cleared_changed d d' : flag_cleared d d' -> flag_changed d d'.
Proof. intros [->| ->]; [apply flag_changed_refl | by exists false]. Qed.

Lemma heap_rel_mono (R R' : RBTreeNode -> RBTreeNode -> Prop) h h' :
  (forall x y, R x y -> R' x y) -> heap_rel R h h' -> heap_rel R' h h'.
Proof. intros HR H a. destruct (H a); constructor; eauto. Qed.

Lemma heap_rel_lookup (R : RBTreeNode -> RBTreeNode -> Prop) h h' a d :
  heap_rel R h h' -> h !! a = Some d -> exists d', h' !! a = Some d' /\ R d d'.
Proof. intros H Ha. specialize (H a). rewrite Ha in H. inversion H; subst. eauto. Qed.

Lemma heap_rel_lookup_inv (R : RBTreeNode -> RBTreeNode -> Prop) h h' a d' :
  heap_rel R h h' -> h' !! a = Some d' -> exists d, h !! a = Some d /\ R d d'.
Proof. intros H Ha. specialize (H a). rewrite Ha in H. inversion H; subst. eauto. Qed.

(** [repr] does not look at writer flags. *)
Lemma repr_flag_changed h h' par t :
  heap_rel flag_changed h h' -> repr h par t -> repr h' par t.
Proof.
  intros H. revert par. induction t as [|a c l IHl k v r IHr]; intros par; [done|].
  cbn [repr]. intros [(d & Ha & Hd) [Hl Hr]]. split; [|split; eauto].
  destruct (heap_rel_lookup _ _ _ _ _ H Ha) as (d' & Ha' & [b ->]).
  exists (with_flag b d). by destruct d.
Qed.

Lemma allocated_flag_changed h h' p :
  heap_rel flag_changed h h' -> allocated h p -> allocated h' p.
Proof.
  intros H. destruct p as [a|]; [|done]. intros [d Ha].
  destruct (heap_rel_lookup _ _ _ _ _ H Ha) as (d' & Ha' & _). by exists d'.
Qed.

Lemma up_allocated_flag_changed h h' par :
  heap_rel flag_changed h h' -> up_allocated h par -> up_allocated h' par.
Proof.
  intros H. destruct par as [p|]; [|done]. intros (pd & Hp & Hg).
  destruct (heap_rel_lookup _ _ _ _ _ H Hp) as (pd' & Hp' & [b ->]).
  exists (with_flag b pd). split; [done|]. destruct pd; cbn in *.
  by eapply allocated_flag_changed.
Qed.

(** On a heap at rest, clearing flags changes nothing. *)
Lemma flags_cleared_at_rest h h' :
  (forall a d, h !! a = Some d -> n_flag d = false) ->
  heap_rel flag_cleared h h' -> h' = h.
Proof.
  intros Hq H. apply map_eq. intros a. specialize (H a).
  destruct (h !! a) as [d|] eqn:Ha; inversion H as [x y [->| ->]|]; subst; [done| |done].
  f_equal. rewrite <- (Hq a d Ha). apply with_flag_same.
Qed.

Lemma same_frame_refl s : same_frame s s.
Proof. by repeat split. Qed.

Lemma same_frame_trans s1 s2 s3 : same_frame s1 s2 -> same_frame s2 s3 -> same_frame s1 s3.
Proof. unfold same_frame. intros (?&?&?&?&?) (?&?&?&?&?). repeat split; congruence. Qed.

Lemma same_frame_with_heap s h : same_frame s (with_heap h s).
Proof. by repeat split. Qed.

Lemma flag_cleared_refl d : flag_cleared d d.
Proof. by left. Qed.

Lemma flag_cleared_trans x y z : flag_cleared x y -> flag_cleared y z -> flag_cleared x z.
Proof. intros [->| ->] [->| ->]; (by left) || (by right). Qed.

(** [unlock] clears at most the flag of its node. *)
Lemma unlock_cleared s a d :
  heap s !! a = Some d ->
  exists b s', unlock (Some a) s = Ret b s' /\ same_frame s s' /\
               heap_rel flag_cleared (heap s) (heap s') /\
               heap s' !! a = Some (with_flag false d).
Proof.
  intros H. rewrite (unlock_spec _ _ _ H).
  destruct (n_flag d) eqn:Hf; eexists _, _; (split; [reflexivity|]).
  - split; [apply same_frame_with_heap|]. cbn. split.
    + eapply heap_rel_insert; [apply flag_cleared_refl|done|by right].
    + apply lookup_insert_eq.
  - split; [apply same_frame_refl|]. split; [apply heap_rel_refl, flag_cleared_refl|].
    rewrite H. f_equal. by rewrite <- Hf, with_flag_same.
Qed.

(** Letting go of the grandparent clears at most one flag. *)
Lemma unlock_grandparent_cleared s a d :
  up_allocated (heap s) (n_parent d) ->
  heap s !! a = Some d ->
  exists s', unlock_grandparent (Some a) s = Ret tt s' /\ same_frame s s' /\
             heap_rel flag_cleared (heap s) (heap s').
Proof.
  intros Hp H. unfold unlock_grandparent.
  rewrite bind_eq, (parent_of_spec _ _ _ H).
  destruct (n_parent d) as [p|]; cbn [is_nil negb when];
    [|by eauto using same_frame_refl, heap_rel_refl, flag_cleared_refl].
  destruct Hp as (pd & Hpd & Hg). rewrite bind_eq, (parent_of_spec _ _ _ Hpd).
  destruct (n_parent pd) as [g|]; cbn [is_nil negb when];
    [|by eauto using same_frame_refl, heap_rel_refl, flag_cleared_refl].
  destruct Hg as [gd Hgd].
  destruct (unlock_cleared _ _ _ Hgd) as (b & s' & E & Hf & Hr & _).
  exists s'. unfold ignore. by rewrite bind_eq, E.
Qed.

Lemma repr_lookup h par a c l k v r :
  repr h par (Node a c l k v r) ->
  exists d, h !! a = Some d /\ n_c d = c /\ n_left d = ptr_of l /\ n_right d = ptr_of r /\
            n_parent d = par /\ n_key d = k /\ n_value d = v.
Proof. by intros [H _]. Qed.

(** ** Deleting a key that is absent *)

(** The descent of [delete] below a subtree that does not hold the key:
    it returns none without conflict, and all it leaves behind is cleared
    flags. *)
Lemma delete_absent (t : tree) :
  forall (fuel : nat) (par : ptr) (k : Z) (s : state),
    repr (heap s) par t ->
    lockable (heap s) t ->
    NoDup (addrs t) ->
    up_allocated (heap s) par ->
    k ∉ keys t ->
    (height t < fuel)%nat ->
    exists s', delete fuel (ptr_of t) k s = Ret (None, true) s' /\
               same_frame s s' /\ heap_rel flag_cleared (heap s) (heap s').
Proof.
  induction t as [|a c l IHl key v r IHr]; intros fuel par k s Hrepr Hfree Hnd Hcl Hk Hfuel.
  - destruct fuel as [|fuel]; [cbn in Hfuel; lia|].
    exists s. cbn. eauto using same_frame_refl, heap_rel_refl, flag_cleared_refl.
  - destruct fuel as [|fuel]; [cbn in Hfuel; lia|].
    cbn [height] in Hfuel.
    destruct Hrepr as [(d & Ha & Hc & Hl & Hr & Hp & Hkey & Hv) [Hreprl Hreprr]].
    destruct (Hfree a) as (d0 & Ha0 & Hflag & Hhp); [cbn; left|].
    rewrite Ha in Ha0. injection Ha0 as <-.
    cbn [delete ptr_of is_nil].
    rewrite (bind_Ret _ _ _ _ _ (lock_takes_free_node _ _ _ Ha Hflag Hhp)). cbn [negb].
    set (s1 := with_heap (<[a := with_flag true d]> (heap s)) s).
    assert (H01 : heap_rel flag_changed (heap s) (heap s1)).
    { eapply heap_rel_insert; [apply flag_changed_refl|done|by exists true]. }
    assert (Ha1 : heap s1 !! a = Some (with_flag true d)) by apply lookup_insert_eq.
    assert (Hcl1 : up_allocated (heap s1) (n_parent (with_flag true d))).
    { cbn [n_parent with_flag]. rewrite Hp. by eapply up_allocated_flag_changed. }
    destruct (unlock_grandparent_cleared _ _ _ Hcl1 Ha1) as (s2 & E2 & Hf12 & H12).
    rewrite bind_eq, bind_eq, E2.
    assert (H12' : heap_rel flag_changed (heap s1) (heap s2))
      by (eapply heap_rel_mono; [apply flag_cleared_changed|done]).
    destruct (heap_rel_lookup _ _ _ _ _ H12 Ha1) as (d2 & Ha2 & Hd2).
    assert (Hsh2 : exists b, d2 = with_flag b d).
    { destruct Hd2 as [->| ->]; [by exists true|by exists false]. }
    destruct Hsh2 as [b2 ->].
    rewrite bind_eq, (key_of_spec _ _ _ Ha2). cbn [n_key with_flag].
    rewrite Hkey.
    assert (Hne : k <> key) by (intros ->; apply Hk; cbn; apply elem_of_app; right; by left).
    assert (H02 : heap_rel flag_changed (heap s) (heap s2))
      by (eapply heap_rel_trans; [apply flag_changed_trans|done..]).
    assert (Hcl2 : up_allocated (heap s2) (Some a)).
    { exists (with_flag b2 d). split; [done|]. cbn [n_parent with_flag]. rewrite Hp.
      apply (allocated_flag_changed (heap s)); [done|].
      destruct par as [p|]; [|done]. destruct Hcl as (pd & Hpd & _). by exists pd. }
    cbn in Hnd. apply NoDup_cons in Hnd as [Hnotin Hnd].
    apply NoDup_app in Hnd as (Hndl & _ & Hndr).
    assert (Hsub : forall t', (forall x, x ∈ addrs t' -> x ∈ addrs l ++ addrs r) ->
                     lockable (heap s2) t').
    { intros t' Hin x Hx.
      assert (Hxa : x <> a) by (intros ->; apply Hnotin; auto).
      destruct (Hfree x) as (dx & Hdx & Hfx & Hhx); [cbn; right; auto|].
      assert (Hdx1 : heap s1 !! x = Some dx)
        by (subst s1; cbn; by rewrite lookup_insert_ne).
      destruct (heap_rel_lookup _ _ _ _ _ H12 Hdx1) as (dx2 & Hdx2 & [->| ->]).
      - eauto.
      - exists (with_flag false dx). by destruct dx. }
    assert (Hfinish : forall s3,
              same_frame s2 s3 -> heap_rel flag_cleared (heap s2) (heap s3) ->
              exists s', (unlock (Some a) >> ret (None : option Z, true)) s3
                         = Ret (None, true) s' /\
                         same_frame s s' /\ heap_rel flag_cleared (heap s) (heap s')).
    { intros s3 Hf23 H23.
      destruct (heap_rel_lookup _ _ _ _ _ H23 Ha2) as (d3 & Ha3 & Hd3).
      destruct (unlock_cleared _ _ _ Ha3) as (b & s4 & E4 & Hf34 & H34 & Ha4).
      exists s4. rewrite bind_eq, E4. split; [done|]. split.
      - eapply same_frame_trans; [|eapply same_frame_trans; [exact Hf12|]].
        + apply same_frame_with_heap.
        + by eapply same_frame_trans.
      - intros x. destruct (decide (x = a)) as [->|Hxa].
        + rewrite Ha, Ha4. constructor. left.
          destruct Hd3 as [->| ->]; destruct d; cbn in *; by subst.
        + pose proof (H12 x) as Hx12. pose proof (H23 x) as Hx23. pose proof (H34 x) as Hx34.
          assert (Hx01 : heap s1 !! x = heap s !! x)
            by (subst s1; cbn; by rewrite lookup_insert_ne).
          rewrite Hx01 in Hx12.
          destruct Hx12; inversion Hx23; subst; try congruence;
            inversion Hx34; subst; try congruence; constructor.
          repeat match goal with
                 | H : Some _ = _ |- _ => symmetry in H
                 end.
          repeat match goal with
                 | H1 : ?h !! x = Some ?u, H2 : ?h !! x = Some ?w |- _ =>
                     rewrite H1 in H2; injection H2 as ->
                 end.
          eauto using flag_cleared_trans. }
    destruct (Z.compare_spec k key) as [Heq|Hlt|Hgt]; [done| |].
    + rewrite bind_eq, (left_of_spec _ _ _ Ha2). cbn [n_left with_flag]. rewrite Hl.
      destruct (IHl fuel (Some a) k s2) as (s3 & E3 & Hf23 & H23).
      * by eapply repr_flag_changed.
      * apply Hsub. intros x Hx. apply elem_of_app. by left.
      * done.
      * done.
      * intros Hin. apply Hk. cbn. apply elem_of_app. by left.
      * lia.
      * rewrite E3. by apply Hfinish.
    + rewrite bind_eq, (right_of_spec _ _ _ Ha2). cbn [n_right with_flag]. rewrite Hr.
      destruct (IHr fuel (Some a) k s2) as (s3 & E3 & Hf23 & H23).
      * by eapply repr_flag_changed.
      * apply Hsub. intros x Hx. apply elem_of_app. by right.
      * done.
      * done.
      * intros Hin. apply Hk. cbn. apply elem_of_app. right. by right.
      * lia.
      * rewrite E3. by apply Hfinish.
Qed.

Lemma lockable_at_rest s t par :
  quiescent s -> repr (heap s) par t -> lockable (heap s) t.
Proof.
  intros Hq. revert par.
  induction t as [|a c l IHl k v r IHr]; intros par Hrepr x Hx; [by apply elem_of_nil in Hx|].
  destruct Hrepr as [(d & Ha & _) [Hl Hr]]. cbn in Hx.
  apply elem_of_cons in Hx as [->|Hx].
  - exists d. destruct (Hq a d Ha) as (Hf & Hh & _). repeat split; [done..|lia].
  - apply elem_of_app in Hx as [Hx|Hx]; [by eapply IHl|by eapply IHr].
Qed.

(** C9.  On a well-formed tree at rest that does not hold key [k],
    [Delete(k)] returns none and leaves heap, root and count exactly as they
    were (colours included). *)
Theorem Delete_absent_unchanged (s : state) (t : tree) (k : Z) (fuel : nat) :
  tree_at_rest s t ->
  k ∉ keys t ->
  (height t < fuel)%nat ->
  exists s', Delete fuel k s = Ret None s' /\ same_tree s s'.
Proof.
  intros [Hroot Hrepr Hnd Hq Hcount] Hk Hfuel.
  set (s0 := with_m [] (with_l [] s)).
  assert (Hcase : exists s1, s1 = s /\
            andM (let* c := get_count in ret (c =? 1))
                 (let* rt := get_root in let* rk := key_of rt in ret (rk =? k)) s
            = Ret false s1).
  { exists s. split; [done|]. unfold andM, get_count, get_root.
    rewrite !bind_eq. cbn [ret].
    destruct (t_count s =? 1) eqn:Hc1; [|done].
    rewrite bind_eq. rewrite Hroot.
    destruct t as [|a c l key v r].
    - exfalso. apply Hcount; [by rewrite Hroot|]. by apply Z.eqb_eq.
    - destruct (repr_lookup _ _ _ _ _ _ _ _ Hrepr) as (d & Ha & _ & _ & _ & _ & Hkey & _).
      cbn [ptr_of]. rewrite bind_eq, (key_of_spec _ _ _ Ha). cbn [ret]. rewrite Hkey.
      replace (key =? k) with false; [done|].
      symmetry. apply Z.eqb_neq. intros ->. apply Hk. cbn.
      apply elem_of_app. right. left. }
  destruct Hcase as (s1 & -> & Ecase).
  unfold Delete. rewrite bind_eq, Ecase.
  unfold set_l, set_m, get_root, modify. rewrite !bind_eq. cbn [with_l with_m t_root].
  fold s0. rewrite Hroot.
  destruct (delete_absent t fuel None k s0) as (s' & E & Hf & Hrel); try done.
  { by eapply lockable_at_rest. }
  rewrite E.
  assert (Hfuel' : exists f, fuel = S f) by (destruct fuel; [lia|eauto]).
  destruct Hfuel' as [f ->].
  exists s'. split; [done|].
  destruct Hf as (_ & Hr & Hc & _).
  repeat split; [|done..].
  symmetry. apply (flags_cleared_at_rest (heap s)); [|done].
  intros a d Ha. by destruct (Hq a d Ha).
Qed.

(** Concrete heaps are inspected through their list of bindings. *)
Ltac heap_forall :=
  match goal with
  | |- forall a d, ?h !! a = Some d -> @?P a d =>
      change (map_Forall P h); apply map_Forall_to_list;
      let l := eval vm_compute in (map_to_list h) in
      replace (map_to_list h) with l by (vm_compute; reflexivity);
      repeat first [apply Forall_nil_2 | apply Forall_cons_2];
      cbn [uncurry]
  end.

(** A value is not in a list of distinct literals. *)
Ltac list_notin :=
  let H := fresh in
  intros H; repeat (apply elem_of_cons in H as [H|H]; [discriminate|]);
  by apply elem_of_nil in H.

Lemma tree_012_at_rest : tree_at_rest tree_012 shape_012.
Proof.
  split.
  - vm_compute. reflexivity.
  - cbn [repr shape_012]. repeat split;
      (eexists; split; [vm_compute; reflexivity|cbn; done]).
  - repeat (apply NoDup_cons; split; [list_notin|]). apply NoDup_nil_2.
  - unfold quiescent. heap_forall; done.
  - intros H. exfalso. revert H. by replace (t_root tree_012) with (Some 0%nat)
      by (vm_compute; reflexivity).
Qed.

Lemma Delete_absent_unchanged_witness :
  exists s', Delete 3 7 tree_012 = Ret None s' /\ same_tree tree_012 s'.
Proof.
  apply (Delete_absent_unchanged tree_012 shape_012 7 3).
  - apply tree_012_at_rest.
  - cbn. list_notin.
  - cbn. lia.
Defined.

(** ** The retry loop of [Delete] *)





(** A run with conflicts: where an attempt signals conflict and hands
    the state back, runs of any length start and none of them ends. *)
Lemma delete_retries_conflict_forever (fuel : nat) (k : Z) (s : state) :
  delete fuel (t_root s) k s = Ret (None, false) s ->
  with_m [] (with_l [] s) = s ->
  forall (n : nat) (v : option Z) (s' : state), ~ delete_retries fuel k n s v s'.
Proof.
  intros E Hreset n. induction n as [|n IH]; intros v s' Hrun.
  - inversion Hrun as [s0 v0 s0' E'|]; subst. rewrite E in E'. discriminate.
  - inversion Hrun as [|n' s0 b s1 v0 s0' E' Hrest]; subst.
    rewrite E in E'. injection E' as <- <-. rewrite Hreset in Hrest. by eapply IH.
Qed.

(** So it is on [tree_012] for key 1. *)
Lemma delete_retries_never_end (fuel n : nat) (v : option Z) (s' : state) :
  ~ delete_retries (S fuel) 1 n tree_012 v s'.
Proof.
  apply delete_retries_conflict_forever.
  - replace (t_root tree_012) with (Some 0%nat) by (vm_compute; reflexivity).
    apply (delete_root_conflicts fuel tree_012 0%nat
             (mkNode black (Some 1%nat) (Some 2%nat) None 1 1 false 0 false) 1);
      try done; vm_compute; reflexivity.
  - vm_compute. reflexivity.
Qed.

(** The loop of the earlier revision leaves the delete path after the
    first conflict: what it returns then is what the read path found, and
    the key stays in the tree. *)
Lemma rev1_retry_reads (get_path : Z -> M (option Z * bool))
      (attempts : nat) (k : Z) (b v : option Z) (s s1 : state) :
  get_path k s = Ret (v, true) s1 ->
  Rev1.Delete_loop get_path (S attempts) k (b, false) s = Ret v s1.
Proof.
  intros E. cbn [Rev1.Delete_loop snd bind ret sleep]. rewrite E.
  by destruct attempts.
Qed.

(** ** Changes of the root reference *)

(** [Delete] empties a one-node tree although another writer holds the
    root and readers stand on it. *)
Lemma Delete_case0_unprotected : ~ root_change_protected (Delete 3 1) tree_busy_root.
Proof.
  intros H.
  destruct (H (Some 1) (with_count 0 (with_root None tree_busy_root))
              (mkNode red None None None 1 1 true 3 false)) as [Hf _].
  - vm_compute. reflexivity.
  - vm_compute. discriminate.
  - vm_compute. reflexivity.
  - discriminate Hf.
Qed.

(** The fast path of [Delete]: no flag is read or written. *)
Lemma Delete_case0_spec (fuel : nat) (k : Z) (s : state) (d : RBTreeNode) :
  t_count s = 1 ->
  node_at s (t_root s) = Some d ->
  n_key d = k ->
  Delete fuel k s = Ret (Some (n_value d)) (with_count 0 (with_root None s)).
Proof.
  intros Hc Hd Hk. destruct s as [h nx [a|] c l m]; cbn in Hc, Hd; [|done]. subst c.
  unfold Delete. msteps. rewrite Hk, Z.eqb_refl. by msteps.
Qed.

(** [Insert] into an empty tree: a fresh node becomes the root; no flag is
    read or written. *)
Lemma Insert_empty_spec (fuel : nat) (k v : Z) (s : state) :
  t_root s = None ->
  Insert fuel k v s =
    Ret tt (with_root (Some (next s))
             (with_next (S (next s))
               (with_heap (<[next s := mkNode red None None None k v false 0 false]> (heap s)) s))).
Proof.
  intros Hroot. unfold Insert, get_root. rewrite bind_eq, Hroot. reflexivity.
Qed.

(** C7, as the code has it.  The two fast paths change the root
    reference outside the per-node protocol.  [Delete] on a tree whose
    count is 1 and whose root holds the key sets the root to nil and the
    count to 0 whatever the writer flag and the reader count of the root
    are, and leaves the heap alone.  [Insert] into an empty tree makes a
    fresh node the root, with its writer flag clear, and touches no other
    node. *)
Theorem fast_paths_skip_protocol (fuel : nat) (k v : Z) (s : state) (d : RBTreeNode) :
  (t_count s = 1 -> node_at s (t_root s) = Some d -> n_key d = k ->
   exists s', Delete fuel k s = Ret (Some (n_value d)) s' /\
              t_root s' = None /\ t_count s' = 0 /\ heap s' = heap s) /\
  (t_root s = None ->
   exists s', Insert fuel k v s = Ret tt s' /\
              t_root s' = Some (next s) /\ t_count s' = t_count s /\
              heap s' = <[next s := mkNode red None None None k v false 0 false]> (heap s)).
Proof.
  split.
  - intros Hc Hd Hk. eexists. split; [by apply Delete_case0_spec|]. by cbn.
  - intros Hroot. eexists. split; [by apply Insert_empty_spec|]. by cbn.
Qed.

Lemma fast_paths_skip_protocol_witness :
  (exists s', Delete 3 1 tree_busy_root = Ret (Some 1) s' /\
              t_root s' = None /\ t_count s' = 0 /\ heap s' = heap tree_busy_root) /\
  (exists s', Insert 3 1 1 (exec (Delete 3 1) tree_busy_root) = Ret tt s' /\
              t_root s' = Some 1%nat /\ t_count s' = 0 /\
              heap s' = <[1%nat := mkNode red None None None 1 1 false 0 false]>
                          (heap tree_busy_root)).
Proof.
  split.
  - apply (proj1 (fast_paths_skip_protocol 3 1 1 tree_busy_root
                    (mkNode red None None None 1 1 true 3 false))); reflexivity.
  - apply (proj2 (fast_paths_skip_protocol 3 1 1 (exec (Delete 3 1) tree_busy_root)
                    (mkNode red None None None 1 1 true 3 false))); reflexivity.
Defined.


(** ** The first insertion under a red root *)

(** A red root without children turns black when a key other than its
    own is inserted below it. *)
Lemma Insert_below_red_root (fuel : nat) (k v kd vd : Z) (s : state) (a : addr) :
  t_root s = Some a ->
  heap s !! a = Some (mkNode red None None None kd vd false 0 false) ->
  next s <> a ->
  k <> kd ->
  exists s', Insert (S (S fuel)) k v s = Ret tt s' /\
             t_root s' = Some a /\
             exists d', heap s' !! a = Some d' /\ n_c d' = black.
Proof.
  intros Hroot Ha Hfresh Hne.
  destruct s as [h nx rt c l m]. cbn in Hroot, Ha, Hfresh. subst rt.
  assert (E : (kd =? k) = false) by (apply Z.eqb_neq; lia).
  destruct (Z.ltb_spec k kd) as [Hlt|Hge].
  - assert (E2 : (kd <? k) = false) by (apply Z.ltb_ge; lia).
    assert (E3 : (k <? kd) = true) by (apply Z.ltb_lt; lia).
    eexists. split; [mgo_with ltac:(first [rewrite E | rewrite E2 | rewrite E3]); reflexivity|].
    mproj. split; [done|]. eexists. split; [heap_solve|done].
  - assert (E2 : (kd <? k) = true) by (apply Z.ltb_lt; lia).
    assert (E3 : (k <? kd) = false) by (apply Z.ltb_ge; lia).
    eexists. split; [mgo_with ltac:(first [rewrite E | rewrite E2 | rewrite E3]); reflexivity|].
    mproj. split; [done|]. eexists. split; [heap_solve|done].
Qed.

(** C2, as the code has it.  After the constructor and one [Insert] of a
    key other than the constructor's, the root is black.  Later insertions
    can paint it red again: the red-uncle recolouring paints the
    grandparent red and the recursion stops at the root without repainting
    it.  After building keys 2, 1, 3, 0 the root holds key 2 and is red,
    its children 1 and 3 are black and the grandchild 0 is red. *)
Theorem root_black_after_first_insert (fuel : nat) (k0 v0 k v : Z) :
  k <> k0 ->
  (exists s', Insert (S (S fuel)) k v (NewRBTree k0 v0) = Ret tt s' /\ root_black s') /\
  (exists d d1 d3 d0,
      node_at tree_2130 (t_root tree_2130) = Some d /\
      n_key d = 2 /\ n_c d = red /\
      node_at tree_2130 (n_left d) = Some d1 /\ n_key d1 = 1 /\ n_c d1 = black /\
      node_at tree_2130 (n_right d) = Some d3 /\ n_key d3 = 3 /\ n_c d3 = black /\
      node_at tree_2130 (n_left d1) = Some d0 /\ n_key d0 = 0 /\ n_c d0 = red).
Proof.
  intros Hne. split.
  - destruct (Insert_below_red_root fuel k v k0 v0 (NewRBTree k0 v0) 0%nat)
      as (s' & E & Hroot & d' & Hd' & Hblack); try done.
    exists s'. split; [done|]. intros d Hd. rewrite Hroot in Hd. cbn in Hd. congruence.
  - do 4 eexists. vm_compute. repeat split; reflexivity.
Qed.

Lemma root_black_after_first_insert_witness :
  (exists s', Insert 2 1 1 (NewRBTree 2 2) = Ret tt s' /\ root_black s') /\
  (exists d d1 d3 d0,
      node_at tree_2130 (t_root tree_2130) = Some d /\
      n_key d = 2 /\ n_c d = red /\
      node_at tree_2130 (n_left d) = Some d1 /\ n_key d1 = 1 /\ n_c d1 = black /\
      node_at tree_2130 (n_right d) = Some d3 /\ n_key d3 = 3 /\ n_c d3 = black /\
      node_at tree_2130 (n_left d1) = Some d0 /\ n_key d0 = 0 /\ n_c d0 = red).
Proof. apply (root_black_after_first_insert 0 2 2 1 1). lia. Defined.

(** ** The local area of a deletion *)















(** The guard that opens [lockDelete] turns away a focus that is held,
    as every focus handed over by [delete] is. *)
Lemma lockDelete_refuses_held_focus (s : state) (a : addr) (d : RBTreeNode) :
  heap s !! a = Some d -> n_flag d = true -> lockDelete (Some a) s = Ret false s.
Proof.
  intros Ha Hf. unfold lockDelete. by rewrite bind_eq, (islock_spec _ _ _ Ha), Hf.
Qed.

(** ** Search trees in the heap *)

(** From here on record updates are always carried out. *)
Local Arguments with_heap h s /.
Local Arguments with_next x s /.
Local Arguments with_root x s /.
Local Arguments with_count x s /.
Local Arguments with_l x s /.
Local Arguments with_m x s /.
Local Arguments with_c x d /.
Local Arguments with_left x d /.
Local Arguments with_right x d /.
Local Arguments with_parent x d /.
Local Arguments with_key x d /.
Local Arguments with_value x d /.
Local Arguments with_flag x d /.
Local Arguments with_hpflag x d /.
Local Arguments with_marker x d /.

(** [repr] only reads the nodes of the tree. *)
Lemma repr_agree h h' par t :
  (forall a, a ∈ addrs t -> h' !! a = h !! a) -> repr h par t -> repr h' par t.
Proof.
  revert par. induction t as [|a c l IHl k v r IHr]; intros par Hag; [done|].
  cbn [repr]. intros [(d & Ha & Hd) [Hl Hr]]. split; [|split].
  - exists d. split; [|done]. rewrite Hag; [done|]. cbn. by left.
  - apply IHl; [|done]. intros x Hx. apply Hag. cbn. right. apply elem_of_app. by left.
  - apply IHr; [|done]. intros x Hx. apply Hag. cbn. right. apply elem_of_app. by right.
Qed.

Lemma sorted_node a c l k v r :
  StronglySorted kv_lt (kvs (Node a c l k v r)) ->
  StronglySorted kv_lt (kvs l) /\ StronglySorted kv_lt (kvs r) /\
  (forall p, p ∈ kvs l -> p.1 < k) /\ (forall p, p ∈ kvs r -> k < p.1).
Proof.
  cbn [kvs]. intros H. apply StronglySorted_app in H as (Hlr & Hl & Hr).
  apply StronglySorted_cons in Hr as (Hk & Hr). repeat split; [done..| |].
  - intros p Hp. apply (Hlr p (k, v)); [done|by left].
  - intros p Hp. by apply (proj1 (Forall_forall _ _) Hk p).
Qed.

Lemma height_le_size t : (height t <= length (addrs t))%nat.
Proof.
  induction t as [|a c l IHl k v r IHr]; [done|].
  cbn. rewrite length_app. lia.
Qed.

Lemma wrap32_reader_round_trip : wrap32 (wrap32 (0 + 1) + -1) = 0.
Proof. reflexivity. Qed.

(** The descent of [get] through a subtree at rest: it finds the value
    bound to the key and puts every reader count back. *)
Lemma get_found (N : tree) :
  forall (fuel : nat) (par : ptr) (k : Z) (s : state),
    repr (heap s) par N ->
    NoDup (addrs N) ->
    StronglySorted kv_lt (kvs N) ->
    (forall a, a ∈ addrs N ->
       exists d, heap s !! a = Some d /\ n_flag d = false /\ n_hpflag d = 0) ->
    (height N < fuel)%nat ->
    exists r, get fuel (ptr_of N) k s = Ret (r, true) s /\
              (forall v, (k, v) ∈ kvs N -> r = Some v) /\
              (has_key k (kvs N) = false -> r = None).
Proof.
  induction N as [|n c l IHl kn vn r IHr]; intros fuel par k s Hrepr Hnd Hsort Hq Hfuel.
  - destruct fuel as [|fuel]; [cbn in Hfuel; lia|].
    exists None. split; [done|]. split; [|done]. intros v Hv. by apply elem_of_nil in Hv.
  - destruct fuel as [|fuel]; [cbn in Hfuel; lia|]. cbn [height] in Hfuel.
    destruct Hrepr as [(d & Ha & Hc & Hl & Hr & Hp & Hk & Hv) [Hreprl Hreprr]].
    destruct (Hq n) as (d0 & Ha0 & Hflag & Hhp); [cbn; by left|].
    rewrite Ha in Ha0. injection Ha0 as <-.
    destruct (sorted_node _ _ _ _ _ _ Hsort) as (Hsl & Hsr & Hlt & Hgt).
    cbn in Hnd. apply NoDup_cons in Hnd as [Hnotin Hnd].
    apply NoDup_app in Hnd as (Hndl & _ & Hndr).
    destruct s as [h nx rt cnt la ma]. cbn [heap] in *.
    destruct d as [dc dl dr dp dk dv df dh dm]. cbn in Hc, Hl, Hr, Hp, Hk, Hv, Hflag, Hhp.
    subst dc dl dr dp dk dv df dh.
    pose (d1 := mkNode c (ptr_of l) (ptr_of r) par kn vn false (wrap32 (0 + 1)) dm).
    pose (s1 := mkState (<[n := d1]> h) nx rt cnt la ma).
    assert (Hsub : forall t', (forall x, x ∈ addrs t' -> x ∈ addrs l ++ addrs r) ->
              (forall a, a ∈ addrs t' -> heap s1 !! a = h !! a)).
    { intros t' Hin x Hx. cbn. apply lookup_insert_ne. intros ->. apply Hnotin. auto. }
    assert (Hback : <[n := mkNode c (ptr_of l) (ptr_of r) par kn vn false
                             (wrap32 (wrap32 (0 + 1) + -1)) dm]> (<[n := d1]> h) = h).
    { rewrite insert_insert_eq, wrap32_reader_round_trip. by apply insert_id. }
    cbn [get ptr_of].
    destruct (Z.compare_spec k kn) as [Heq|Hklt|Hkgt].
    + exists (Some vn). split.
      * mgo_with ltac:(rewrite (proj2 (Z.compare_eq_iff k kn) Heq)).
        unfold d1 in Hback. rewrite Hback. reflexivity.
      * split.
        -- intros v Hv. subst k. cbn [kvs] in Hv.
           apply elem_of_app in Hv as [Hv|Hv]; [apply Hlt in Hv; cbn in Hv; lia|].
           apply elem_of_cons in Hv as [[= ->]|Hv]; [done|].
           apply Hgt in Hv; cbn in Hv; lia.
        -- subst k. cbn [kvs]. unfold has_key. rewrite existsb_app. cbn [existsb fst].
           rewrite Z.eqb_refl, orb_true_r. done.
    + destruct (IHl fuel (Some n) k s1) as (r0 & E & Hr0 & Hr0').
      * apply (repr_agree h); [|done]. apply Hsub. intros x Hx. apply elem_of_app. by left.
      * done.
      * done.
      * intros x Hx. rewrite (Hsub l); [|intros y Hy; apply elem_of_app; by left|done].
        apply Hq. cbn. right. apply elem_of_app. by left.
      * lia.
      * exists r0. split.
        -- mgo_with ltac:(rewrite (proj2 (Z.compare_lt_iff k kn) Hklt)).
           unfold s1, d1 in E. rewrite E. mgo.
           unfold d1 in Hback. rewrite Hback. reflexivity.
        -- split.
           ++ intros v Hv. apply Hr0. cbn [kvs] in Hv.
              apply elem_of_app in Hv as [Hv|Hv]; [done|].
              apply elem_of_cons in Hv as [[= ->]|Hv]; [lia|].
              apply Hgt in Hv; cbn in Hv; lia.
           ++ cbn [kvs]. unfold has_key. rewrite existsb_app. intros Hk.
              apply orb_false_iff in Hk as [Hk _]. by apply Hr0'.
    + destruct (IHr fuel (Some n) k s1) as (r0 & E & Hr0 & Hr0').
      * apply (repr_agree h); [|done]. apply Hsub. intros x Hx. apply elem_of_app. by right.
      * done.
      * done.
      * intros x Hx. rewrite (Hsub r); [|intros y Hy; apply elem_of_app; by right|done].
        apply Hq. cbn. right. apply elem_of_app. by right.
      * lia.
      * exists r0. split.
        -- mgo_with ltac:(rewrite (proj2 (Z.compare_gt_iff k kn) Hkgt)).
           unfold s1, d1 in E. rewrite E. mgo.
           unfold d1 in Hback. rewrite Hback. reflexivity.
        -- split.
           ++ intros v Hv. apply Hr0. cbn [kvs] in Hv.
              apply elem_of_app in Hv as [Hv|Hv]; [apply Hlt in Hv; cbn in Hv; lia|].
              apply elem_of_cons in Hv as [[= ->]|Hv]; [lia|done].
           ++ cbn [kvs]. unfold has_key. rewrite existsb_app. cbn [existsb]. intros Hk.
              apply orb_false_iff in Hk as [_ Hk]. apply orb_false_iff in Hk as [_ Hk].
              by apply Hr0'.
Qed.

Lemma repr_ctx_agree h h' C hole :
  (forall a, a ∈ addrs_ctx C -> h' !! a = h !! a) -> repr_ctx h C hole -> repr_ctx h' C hole.
Proof.
  revert hole. induction C as [|a c k v r up IH|a c l k v up IH]; intros hole Hag; [done|..];
    cbn [repr_ctx]; intros [(d & Ha & Hd) [Hs Hup]]; (split; [|split]).
  - exists d. split; [|done]. rewrite Hag; [done|]. cbn. by left.
  - apply (repr_agree h); [|done]. intros x Hx. apply Hag. cbn. right.
    apply elem_of_app. by left.
  - apply IH; [|done]. intros x Hx. apply Hag. cbn. right. apply elem_of_app. by right.
  - exists d. split; [|done]. rewrite Hag; [done|]. cbn. by left.
  - apply (repr_agree h); [|done]. intros x Hx. apply Hag. cbn. right.
    apply elem_of_app. by left.
  - apply IH; [|done]. intros x Hx. apply Hag. cbn. right. apply elem_of_app. by right.
Qed.

Lemma repr_ctx_flag_changed h h' C hole :
  heap_rel flag_changed h h' -> repr_ctx h C hole -> repr_ctx h' C hole.
Proof.
  intros H. revert hole.
  induction C as [|a c k v r up IH|a c l k v up IH]; intros hole; [done|..];
    cbn [repr_ctx]; intros [(d & Ha & Hd) [Hs Hup]];
    (split; [|split; [by eapply repr_flag_changed|by apply IH]]);
    destruct (heap_rel_lookup _ _ _ _ _ H Ha) as (d' & Ha' & [b ->]);
    exists (with_flag b d); by destruct d.
Qed.

(** A tree with a subtree singled out is the context of that subtree
    together with the subtree. *)
Lemma repr_plug h C t :
  repr h None (plug C t) <-> repr_ctx h C (ptr_of t) /\ repr h (ctx_parent C) t.
Proof.
  revert t. induction C as [|a c k v r up IH|a c l k v up IH]; intros t; cbn [plug repr_ctx ctx_parent].
  - tauto.
  - rewrite IH. cbn [repr ptr_of]. tauto.
  - rewrite IH. cbn [repr ptr_of]. tauto.
Qed.

Lemma kvs_plug C t : kvs (plug C t) = lkvs C ++ kvs t ++ rkvs C.
Proof.
  revert t. induction C as [|a c k v r up IH|a c l k v up IH]; intros t; cbn [plug lkvs rkvs].
  - by rewrite app_nil_r.
  - rewrite IH. cbn [kvs]. by rewrite <- !app_assoc.
  - rewrite IH. cbn [kvs]. by rewrite <- !app_assoc.
Qed.

Lemma addrs_plug C t : addrs (plug C t) ≡ₚ addrs_ctx C ++ addrs t.
Proof.
  revert t. induction C as [|a c k v r up IH|a c l k v up IH]; intros t; cbn [plug addrs_ctx].
  - done.
  - rewrite IH. cbn [addrs].
    rewrite (Permutation_app_comm (addrs_ctx up)), (Permutation_app_comm (addrs t)).
    cbn. rewrite <- !app_assoc. apply perm_skip. apply Permutation_app_head, Permutation_app_comm.
  - rewrite IH. cbn [addrs].
    rewrite (Permutation_app_comm (addrs_ctx up)).
    cbn. apply perm_skip. rewrite <- !app_assoc.
    apply Permutation_app_head, Permutation_app_comm.
Qed.

Lemma ptr_of_plug C t : ptr_of (plug C t) = ctx_root C (ptr_of t).
Proof.
  revert t. induction C as [|a c k v r up IH|a c l k v up IH]; intros t; cbn [plug ctx_root];
    [done|by rewrite IH..].
Qed.

Lemma ctx_depth_le_size C : (ctx_depth C <= length (addrs_ctx C))%nat.
Proof.
  induction C as [|a c k v r up IH|a c l k v up IH]; cbn; [done|rewrite length_app; lia..].
Qed.

Lemma repr_allocated h par t : repr h par t -> allocated h (ptr_of t).
Proof. destruct t; [done|]. intros [(d & Ha & _) _]. by exists d. Qed.

(** ** Releasing the local area *)

Lemma for_each_unlock (L : list ptr) :
  forall s,
    (forall p, p ∈ L -> exists a, p = Some a /\ is_Some (heap s !! a)) ->
    exists s', for_each L (fun x => ignore (unlock x)) s = Ret tt s' /\
               same_frame s s' /\
               heap_rel flag_cleared (heap s) (heap s') /\
               (forall a d, Some a ∈ L -> heap s' !! a = Some d -> n_flag d = false).
Proof.
  induction L as [|p L IH]; intros s Hall.
  - exists s. split; [done|]. split; [apply same_frame_refl|].
    split; [apply heap_rel_refl, flag_cleared_refl|].
    intros a d Ha. by apply elem_of_nil in Ha.
  - destruct (Hall p) as (a & -> & [d Ha]); [by left|].
    destruct (unlock_cleared _ _ _ Ha) as (b & s1 & E1 & Hf1 & Hr1 & Ha1).
    destruct (IH s1) as (s' & E & Hf & Hr & Hfl).
    { intros q Hq. destruct (Hall q) as (c & -> & [dc Hc]); [by right|].
      exists c. split; [done|].
      destruct (heap_rel_lookup _ _ _ _ _ Hr1 Hc) as (dc' & Hc' & _). by exists dc'. }
    exists s'. split.
    { cbn [for_each]. unfold ignore. rewrite !bind_eq, E1. cbn [ret]. exact E. }
    split; [by eapply same_frame_trans|].
    split; [eapply heap_rel_trans; [apply flag_cleared_trans|done..]|].
    intros c dc Hc Hdc. apply elem_of_cons in Hc as [[= ->]|Hc]; [|by eapply Hfl].
    destruct (heap_rel_lookup _ _ _ _ _ Hr Ha1) as (d' & Hd' & Hcl).
    rewrite Hdc in Hd'. injection Hd' as <-.
    destruct Hcl as [->| ->]; by destruct d.
Qed.

(** [unlockArea] releases every member of the area and empties it. *)
Lemma unlockArea_spec (s : state) :
  (forall p, p ∈ area_l s -> exists a, p = Some a /\ is_Some (heap s !! a)) ->
  exists s', unlockArea s = Ret tt s' /\
             area_l s' = [] /\ next s' = next s /\ t_root s' = t_root s /\
             t_count s' = t_count s /\ area_m s' = area_m s /\
             heap_rel flag_cleared (heap s) (heap s') /\
             (forall a d, Some a ∈ area_l s -> heap s' !! a = Some d -> n_flag d = false).
Proof.
  intros Hall. destruct (for_each_unlock (area_l s) s Hall) as (s1 & E & Hf & Hr & Hfl).
  exists (with_l [] s1). unfold unlockArea, get_l, set_l, modify.
  rewrite bind_eq. rewrite bind_eq, E.
  destruct Hf as (? & ? & ? & ? & ?). by destruct s1.
Qed.

(** After [unlockArea] a heap whose held flags all belong to the area is
    at rest. *)
Lemma quiescent_after_unlockArea (s s' : state) :
  sync_ok (heap s) (area_l s) ->
  heap_rel flag_cleared (heap s) (heap s') ->
  (forall a d, Some a ∈ area_l s -> heap s' !! a = Some d -> n_flag d = false) ->
  quiescent s'.
Proof.
  intros Hsync Hr Hfl a d' Ha'.
  destruct (heap_rel_lookup_inv _ _ _ _ _ Hr Ha') as (d & Ha & Hcl).
  destruct (Hsync a d Ha) as (Hh & Hm & Hf).
  assert (Hh' : n_hpflag d' = 0 /\ n_marker d' = false)
    by (destruct Hcl as [->| ->]; by destruct d).
  split; [|done].
  destruct (n_flag d') eqn:Hfd; [|done].
  rewrite <- Hfd. apply (Hfl a d'); [|done]. apply Hf.
  destruct Hcl as [->| ->]; [done|by destruct d].
Qed.

Lemma NoDup_app_forall {A} (l k : list A) :
  NoDup (l ++ k) <-> NoDup l /\ Forall (fun x => x ∉ l) k /\ NoDup k.
Proof.
  rewrite NoDup_app, Forall_forall. split; intros (H1 & H2 & H3); (split; [done|split; [|done]]).
  - intros x Hk Hl. by apply (H2 x).
  - intros x Hl Hk. by apply (H2 x).
Qed.

Lemma heap_rel_insert_both (R : RBTreeNode -> RBTreeNode -> Prop) h h1 a d d' :
  heap_rel R h h1 -> h !! a = Some d -> R d d' -> heap_rel R h (<[a := d']> h1).
Proof.
  intros H Ha HR b. destruct (decide (a = b)) as [<-|Hne].
  - rewrite lookup_insert_eq, Ha. by constructor.
  - rewrite lookup_insert_ne by done. apply H.
Qed.

Lemma sync_ok_same h h' L :
  heap_rel sync_same h h' -> sync_ok h L -> sync_ok h' L.
Proof.
  intros H Hs a d' Ha'.
  destruct (heap_rel_lookup_inv _ _ _ _ _ H Ha') as (d & Ha & Hf & Hh & Hm).
  destruct (Hs a d Ha) as (? & ? & ?). rewrite Hf, Hh, Hm. done.
Qed.

Lemma heap_rel_dom (R : RBTreeNode -> RBTreeNode -> Prop) h h' a :
  heap_rel R h h' -> is_Some (h !! a) <-> is_Some (h' !! a).
Proof.
  intros H. specialize (H a). inversion H; split; intros [? ?]; (done || by eexists || congruence).
Qed.

Lemma area_allocated_rel (R : RBTreeNode -> RBTreeNode -> Prop) s s' :
  heap_rel R (heap s) (heap s') -> area_l s' = area_l s ->
  area_allocated s -> area_allocated s'.
Proof.
  intros H El Ha p Hp. rewrite El in Hp. destruct (Ha p Hp) as (a & -> & Hs).
  exists a. split; [done|]. by apply (heap_rel_dom _ _ _ _ H).
Qed.

Lemma area_allocated_heap h h' nx nx' rt rt' cnt cnt' la ma ma' :
  area_allocated (mkState h nx rt cnt la ma) ->
  heap_rel (fun _ _ => True) h h' ->
  area_allocated (mkState h' nx' rt' cnt' la ma').
Proof.
  intros Ha H.
  exact (area_allocated_rel _ (mkState h nx rt cnt la ma) (mkState h' nx' rt' cnt' la ma')
           H eq_refl Ha).
Qed.

(** Break the distinctness of a list of addresses into its atoms. *)
Ltac nodup_atoms :=
  repeat match goal with
  | H : NoDup (_ :: _) |- _ => apply NoDup_cons in H as [? H]
  | H : NoDup (_ ++ _) |- _ => apply NoDup_app_forall in H as (? & ? & ?)
  | H : NoDup [] |- _ => clear H
  | H : _ ∉ _ ++ _ |- _ => apply not_elem_of_app in H as [? ?]
  | H : _ ∉ _ :: _ |- _ => apply not_elem_of_cons in H as [? ?]
  | H : _ ∉ [] |- _ => clear H
  | H : Forall _ (_ ++ _) |- _ => apply Forall_app in H as [? ?]
  | H : Forall _ (_ :: _) |- _ => apply Forall_cons in H as [? ?]
  | H : Forall _ [] |- _ => clear H
  | H : (fun _ => _) _ |- _ => cbv beta in H
  end.

Ltac node_fields :=
  cbn [n_c n_left n_right n_parent n_key n_value n_flag n_hpflag n_marker] in *.

(** Name the node behind a [repr] fact and read its fields. *)
Ltac open_node H :=
  let d := fresh "d" in
  let Hd := fresh "Hd" in
  destruct H as (d & Hd & ? & ? & ? & ? & ? & ?);
  match goal with
  | Hsync : sync_ok _ _ |- _ =>
    let Hs := fresh in
    pose proof (Hsync _ _ Hd) as Hs; destruct Hs as (? & ? & ?)
  end;
  destruct d; node_fields; subst.


Lemma ptr_of_ne (t : tree) (x : addr) : x ∉ addrs t -> ptr_of t <> Some x.
Proof. destruct t; [done|]. cbn. intros H [= ->]. apply H. by left. Qed.

(** [dir] by cases. *)
Lemma dir_root_eq s x dx :
  heap s !! x = Some dx -> n_parent dx = None -> dir (Some x) s = Ret dir_root s.
Proof. intros Hx Hp. unfold dir, parent_of, load. cbn. by rewrite Hx, Hp. Qed.

Lemma dir_left_eq s x dx p dp :
  heap s !! x = Some dx -> n_parent dx = Some p ->
  heap s !! p = Some dp -> n_left dp = Some x ->
  dir (Some x) s = Ret dir_left s.
Proof.
  intros Hx Hp Hpd Hl. unfold dir, parent_of, left_of, load. cbn.
  rewrite Hx, Hp. cbn. rewrite Hpd, Hl. cbn. by rewrite Nat.eqb_refl.
Qed.

Lemma dir_right_eq s x dx p dp :
  heap s !! x = Some dx -> n_parent dx = Some p ->
  heap s !! p = Some dp -> n_left dp <> Some x ->
  dir (Some x) s = Ret dir_right s.
Proof.
  intros Hx Hp Hpd Hl. unfold dir, parent_of, left_of, load. cbn.
  rewrite Hx, Hp. cbn. rewrite Hpd.
  destruct (n_left dp) as [y|]; cbn; [|done].
  destruct (Nat.eqb_spec y x) as [->|]; [done|done].
Qed.

(** [isRed] by cases. *)
Lemma isRed_nil s : isRed None s = Ret false s.
Proof. done. Qed.

Lemma isRed_node s u du :
  heap s !! u = Some du -> isRed (Some u) s = Ret (color_eqb (n_c du) red) s.
Proof. intros Hu. unfold isRed, c_of, load. cbn. by rewrite Hu. Qed.

Lemma isRed_tree s par U :
  repr (heap s) par U -> isRed (ptr_of U) s = Ret (red_root U) s.
Proof.
  destruct U as [|u c l k v r]; [done|]. cbn [repr ptr_of].
  intros [(d & Hd & Hc & _) _]. rewrite (isRed_node _ _ _ Hd), Hc. by destruct c.
Qed.

Ltac addr_ne := solve [assumption | apply not_eq_sym; assumption].

Ltac heap_lookup2 :=
  match goal with
  | |- context [ <[?a := ?x]> ?h !! ?a ] => rewrite (lookup_insert_eq h a x)
  | |- context [ <[?a := ?x]> ?h !! ?b ] => rewrite (lookup_insert_ne h a b x) by addr_ne
  | H : ?h !! ?a = _ |- context [ ?h !! ?a ] => rewrite H
  end.

Ltac addr_eqb2 :=
  match goal with
  | |- context [ Nat.eqb ?a ?a ] => rewrite (Nat.eqb_refl a)
  | |- context [ Nat.eqb ?a ?b ] => rewrite (proj2 (Nat.eqb_neq a b)) by addr_ne
  end.

Ltac ptr_ne :=
  mproj;
  first [ discriminate
        | apply ptr_of_ne; assumption
        | let E := fresh in
          intros E; injection E as E;
          match goal with
          | H : ?a <> ?b |- _ => exact (H E)
          | H : ?b <> ?a |- _ => exact (H (eq_sym E))
          end ].

Ltac lookup_side := mproj; repeat heap_lookup2; reflexivity.

Ltac dir_step :=
  match goal with
  | |- context [dir (Some ?x) ?s] =>
    first [ erewrite (dir_left_eq s x) by first [lookup_side | reflexivity]
          | erewrite (dir_right_eq s x) by first [lookup_side | reflexivity | ptr_ne]
          | erewrite (dir_root_eq s x) by first [lookup_side | reflexivity] ]
  end.

Ltac isRed_step :=
  match goal with
  | |- context [isRed None ?s] => rewrite (isRed_nil s)
  | |- context [isRed (Some ?u) ?s] => erewrite (isRed_node s u) by lookup_side
  | |- context [isRed (ptr_of ?U) ?s] => erewrite (isRed_tree s _ U) by eassumption
  end.

Ltac hhnf :=
  with_strategy opaque [base.lookup base.insert Z.eqb Z.ltb Z.compare Nat.eqb Z.add wrap
                        get insert delete maintainAfterInsert maintainAfterDelete
                        Insert_loop Delete_loop Get_loop leftmost spin mark_chain
                        dir isRed red_root lockInsert unlockArea rotateLeft rotateRight]
    (lazymatch goal with
     | |- ?L = ?R => let L' := eval lazy head in L in change (L' = R)
     end).

Ltac hproj :=
  cbn [heap next t_root t_count area_l area_m
       with_heap with_next with_root with_count with_l with_m fst snd
       n_c n_left n_right n_parent n_key n_value n_flag n_hpflag n_marker
       with_c with_left with_right with_parent with_key with_value with_flag
       with_hpflag with_marker app ptr_of].

Ltac hgo_with tac :=
  repeat (hhnf; hproj;
          try first [ heap_lookup2 | addr_eqb2 | rewrite Z.ltb_irrefl | dir_step | isRed_step | tac | mfix ]).
Ltac hgo := hgo_with fail.

Ltac list_norm := repeat first [ rewrite <- app_assoc | progress cbn [app] ].

(** The nodes a frame argument leaves alone. *)
Ltac frame_lookup :=
  let a := fresh "a" in
  let Ha := fresh "Ha" in
  intros a Ha; hproj;
  repeat (rewrite lookup_insert_ne by (intros ->; contradiction));
  reflexivity.

Ltac rel_chain :=
  repeat (eapply heap_rel_insert_both;
          [ | eassumption | first [ exact I | by repeat split ] ]);
  apply heap_rel_refl; first [ intros; exact I | intros; by repeat split ].

Ltac repr_leaf :=
  lazymatch goal with
  | |- True => exact I
  | |- _ /\ _ => split; repr_leaf
  | |- ex _ => eexists; split; [hproj; repeat heap_lookup2; reflexivity | by repeat split]
  | |- repr ?h' ?par ?t =>
    match goal with
    | H : repr ?h0 par t |- _ => apply (repr_agree h0 h' par t); [frame_lookup | exact H]
    end
  | |- repr_ctx ?h' ?C ?hole =>
    match goal with
    | H : repr_ctx ?h0 C hole |- _ =>
      apply (repr_ctx_agree h0 h' C hole); [frame_lookup | exact H]
    end
  end.

Ltac repr_goal := cbn [repr repr_ctx ptr_of ctx_parent]; repr_leaf.

Ltac elem_here := by repeat first [apply list_elem_of_here | apply list_elem_of_further].


(** Unfold every [repr] fact about an explicit node. *)
Ltac open_all :=
  cbn [repr repr_ctx ptr_of ctx_parent] in *;
  repeat match goal with
  | H : _ /\ _ |- _ => destruct H
  | H : exists d, _ !! _ = Some d /\ _ |- _ => open_node H
  | H : repr _ _ Leaf |- _ => clear H
  | H : repr_ctx _ Top _ |- _ => clear H
  | H : True |- _ => clear H
  end.

Ltac known_flags Hfree b :=
  repeat match goal with
  | Hd : _ !! ?a = Some (mkNode _ _ _ _ _ _ ?f _ _) |- _ =>
    is_var f;
    let E := fresh in
    assert (E : f = b) by (apply (Hfree a _ ltac:(elem_here) Hd));
    subst f
  end.

Ltac flag_chain :=
  repeat (eapply heap_rel_insert_both;
          [ | eassumption | by eexists ]);
  apply heap_rel_refl, flag_changed_refl.

Ltac elem_cases H :=
  repeat (apply elem_of_cons in H as [->|H]); try (by apply elem_of_nil in H).

Ltac lockInsert_case Hfree :=
  cbn [ctx_local root_list app addrs addrs_ctx] in *;
  open_all;
  known_flags Hfree false;
  repeat match goal with H : NoDup _ |- _ => rewrite <- ?app_assoc in H; cbn [app] in H end;
  nodup_atoms;
  eexists; split; [unfold lockInsert, lock_unmarked, uncle, sibling; hgo; reflexivity|];
  hproj; cbn [fmap list_fmap];
  split; [by list_norm|];
  split; [flag_chain|];
  split; [let a := fresh "a" in let d := fresh "d" in let Ha := fresh "Ha" in
          intros a d Ha; elem_cases Ha; repeat heap_lookup2; by intros [= <-]|];
  split; [let a := fresh "a" in let Ha := fresh "Ha" in
          intros a Ha; nodup_atoms; repeat heap_lookup2; reflexivity|];
  done.

(** [lockInsert] on a held node whose surroundings are free takes the
    parent, the sibling, the grandparent and the uncle. *)
Lemma lockInsert_ok (C : ctx) (X : tree) (s : state) (x : addr) :
  ptr_of X = Some x ->
  repr_ctx (heap s) C (Some x) ->
  repr (heap s) (ctx_parent C) X ->
  NoDup (addrs_ctx C ++ addrs X) ->
  sync_ok (heap s) (area_l s ++ [Some x]) ->
  (forall d, heap s !! x = Some d -> n_flag d = true) ->
  (forall a d, a ∈ ctx_local C -> heap s !! a = Some d -> n_flag d = false) ->
  exists s',
    lockInsert (Some x) s = Ret true s' /\
    area_l s' = area_l s ++ Some x :: (Some <$> ctx_local C) /\
    heap_rel flag_changed (heap s) (heap s') /\
    (forall a d, a ∈ ctx_local C -> heap s' !! a = Some d -> n_flag d = true) /\
    (forall a, a ∉ ctx_local C -> heap s' !! a = heap s !! a) /\
    next s' = next s /\ t_root s' = t_root s /\ t_count s' = t_count s /\
    area_m s' = area_m s.
Proof.
  intros HX Hctx Hrepr Hnd Hsync Hheld Hfree.
  destruct X as [|x0 cx XL kx vx XR]; [done|]. injection HX as ->.
  destruct s as [h nx rt cnt la ma]. cbn [heap area_l next t_root t_count area_m] in *.
  destruct Hrepr as (Hx & _ & _).
  open_node Hx.
  match goal with H : h !! x = Some _ |- _ => pose proof (Hheld _ H) as Hf; cbn in Hf; subst end.
  clear Hheld.
  destruct C as [|p cp kp vp S up|p cp S kp vp up]; [lockInsert_case Hfree|..];
    (destruct S as [|s cs SL ks vs SR]);
    (destruct up as [|g cg kg vg U up|g cg U kg vg up]; [lockInsert_case Hfree|..]);
    (destruct U as [|u cu UL ku vu UR]); lockInsert_case Hfree.
Qed.

Ltac sync_chain :=
  repeat (eapply heap_rel_insert_both; [ | eassumption | by repeat split ]);
  apply heap_rel_refl; intros; by repeat split.

Ltac rotate_case :=
  cbn [addrs addrs_ctx app ctx_root] in *;
  open_all;
  repeat match goal with H : NoDup _ |- _ => rewrite <- ?app_assoc in H; cbn [app] in H end;
  nodup_atoms;
  eexists; split; [unfold rotateLeft, rotateRight; hgo; reflexivity|];
  hproj; cbn [ctx_root];
  split; [done|];
  split; [repr_goal|];
  split; [repr_goal|];
  split; [sync_chain|];
  done.

(** A right rotation at a node of the tree. *)
Lemma rotateRight_ok (C : ctx) n cn m cm A km vm B kn vn D (s : state) L :
  t_root s = ctx_root C (Some n) ->
  repr_ctx (heap s) C (Some n) ->
  repr (heap s) (ctx_parent C) (Node n cn (Node m cm A km vm B) kn vn D) ->
  NoDup (addrs_ctx C ++ addrs (Node n cn (Node m cm A km vm B) kn vn D)) ->
  sync_ok (heap s) L ->
  exists s',
    rotateRight (Some n) s = Ret tt s' /\
    t_root s' = ctx_root C (Some m) /\
    repr_ctx (heap s') C (Some m) /\
    repr (heap s') (ctx_parent C) (Node m cm A km vm (Node n cn B kn vn D)) /\
    heap_rel sync_same (heap s) (heap s') /\
    next s' = next s /\ t_count s' = t_count s /\
    area_l s' = area_l s /\ area_m s' = area_m s.
Proof.
  intros Hrt Hctx Hrepr Hnd Hsync.
  destruct s as [h nx rt cnt la ma]. cbn [heap area_l next t_root t_count area_m] in *.
  destruct B as [|b cb BL kb vb BR], C as [|p cp kp vp S up|p cp S kp vp up].
  all: rotate_case.
Qed.

(** A left rotation at a node of the tree. *)
Lemma rotateLeft_ok (C : ctx) n cn m cm A kn vn B km vm D (s : state) L :
  t_root s = ctx_root C (Some n) ->
  repr_ctx (heap s) C (Some n) ->
  repr (heap s) (ctx_parent C) (Node n cn A kn vn (Node m cm B km vm D)) ->
  NoDup (addrs_ctx C ++ addrs (Node n cn A kn vn (Node m cm B km vm D))) ->
  sync_ok (heap s) L ->
  exists s',
    rotateLeft (Some n) s = Ret tt s' /\
    t_root s' = ctx_root C (Some m) /\
    repr_ctx (heap s') C (Some m) /\
    repr (heap s') (ctx_parent C) (Node m cm (Node n cn A kn vn B) km vm D) /\
    heap_rel sync_same (heap s) (heap s') /\
    next s' = next s /\ t_count s' = t_count s /\
    area_l s' = area_l s /\ area_m s' = area_m s.
Proof.
  intros Hrt Hctx Hrepr Hnd Hsync.
  destruct s as [h nx rt cnt la ma]. cbn [heap area_l next t_root t_count area_m] in *.
  destruct B as [|b cb BL kb vb BR], C as [|p cp kp vp S up|p cp S kp vp up].
  all: rotate_case.
Qed.

(** ** Rebalancing keeps the search tree *)

Lemma NoDup_plug C t : NoDup (addrs (plug C t)) <-> NoDup (addrs_ctx C ++ addrs t).
Proof. by rewrite addrs_plug. Qed.

Lemma heap_rel_any (R : RBTreeNode -> RBTreeNode -> Prop) h h' :
  heap_rel R h h' -> heap_rel (fun _ _ => True) h h'.
Proof. by apply heap_rel_mono. Qed.

Lemma heap_rel_any_trans h1 h2 h3 :
  heap_rel (fun _ _ => True) h1 h2 -> heap_rel (fun _ _ => True) h2 h3 ->
  heap_rel (fun _ _ => True) h1 h3.
Proof. by apply heap_rel_trans. Qed.

(** The rotations in terms of the whole tree. *)
Lemma rotateRight_plug (C : ctx) n cn m cm A km vm B kn vn D (s : state) :
  t_root s = ptr_of (plug C (Node n cn (Node m cm A km vm B) kn vn D)) ->
  repr (heap s) None (plug C (Node n cn (Node m cm A km vm B) kn vn D)) ->
  NoDup (addrs (plug C (Node n cn (Node m cm A km vm B) kn vn D))) ->
  sync_ok (heap s) (area_l s) ->
  exists s',
    rotateRight (Some n) s = Ret tt s' /\
    t_root s' = ptr_of (plug C (Node m cm A km vm (Node n cn B kn vn D))) /\
    repr (heap s') None (plug C (Node m cm A km vm (Node n cn B kn vn D))) /\
    NoDup (addrs (plug C (Node m cm A km vm (Node n cn B kn vn D)))) /\
    sync_ok (heap s') (area_l s') /\
    heap_rel sync_same (heap s) (heap s') /\
    next s' = next s /\ t_count s' = t_count s /\
    area_l s' = area_l s /\ area_m s' = area_m s.
Proof.
  intros Hrt Hrepr Hnd Hsync.
  rewrite ptr_of_plug in Hrt. apply repr_plug in Hrepr as [Hctx Hrepr].
  apply NoDup_plug in Hnd.
  destruct (rotateRight_ok C n cn m cm A km vm B kn vn D s (area_l s) Hrt Hctx Hrepr Hnd Hsync)
    as (s' & E & Hrt' & Hctx' & Hrepr' & Hrel & Hn & Hc & Hl & Hm).
  exists s'. split; [done|]. rewrite ptr_of_plug. split; [done|].
  split; [by apply repr_plug|].
  split.
  { apply NoDup_plug. revert Hnd. apply NoDup_Permutation_proper.
    cbn [addrs]. solve_Permutation. }
  split; [rewrite Hl; by eapply sync_ok_same|]. done.
Qed.

Lemma rotateLeft_plug (C : ctx) n cn m cm A kn vn B km vm D (s : state) :
  t_root s = ptr_of (plug C (Node n cn A kn vn (Node m cm B km vm D))) ->
  repr (heap s) None (plug C (Node n cn A kn vn (Node m cm B km vm D))) ->
  NoDup (addrs (plug C (Node n cn A kn vn (Node m cm B km vm D)))) ->
  sync_ok (heap s) (area_l s) ->
  exists s',
    rotateLeft (Some n) s = Ret tt s' /\
    t_root s' = ptr_of (plug C (Node m cm (Node n cn A kn vn B) km vm D)) /\
    repr (heap s') None (plug C (Node m cm (Node n cn A kn vn B) km vm D)) /\
    NoDup (addrs (plug C (Node m cm (Node n cn A kn vn B) km vm D))) /\
    sync_ok (heap s') (area_l s') /\
    heap_rel sync_same (heap s) (heap s') /\
    next s' = next s /\ t_count s' = t_count s /\
    area_l s' = area_l s /\ area_m s' = area_m s.
Proof.
  intros Hrt Hrepr Hnd Hsync.
  rewrite ptr_of_plug in Hrt. apply repr_plug in Hrepr as [Hctx Hrepr].
  apply NoDup_plug in Hnd.
  destruct (rotateLeft_ok C n cn m cm A kn vn B km vm D s (area_l s) Hrt Hctx Hrepr Hnd Hsync)
    as (s' & E & Hrt' & Hctx' & Hrepr' & Hrel & Hn & Hc & Hl & Hm).
  exists s'. split; [done|]. rewrite ptr_of_plug. split; [done|].
  split; [by apply repr_plug|].
  split.
  { apply NoDup_plug. revert Hnd. apply NoDup_Permutation_proper.
    cbn [addrs]. solve_Permutation. }
  split; [rewrite Hl; by eapply sync_ok_same|]. done.
Qed.

Ltac open_tree H :=
  let Hc := fresh "Hctx" in
  let Hr := fresh "Hrepr" in
  apply repr_plug in H as [Hc Hr].

Ltac open_nodup H :=
  apply NoDup_plug in H; cbn [addrs addrs_ctx app] in H;
  rewrite <- ?app_assoc in H; cbn [app] in H; nodup_atoms.

Ltac any_chain :=
  first [ rel_chain
        | eapply heap_rel_any_trans; [eapply heap_rel_any; eassumption | any_chain] ].

(** The tail of a postcondition: the synchronisation words, the area,
    the domain of the heap and the untouched fields. *)
Ltac post_tail h1 :=
  split; [apply (sync_ok_same h1); [sync_chain|done]|];
  split; [eapply area_allocated_heap; [eassumption|any_chain]|];
  split; [any_chain|done].

(** The four cases of [maintainAfterInsert] that rotate: the parent is
    red, the uncle is not. *)
Lemma maintain_straight_left fuel x XL kx vx XR p kp vp Sb g cg kg vg U up (s : state) :
  red_root U = false ->
  t_root s = ptr_of (plug up (Node g cg (Node p red (Node x red XL kx vx XR) kp vp Sb) kg vg U)) ->
  repr (heap s) None (plug up (Node g cg (Node p red (Node x red XL kx vx XR) kp vp Sb) kg vg U)) ->
  NoDup (addrs (plug up (Node g cg (Node p red (Node x red XL kx vx XR) kp vp Sb) kg vg U))) ->
  sync_ok (heap s) (area_l s) ->
  area_allocated s ->
  exists s',
    maintainAfterInsert (S fuel) (Some x) s = Ret true s' /\
    t_root s' = ptr_of (plug up (Node p black (Node x red XL kx vx XR) kp vp (Node g red Sb kg vg U))) /\
    repr (heap s') None (plug up (Node p black (Node x red XL kx vx XR) kp vp (Node g red Sb kg vg U))) /\
    sync_ok (heap s') (area_l s') /\
    area_allocated s' /\
    heap_rel (fun _ _ => True) (heap s) (heap s') /\
    next s' = next s /\ t_count s' = t_count s /\ area_m s' = area_m s.
Proof.
  intros HU Hrt Hrepr Hnd Hsync Hal.
  destruct (rotateRight_plug _ _ _ _ _ _ _ _ _ _ _ _ s Hrt Hrepr Hnd Hsync)
    as (s1 & Erot & Hrt1 & Hrepr1 & Hnd1 & Hsync1 & Hrel1 & Hn1 & Hc1 & Hl1 & Hm1).
  destruct s as [h nx rt cnt la ma], s1 as [h1 nx1 rt1 cnt1 la1 ma1].
  cbn [heap area_l next t_root t_count area_m] in *. subst nx1 cnt1 la1 ma1.
  clear Hnd1.
  open_tree Hrepr. open_tree Hrepr1. open_all.
  open_nodup Hnd.
  eexists. split.
  { cbn [maintainAfterInsert]. hgo_with ltac:(first [rewrite HU | rewrite Erot]). reflexivity. }
  hproj.
  split; [by rewrite !ptr_of_plug|].
  split; [apply repr_plug; split; repr_goal|].
  post_tail h1.
Qed.

Lemma maintain_straight_right fuel x XL kx vx XR p kp vp Sb g cg kg vg U up (s : state) :
  red_root U = false ->
  t_root s = ptr_of (plug up (Node g cg U kg vg (Node p red Sb kp vp (Node x red XL kx vx XR)))) ->
  repr (heap s) None (plug up (Node g cg U kg vg (Node p red Sb kp vp (Node x red XL kx vx XR)))) ->
  NoDup (addrs (plug up (Node g cg U kg vg (Node p red Sb kp vp (Node x red XL kx vx XR))))) ->
  sync_ok (heap s) (area_l s) ->
  area_allocated s ->
  exists s',
    maintainAfterInsert (S fuel) (Some x) s = Ret true s' /\
    t_root s' = ptr_of (plug up (Node p black (Node g red U kg vg Sb) kp vp (Node x red XL kx vx XR))) /\
    repr (heap s') None (plug up (Node p black (Node g red U kg vg Sb) kp vp (Node x red XL kx vx XR))) /\
    sync_ok (heap s') (area_l s') /\
    area_allocated s' /\
    heap_rel (fun _ _ => True) (heap s) (heap s') /\
    next s' = next s /\ t_count s' = t_count s /\ area_m s' = area_m s.
Proof.
  intros HU Hrt Hrepr Hnd Hsync Hal.
  destruct (rotateLeft_plug _ _ _ _ _ _ _ _ _ _ _ _ s Hrt Hrepr Hnd Hsync)
    as (s1 & Erot & Hrt1 & Hrepr1 & Hnd1 & Hsync1 & Hrel1 & Hn1 & Hc1 & Hl1 & Hm1).
  destruct s as [h nx rt cnt la ma], s1 as [h1 nx1 rt1 cnt1 la1 ma1].
  cbn [heap area_l next t_root t_count area_m] in *. subst nx1 cnt1 la1 ma1.
  clear Hnd1.
  open_tree Hrepr. open_tree Hrepr1. open_all.
  open_nodup Hnd.
  eexists. split.
  { cbn [maintainAfterInsert]. hgo_with ltac:(first [rewrite HU | rewrite Erot]). reflexivity. }
  hproj.
  split; [by rewrite !ptr_of_plug|].
  split; [apply repr_plug; split; repr_goal|].
  post_tail h1.
Qed.

Lemma maintain_bent_left fuel x XL kx vx XR p kp vp Sb g cg kg vg U up (s : state) :
  red_root U = false ->
  t_root s = ptr_of (plug up (Node g cg (Node p red Sb kp vp (Node x red XL kx vx XR)) kg vg U)) ->
  repr (heap s) None (plug up (Node g cg (Node p red Sb kp vp (Node x red XL kx vx XR)) kg vg U)) ->
  NoDup (addrs (plug up (Node g cg (Node p red Sb kp vp (Node x red XL kx vx XR)) kg vg U))) ->
  sync_ok (heap s) (area_l s) ->
  area_allocated s ->
  exists s',
    maintainAfterInsert (S fuel) (Some x) s = Ret true s' /\
    t_root s' = ptr_of (plug up (Node x black (Node p red Sb kp vp XL) kx vx (Node g red XR kg vg U))) /\
    repr (heap s') None (plug up (Node x black (Node p red Sb kp vp XL) kx vx (Node g red XR kg vg U))) /\
    sync_ok (heap s') (area_l s') /\
    area_allocated s' /\
    heap_rel (fun _ _ => True) (heap s) (heap s') /\
    next s' = next s /\ t_count s' = t_count s /\ area_m s' = area_m s.
Proof.
  intros HU Hrt Hrepr Hnd Hsync Hal.
  destruct (rotateLeft_plug (InL g cg kg vg U up) _ _ _ _ _ _ _ _ _ _ _ s Hrt Hrepr Hnd Hsync)
    as (s1 & Erot1 & Hrt1 & Hrepr1 & Hnd1 & Hsync1 & Hrel1 & Hn1 & Hc1 & Hl1 & Hm1).
  cbn [plug] in Hrt1, Hrepr1, Hnd1.
  destruct (rotateRight_plug _ _ _ _ _ _ _ _ _ _ _ _ s1 Hrt1 Hrepr1 Hnd1 Hsync1)
    as (s2 & Erot2 & Hrt2 & Hrepr2 & Hnd2 & Hsync2 & Hrel2 & Hn2 & Hc2 & Hl2 & Hm2).
  destruct s as [h nx rt cnt la ma], s1 as [h1 nx1 rt1 cnt1 la1 ma1],
    s2 as [h2 nx2 rt2 cnt2 la2 ma2].
  cbn [heap area_l next t_root t_count area_m] in *. subst nx2 cnt2 la2 ma2 nx1 cnt1 la1 ma1.
  clear Hnd1 Hnd2.
  open_tree Hrepr. open_tree Hrepr1. open_tree Hrepr2. open_all.
  open_nodup Hnd.
  eexists. split.
  { cbn [maintainAfterInsert].
    hgo_with ltac:(first [rewrite HU | rewrite Erot1 | rewrite Erot2]). reflexivity. }
  hproj.
  split; [by rewrite !ptr_of_plug|].
  split; [apply repr_plug; split; repr_goal|].
  post_tail h2.
Qed.

Lemma maintain_bent_right fuel x XL kx vx XR p kp vp Sb g cg kg vg U up (s : state) :
  red_root U = false ->
  t_root s = ptr_of (plug up (Node g cg U kg vg (Node p red (Node x red XL kx vx XR) kp vp Sb))) ->
  repr (heap s) None (plug up (Node g cg U kg vg (Node p red (Node x red XL kx vx XR) kp vp Sb))) ->
  NoDup (addrs (plug up (Node g cg U kg vg (Node p red (Node x red XL kx vx XR) kp vp Sb)))) ->
  sync_ok (heap s) (area_l s) ->
  area_allocated s ->
  exists s',
    maintainAfterInsert (S fuel) (Some x) s = Ret true s' /\
    t_root s' = ptr_of (plug up (Node x black (Node g red U kg vg XL) kx vx (Node p red XR kp vp Sb))) /\
    repr (heap s') None (plug up (Node x black (Node g red U kg vg XL) kx vx (Node p red XR kp vp Sb))) /\
    sync_ok (heap s') (area_l s') /\
    area_allocated s' /\
    heap_rel (fun _ _ => True) (heap s) (heap s') /\
    next s' = next s /\ t_count s' = t_count s /\ area_m s' = area_m s.
Proof.
  intros HU Hrt Hrepr Hnd Hsync Hal.
  destruct (rotateRight_plug (InR g cg U kg vg up) _ _ _ _ _ _ _ _ _ _ _ s Hrt Hrepr Hnd Hsync)
    as (s1 & Erot1 & Hrt1 & Hrepr1 & Hnd1 & Hsync1 & Hrel1 & Hn1 & Hc1 & Hl1 & Hm1).
  cbn [plug] in Hrt1, Hrepr1, Hnd1.
  destruct (rotateLeft_plug _ _ _ _ _ _ _ _ _ _ _ _ s1 Hrt1 Hrepr1 Hnd1 Hsync1)
    as (s2 & Erot2 & Hrt2 & Hrepr2 & Hnd2 & Hsync2 & Hrel2 & Hn2 & Hc2 & Hl2 & Hm2).
  destruct s as [h nx rt cnt la ma], s1 as [h1 nx1 rt1 cnt1 la1 ma1],
    s2 as [h2 nx2 rt2 cnt2 la2 ma2].
  cbn [heap area_l next t_root t_count area_m] in *. subst nx2 cnt2 la2 ma2 nx1 cnt1 la1 ma1.
  clear Hnd1 Hnd2.
  open_tree Hrepr. open_tree Hrepr1. open_tree Hrepr2. open_all.
  open_nodup Hnd.
  eexists. split.
  { cbn [maintainAfterInsert].
    hgo_with ltac:(first [rewrite HU | rewrite Erot1 | rewrite Erot2]). reflexivity. }
  hproj.
  split; [by rewrite !ptr_of_plug|].
  split; [apply repr_plug; split; repr_goal|].
  post_tail h2.
Qed.

(** ** The local area of an insertion *)

Lemma sync_ok_weaken h L L' :
  (forall p, p ∈ L -> p ∈ L') -> sync_ok h L -> sync_ok h L'.
Proof.
  intros Hsub Hs a d Ha. destruct (Hs a d Ha) as (? & ? & Hf). repeat split; [done..|].
  intros Ht. by apply Hsub, Hf.
Qed.

Lemma root_list_sub t a : a ∈ root_list t -> a ∈ addrs t.
Proof.
  destruct t; cbn; [done|]. intros H. apply list_elem_of_singleton in H as ->. by left.
Qed.

Lemma ctx_local_sub C a : a ∈ ctx_local C -> a ∈ addrs_ctx C.
Proof.
  destruct C as [|p cp kp vp Sb up|p cp Sb kp vp up]; cbn [ctx_local addrs_ctx]; [done|..];
    (intros H; apply elem_of_cons in H as [->|H]; [by left|]; right;
     apply elem_of_app in H as [H|H]; apply elem_of_app;
     [left; by apply root_list_sub|right]);
    (destruct up as [|g cg kg vg U up|g cg U kg vg up]; cbn [addrs_ctx]; [done|..]);
    (apply elem_of_cons in H as [->|H]; [by left|]; right;
     apply elem_of_app; left; by apply root_list_sub).
Qed.

Lemma repr_root_allocated h par t a : repr h par t -> a ∈ root_list t -> is_Some (h !! a).
Proof.
  destruct t; cbn; [by intros _ H; apply elem_of_nil in H|].
  intros [(d & Hd & _) _] H. apply list_elem_of_singleton in H as ->. by exists d.
Qed.

Lemma ctx_local_allocated h C hole a :
  repr_ctx h C hole -> a ∈ ctx_local C -> is_Some (h !! a).
Proof.
  destruct C as [|p cp kp vp Sb up|p cp Sb kp vp up]; cbn [ctx_local repr_ctx];
    [by intros _ H; apply elem_of_nil in H|..];
    (intros [(d & Hd & _) [HS Hup]] H; apply elem_of_cons in H as [->|H]; [by exists d|];
     apply elem_of_app in H as [H|H]; [by eapply repr_root_allocated|]);
    (destruct up as [|g cg kg vg U up|g cg U kg vg up]; cbn [repr_ctx] in Hup;
     [by apply elem_of_nil in H|..]);
    (destruct Hup as [(dg & Hdg & _) [HU _]];
     apply elem_of_cons in H as [->|H]; [by exists dg|by eapply repr_root_allocated]).
Qed.

(** [lockInsert] in terms of the whole tree: the held flags stay within
    the area, whose members are allocated. *)
Lemma lockInsert_plug (C : ctx) (X : tree) (s : state) (x : addr) :
  ptr_of X = Some x ->
  repr (heap s) None (plug C X) ->
  NoDup (addrs (plug C X)) ->
  sync_ok (heap s) (area_l s ++ [Some x]) ->
  area_allocated s ->
  (forall d, heap s !! x = Some d -> n_flag d = true) ->
  (forall a d, a ∈ ctx_local C -> heap s !! a = Some d -> n_flag d = false) ->
  exists s',
    lockInsert (Some x) s = Ret true s' /\
    repr (heap s') None (plug C X) /\
    sync_ok (heap s') (area_l s') /\
    area_allocated s' /\
    heap_rel flag_changed (heap s) (heap s') /\
    (forall a d, a ∈ ctx_local C -> heap s' !! a = Some d -> n_flag d = true) /\
    (forall a, a ∉ ctx_local C -> heap s' !! a = heap s !! a) /\
    next s' = next s /\ t_root s' = t_root s /\ t_count s' = t_count s /\
    area_m s' = area_m s.
Proof.
  intros HX Hrepr Hnd Hsync Hal Hheld Hfree.
  pose proof Hrepr as Hwhole.
  apply repr_plug in Hrepr as [Hctx Hrepr]. apply NoDup_plug in Hnd.
  assert (Hxa : is_Some (heap s !! x)).
  { destruct X; [done|]. injection HX as ->. destruct Hrepr as [(d & Hd & _) _]. by exists d. }
  rewrite HX in Hctx.
  destruct (lockInsert_ok C X s x HX Hctx Hrepr Hnd Hsync Hheld Hfree)
    as (s' & E & Hl & Hrel & Hlocked & Hframe & Hn & Hr & Hc & Hm).
  exists s'. split; [done|].
  split; [by eapply repr_flag_changed|].
  split.
  { intros a d' Ha'.
    destruct (heap_rel_lookup_inv _ _ _ _ _ Hrel Ha') as (d & Ha & [b ->]).
    destruct (Hsync a d Ha) as (Hh & Hmk & Hf).
    split; [by destruct d|]. split; [by destruct d|].
    intros Ht. rewrite Hl.
    destruct (decide (a ∈ ctx_local C)) as [Hin|Hout].
    - apply elem_of_app. right. right. apply list_elem_of_fmap. by exists a.
    - rewrite (Hframe a Hout), Ha in Ha'. injection Ha' as Ha'.
      assert (Hd : n_flag d = true) by (rewrite Ha'; exact Ht).
      specialize (Hf Hd). apply elem_of_app in Hf as [Hf|Hf]; apply elem_of_app; [by left|].
      right. apply list_elem_of_singleton in Hf as ->. by left. }
  split.
  { intros p Hp. rewrite Hl in Hp. apply elem_of_app in Hp as [Hp|Hp].
    - destruct (Hal p Hp) as (a & -> & Hs). exists a. split; [done|].
      by apply (heap_rel_dom _ _ _ _ Hrel).
    - apply elem_of_cons in Hp as [->|Hp].
      + exists x. split; [done|]. by apply (heap_rel_dom _ _ _ _ Hrel).
      + apply list_elem_of_fmap in Hp as (a & -> & Ha). exists a. split; [done|].
        apply (heap_rel_dom _ _ _ _ Hrel). by eapply ctx_local_allocated. }
  done.
Qed.

(** ** [maintainAfterInsert] keeps the search tree *)

Lemma above_not_local p Sb g U (upl : list addr) a :
  NoDup (p :: addrs Sb ++ g :: addrs U ++ upl) ->
  a ∈ upl -> a ∉ p :: root_list Sb ++ g :: root_list U.
Proof.
  intros Hnd Ha Hin.
  apply NoDup_cons in Hnd as [Hp Hnd].
  apply NoDup_app in Hnd as (_ & HSb & Hnd).
  apply NoDup_cons in Hnd as [Hg Hnd].
  apply NoDup_app in Hnd as (_ & HU & _).
  apply elem_of_cons in Hin as [->|Hin].
  { apply Hp. apply elem_of_app. right. right. apply elem_of_app. by right. }
  apply elem_of_app in Hin as [Hin|Hin].
  { apply root_list_sub in Hin. apply (HSb a Hin). right. apply elem_of_app. by right. }
  apply elem_of_cons in Hin as [->|Hin].
  { apply Hg. apply elem_of_app. by right. }
  apply root_list_sub in Hin. by apply (HU a Hin).
Qed.

Lemma above_in_ctx p Sb g U (upl : list addr) a :
  a ∈ upl -> a ∈ p :: addrs Sb ++ g :: addrs U ++ upl.
Proof.
  intros Ha. right. apply elem_of_app. right. right. apply elem_of_app. by right.
Qed.

Ltac blacken t :=
  lazymatch t with
  | Node ?a _ ?l ?k ?v ?r => constr:(Node a black l k v r)
  end.

Ltac frame_in H :=
  cbn [heap] in H; rewrite ?lookup_insert_ne in H by (intros ->; contradiction).

(** The ways in which [maintainAfterInsert] is done at once. *)
Ltac maintain_done_case s Hrepr Hnd :=
  destruct s as [? ? ? ? ? ?];
  cbn [heap area_l next t_root t_count area_m] in *;
  open_tree Hrepr; open_all; open_nodup Hnd;
  cbn [maintainAfterInsert]; hgo; reflexivity.

(** The parent is the red root: it turns black. *)
Ltac parent_root_case s Hrepr Hnd T' :=
  destruct s as [? ? ? ? ? ?];
  cbn [heap area_l next t_root t_count area_m] in *;
  (let Hw := fresh "Hw" in pose proof Hrepr as Hw; open_tree Hw);
  open_all;
  (let Hn := fresh "Hn" in pose proof Hnd as Hn; open_nodup Hn);
  eexists _, T';
  split; [cbn [maintainAfterInsert]; hgo; reflexivity|];
  hproj; split; [done|];
  split; [apply repr_plug; split; repr_goal|];
  split; [done|];
  split; [reflexivity|];
  lazymatch goal with Hs : sync_ok ?h _ |- _ => post_tail h end.

Lemma maintain_ok (fuel : nat) :
  forall (C : ctx) (X : tree) (s : state) (x : addr),
    ptr_of X = Some x ->
    t_root s = ptr_of (plug C X) ->
    repr (heap s) None (plug C X) ->
    NoDup (addrs (plug C X)) ->
    sync_ok (heap s) (area_l s) ->
    (forall a d, a ∈ ctx_local C -> heap s !! a = Some d -> n_flag d = true) ->
    (forall a d, a ∈ addrs_ctx C -> a ∉ ctx_local C -> heap s !! a = Some d ->
                 n_flag d = false) ->
    area_allocated s ->
    (ctx_depth C < fuel)%nat ->
    exists s' T',
      maintainAfterInsert fuel (Some x) s = Ret true s' /\
      t_root s' = ptr_of T' /\
      repr (heap s') None T' /\
      kvs T' = kvs (plug C X) /\
      T' = rebalance C X /\
      sync_ok (heap s') (area_l s') /\
      area_allocated s' /\
      heap_rel (fun _ _ => True) (heap s) (heap s') /\
      next s' = next s /\ t_count s' = t_count s /\ area_m s' = area_m s.
Proof.
  induction fuel as [|fuel IH]; intros C X s x HX Hrt Hrepr Hnd Hsync Hheld Hfree Hal Hfuel;
    [lia|].
  destruct X as [|x0 cx XL kx vx XR]; [done|]. injection HX as ->.
  assert (Hdone : maintainAfterInsert (S fuel) (Some x) s = Ret true s ->
            plug C (Node x cx XL kx vx XR) = rebalance C (Node x cx XL kx vx XR) ->
            exists s' T',
              maintainAfterInsert (S fuel) (Some x) s = Ret true s' /\
              t_root s' = ptr_of T' /\
              repr (heap s') None T' /\
              kvs T' = kvs (plug C (Node x cx XL kx vx XR)) /\
              T' = rebalance C (Node x cx XL kx vx XR) /\
              sync_ok (heap s') (area_l s') /\
              area_allocated s' /\
              heap_rel (fun _ _ => True) (heap s) (heap s') /\
              next s' = next s /\ t_count s' = t_count s /\ area_m s' = area_m s).
  { intros E Hsh. exists s, (plug C (Node x cx XL kx vx XR)).
    do 7 (split; [done|]). split; [by apply heap_rel_refl|done]. }
  destruct cx; [|apply Hdone; [clear Hdone IH; maintain_done_case s Hrepr Hnd|by destruct C]].
  destruct C as [|p cp kp vp Sb up|p cp Sb kp vp up];
    [apply Hdone; [clear Hdone IH; maintain_done_case s Hrepr Hnd|reflexivity]|..];
    (destruct cp; [|apply Hdone; [clear Hdone IH; maintain_done_case s Hrepr Hnd|reflexivity]]);
    clear Hdone;
    (destruct up as [|g cg kg vg U up|g cg U kg vg up]).
  1: { clear IH.
       parent_root_case s Hrepr Hnd (plug (InL p black kp vp Sb Top) (Node x red XL kx vx XR)). }
  3: { clear IH.
       parent_root_case s Hrepr Hnd (plug (InR p black Sb kp vp Top) (Node x red XL kx vx XR)). }
  all: destruct (red_root U) eqn:HU.
  (* the uncle is not red: one of the four rotations *)
  2: edestruct (maintain_straight_left fuel) as (s' & E & Hrt' & Hrepr' & Htail);
       [exact HU|exact Hrt|exact Hrepr|exact Hnd|exact Hsync|exact Hal|].
  4: edestruct (maintain_bent_right fuel) as (s' & E & Hrt' & Hrepr' & Htail);
       [exact HU|exact Hrt|exact Hrepr|exact Hnd|exact Hsync|exact Hal|].
  6: edestruct (maintain_bent_left fuel) as (s' & E & Hrt' & Hrepr' & Htail);
       [exact HU|exact Hrt|exact Hrepr|exact Hnd|exact Hsync|exact Hal|].
  8: edestruct (maintain_straight_right fuel) as (s' & E & Hrt' & Hrepr' & Htail);
       [exact HU|exact Hrt|exact Hrepr|exact Hnd|exact Hsync|exact Hal|].
  2,4,6,8: eexists s', _; (split; [exact E|]); (split; [exact Hrt'|]);
    (split; [exact Hrepr'|]);
    (split; [rewrite !kvs_plug; cbn [kvs lkvs rkvs]; by list_norm|]);
    (split; [cbn [rebalance]; by rewrite HU|exact Htail]).
  (* the uncle is red: take the grandparent's local area, recolour, go on *)
  all: destruct U as [|u cu UL ku vu UR]; [done|]; destruct cu; [|done]; clear HU.
  all: assert (HndC : NoDup (p :: addrs Sb ++ g :: addrs (Node u red UL ku vu UR) ++ addrs_ctx up))
         by (pose proof Hnd as Hnd0; apply NoDup_plug in Hnd0; by apply NoDup_app in Hnd0 as [? _]).
  all: assert (Habove : forall a, a ∈ addrs_ctx up ->
                 forall da, heap s !! a = Some da -> n_flag da = false)
         by (intros a Hin da Hda;
             apply (Hfree a da);
               [by apply above_in_ctx
               |by apply (above_not_local p Sb g (Node u red UL ku vu UR) (addrs_ctx up))
               |done]).
  all: clear HndC; cbn [plug] in Hrt, Hrepr, Hnd.
  all: lazymatch type of Hrepr with
       | repr _ None (plug _ ?G) =>
         destruct (lockInsert_plug up G s g eq_refl Hrepr Hnd)
           as (s1 & Elock & Hrepr1 & Hsync1 & Hal1 & Hrel1 & Hlocked1 & Hframe1 &
               Hn1 & Hr1 & Hc1 & Hm1);
         [eapply sync_ok_weaken; [|exact Hsync]; intros q Hq; apply elem_of_app; by left
         |exact Hal
         |intros d Hd; apply (Hheld g d); [|done]; cbn [ctx_local]; right;
          apply elem_of_app; right; by left
         |intros a da Ha Hda; apply ctx_local_sub in Ha; by eapply Habove
         |]
       end.
  all: destruct s as [h nx rt cnt la ma], s1 as [h1 nx1 rt1 cnt1 la1 ma1];
       cbn [heap area_l next t_root t_count area_m] in *; subst nx1 rt1 cnt1 ma1.
  all: pose proof Hrepr as Hw0; open_tree Hw0; pose proof Hrepr1 as Hw1; open_tree Hw1;
       open_all; pose proof Hnd as Hnd0; open_nodup Hnd0.
  all: lazymatch goal with
       | |- exists s' T', ?L = _ /\ _ =>
         let E := fresh "E" in
         eassert (E : L = _);
         [cbn [maintainAfterInsert]; hgo_with ltac:(rewrite Elock); reflexivity
         |rewrite E; clear E]
       end.
  all: lazymatch goal with
       | |- context [maintainAfterInsert _ (Some _) ?s2] =>
         lazymatch type of Hrepr with
         | repr _ None (plug _ (Node _ _ ?L _ _ ?R)) =>
           let L' := blacken L in
           let R' := blacken R in
           destruct (IH up (Node g red L' kg vg R') s2 g eq_refl)
             as (s' & T' & E' & Hrt' & Hrepr' & Hkvs' & Hsh' & Hsync' & Hal' & Hrel' &
                 Hn' & Hc' & Hm')
         end
       end;
       [hproj; by rewrite !ptr_of_plug
       |hproj; apply repr_plug; split; repr_goal
       |apply NoDup_plug; apply NoDup_plug in Hnd; exact Hnd
       |hproj; apply (sync_ok_same h1); [sync_chain|done]
       |intros a da Ha Hda; pose proof (ctx_local_sub _ _ Ha) as Hin;
        frame_in Hda; by eapply Hlocked1
       |intros a da Hin Hout Hda; frame_in Hda; rewrite (Hframe1 a Hout) in Hda;
        by eapply Habove
       |eapply area_allocated_heap; [exact Hal1|rel_chain]
       |cbn [ctx_depth] in Hfuel; hproj; lia
       |].
  all: exists s', T'; (split; [rewrite E'; reflexivity|]);
       (split; [done|]); (split; [done|]);
       (split; [rewrite Hkvs', !kvs_plug; cbn [kvs lkvs rkvs]; by list_norm|]);
       (split; [by rewrite Hsh'|]);
       (split; [done|]); (split; [done|]);
       (split; [eapply heap_rel_any_trans; [|exact Hrel']; hproj; any_chain|]);
       done.
Qed.

(** ** Bindings in key order *)

Lemma kv_put_app_lt k v l kn vn r :
  k < kn -> kv_put k v (l ++ (kn, vn) :: r) = kv_put k v l ++ (kn, vn) :: r.
Proof.
  intros Hk. induction l as [|[k' v'] l IH]; cbn [kv_put app].
  - by rewrite (proj2 (Z.ltb_lt k kn) Hk).
  - destruct (k <? k'); [done|]. destruct (k =? k'); [done|]. by rewrite IH.
Qed.

Lemma kv_put_app_gt k v l kn vn r :
  (forall p, p ∈ l -> p.1 < k) -> kn < k ->
  kv_put k v (l ++ (kn, vn) :: r) = l ++ (kn, vn) :: kv_put k v r.
Proof.
  intros Hl Hk. induction l as [|[k' v'] l IH]; cbn [kv_put app].
  - rewrite (proj2 (Z.ltb_ge k kn)) by lia. by rewrite (proj2 (Z.eqb_neq k kn)) by lia.
  - assert (k' < k) by (apply (Hl (k', v')); by left).
    rewrite (proj2 (Z.ltb_ge k k')) by lia. rewrite (proj2 (Z.eqb_neq k k')) by lia.
    rewrite IH; [done|]. intros p Hp. apply Hl. by right.
Qed.

Lemma kv_put_app_eq k v l vn r :
  (forall p, p ∈ l -> p.1 < k) ->
  kv_put k v (l ++ (k, vn) :: r) = l ++ (k, v) :: r.
Proof.
  intros Hl. induction l as [|[k' v'] l IH]; cbn [kv_put app].
  - by rewrite Z.ltb_irrefl, Z.eqb_refl.
  - assert (k' < k) by (apply (Hl (k', v')); by left).
    rewrite (proj2 (Z.ltb_ge k k')) by lia. rewrite (proj2 (Z.eqb_neq k k')) by lia.
    rewrite IH; [done|]. intros p Hp. apply Hl. by right.
Qed.

Lemma kv_put_elem k v l : (k, v) ∈ kv_put k v l.
Proof.
  induction l as [|[k' v'] l IH]; cbn [kv_put]; [by left|].
  destruct (k <? k'); [by left|]. destruct (k =? k'); [by left|by right].
Qed.

Lemma kv_put_elem_inv k v l p : p ∈ kv_put k v l -> p = (k, v) \/ p ∈ l.
Proof.
  induction l as [|[k' v'] l IH]; cbn [kv_put].
  - intros H. apply list_elem_of_singleton in H. by left.
  - destruct (k <? k'); [by rewrite elem_of_cons|].
    destruct (k =? k').
    + rewrite elem_of_cons. intros [->|H]; [by left|right; by right].
    + rewrite elem_of_cons. intros [->|H]; [right; by left|].
      destruct (IH H) as [->|H']; [by left|right; by right].
Qed.

Lemma kv_put_sorted k v l :
  StronglySorted kv_lt l -> StronglySorted kv_lt (kv_put k v l).
Proof.
  induction l as [|[k' v'] l IH]; cbn [kv_put]; intros Hs.
  - repeat constructor.
  - apply StronglySorted_cons in Hs as [Hall Hs].
    destruct (Z.ltb_spec k k') as [Hlt|Hge].
    + apply StronglySorted_cons. split.
      * apply Forall_cons. split; [done|].
        apply Forall_forall. intros p Hp. unfold kv_lt. cbn.
        pose proof (proj1 (Forall_forall _ _) Hall p Hp) as Hq. unfold kv_lt in Hq. cbn in Hq. lia.
      * apply StronglySorted_cons. by split.
    + destruct (Z.eqb_spec k k') as [->|Hne].
      * apply StronglySorted_cons. by split.
      * apply StronglySorted_cons. split; [|by apply IH].
        apply Forall_forall. intros p Hp. apply kv_put_elem_inv in Hp as [->|Hp].
        -- unfold kv_lt. cbn. lia.
        -- by apply (proj1 (Forall_forall _ _) Hall p).
Qed.

Lemma kv_put_length k v l : (length (kv_put k v l) <= S (length l))%nat.
Proof.
  induction l as [|[k' v'] l IH]; cbn [kv_put]; [done|].
  destruct (k <? k'); [done|]. destruct (k =? k'); cbn; lia.
Qed.

(** Putting a key that is bound keeps the number of bindings; putting a
    new key adds one. *)
Lemma kv_put_length_has k v l :
  StronglySorted kv_lt l ->
  length (kv_put k v l) = if has_key k l then length l else S (length l).
Proof.
  unfold has_key.
  induction l as [|[k' v'] l IH]; cbn [kv_put existsb fst]; intros Hs; [done|].
  apply StronglySorted_cons in Hs as [Hall Hs].
  destruct (Z.ltb_spec k k') as [Hlt|Hge].
  - rewrite (proj2 (Z.eqb_neq k' k)) by lia. cbn [orb].
    replace (existsb (fun p => p.1 =? k) l) with false; [done|].
    symmetry. apply not_true_is_false. intros Hex. apply existsb_exists in Hex as (p & Hp & Hk).
    apply list_elem_of_In in Hp.
    pose proof (proj1 (Forall_forall _ _) Hall p Hp) as Hq. unfold kv_lt in Hq. cbn in Hq.
    apply Z.eqb_eq in Hk. lia.
  - destruct (Z.eqb_spec k k') as [->|Hne].
    + rewrite Z.eqb_refl. done.
    + rewrite (proj2 (Z.eqb_neq k' k)) by lia. cbn [orb length]. rewrite (IH Hs).
      by destruct (existsb _ l).
Qed.

Lemma has_key_app k l r : has_key k (l ++ r) = has_key k l || has_key k r.
Proof. apply existsb_app. Qed.

Lemma has_key_below k l : (forall p, p ∈ l -> p.1 < k) -> has_key k l = false.
Proof.
  intros Hl. apply not_true_is_false. intros Hex.
  apply existsb_exists in Hex as (p & Hp & Hk). apply list_elem_of_In in Hp.
  apply Hl in Hp. apply Z.eqb_eq in Hk. lia.
Qed.

Lemma has_key_above k l : (forall p, p ∈ l -> k < p.1) -> has_key k l = false.
Proof.
  intros Hl. apply not_true_is_false. intros Hex.
  apply existsb_exists in Hex as (p & Hp & Hk). apply list_elem_of_In in Hp.
  apply Hl in Hp. apply Z.eqb_eq in Hk. lia.
Qed.

Lemma has_key_put k v l : has_key k (kv_put k v l) = true.
Proof.
  apply existsb_exists. exists (k, v). split; [|apply Z.eqb_refl].
  apply list_elem_of_In, kv_put_elem.
Qed.

(** In a list sorted by key a key has one binding. *)
Lemma sorted_binding_unique l k v v' :
  StronglySorted kv_lt l -> (k, v) ∈ l -> (k, v') ∈ l -> v = v'.
Proof.
  induction l as [|[k0 v0] l IH]; intros Hs H1 H2; [by apply elem_of_nil in H1|].
  apply StronglySorted_cons in Hs as [Hall Hs].
  apply elem_of_cons in H1 as [H1|H1]; apply elem_of_cons in H2 as [H2|H2].
  - congruence.
  - injection H1 as -> ->.
    pose proof (proj1 (Forall_forall _ _) Hall _ H2) as Hq. unfold kv_lt in Hq. cbn in Hq. lia.
  - injection H2 as -> ->.
    pose proof (proj1 (Forall_forall _ _) Hall _ H1) as Hq. unfold kv_lt in Hq. cbn in Hq. lia.
  - by apply IH.
Qed.

(** ** Insertion *)

Lemma unlock_eq s a d :
  heap s !! a = Some d ->
  unlock (Some a) s = Ret (n_flag d) (with_heap (<[a := with_flag false d]> (heap s)) s).
Proof.
  intros H. rewrite (unlock_spec _ _ _ H). destruct (n_flag d) eqn:Hf; [done|].
  f_equal. destruct s as [h nx rt cnt la ma]. cbn in *. f_equal.
  symmetry. apply insert_id. rewrite H. f_equal. destruct d; cbn in *. by subst.
Qed.

Lemma unlock_quiet s a :
  quiescent s -> is_Some (heap s !! a) -> unlock (Some a) s = Ret false s.
Proof.
  intros Hq [d Hd]. rewrite (unlock_spec _ _ _ Hd).
  destruct (Hq a d Hd) as (-> & _). done.
Qed.

Lemma ctx_parent_in C a : ctx_parent C = Some a -> a ∈ addrs_ctx C.
Proof. destruct C; cbn; [done|..]; intros [= ->]; by left. Qed.

Lemma repr_ctx_parent h C hole p :
  repr_ctx h C hole -> ctx_parent C = Some p -> is_Some (h !! p).
Proof.
  destruct C; cbn; [done|..]; intros [(d & Hd & _) _] [= <-]; by exists d.
Qed.

Lemma repr_in_allocated h par t a : repr h par t -> a ∈ addrs t -> is_Some (h !! a).
Proof.
  revert par. induction t as [|n c l IHl k v r IHr]; intros par; cbn [repr addrs].
  - intros _ H. by apply elem_of_nil in H.
  - intros [(d & Hd & _) [Hl Hr]] H. apply elem_of_cons in H as [->|H]; [by exists d|].
    apply elem_of_app in H as [H|H]; eauto.
Qed.

Lemma repr_ctx_in_allocated h C hole a :
  repr_ctx h C hole -> a ∈ addrs_ctx C -> is_Some (h !! a).
Proof.
  revert hole. induction C as [|n c k v r up IH|n c l k v up IH]; intros hole;
    cbn [repr_ctx addrs_ctx].
  - intros _ H. by apply elem_of_nil in H.
  - intros [(d & Hd & _) [Hr Hup]] H. apply elem_of_cons in H as [->|H]; [by exists d|].
    apply elem_of_app in H as [H|H]; [by eapply repr_in_allocated|eauto].
  - intros [(d & Hd & _) [Hr Hup]] H. apply elem_of_cons in H as [->|H]; [by exists d|].
    apply elem_of_app in H as [H|H]; [by eapply repr_in_allocated|eauto].
Qed.

Lemma plug_in_allocated h C t a :
  repr h None (plug C t) -> a ∈ addrs_ctx C ++ addrs t -> is_Some (h !! a).
Proof.
  intros H Ha. apply repr_plug in H as [Hc Ht]. apply elem_of_app in Ha as [Ha|Ha].
  - by eapply repr_ctx_in_allocated.
  - by eapply repr_in_allocated.
Qed.

Ltac key_step :=
  match goal with
  | |- context [key_of (Some ?a) ?s] => erewrite (key_of_spec s a) by lookup_side
  end.

Ltac unlock_step :=
  match goal with
  | |- context [unlock (Some ?a) ?s] => erewrite (unlock_eq s a) by lookup_side
  end.

Ltac ihnf :=
  with_strategy opaque [base.lookup base.insert Z.eqb Z.ltb Z.compare Nat.eqb Z.add wrap
                        get insert delete maintainAfterInsert maintainAfterDelete
                        Insert_loop Delete_loop Get_loop leftmost spin mark_chain
                        dir isRed red_root lockInsert unlockArea rotateLeft rotateRight
                        key_of unlock]
    (lazymatch goal with
     | |- ?L = ?R => let L' := eval lazy head in L in change (L' = R)
     end).

(** Run up to the next call of [key_of], [insert], [lockInsert],
    [maintainAfterInsert] or [unlockArea]. *)
Ltac igo_with tac :=
  repeat (ihnf; hproj;
          try first [ heap_lookup2 | addr_eqb2 | rewrite Z.ltb_irrefl | isRed_step
                    | unlock_step | tac ]).
Ltac igo := igo_with fail.

(** Split a lookup in an updated heap by the updated addresses. *)
Ltac heap_cases Ha :=
  repeat match type of Ha with
  | <[?x := _]> _ !! ?x = _ => rewrite lookup_insert_eq in Ha
  | <[?x := _]> _ !! ?a = _ =>
    first [ rewrite (lookup_insert_ne _ x a) in Ha by addr_ne
          | destruct (decide (x = a)) as [<-|?];
            [rewrite lookup_insert_eq in Ha
            |rewrite (lookup_insert_ne _ x a) in Ha by addr_ne] ]
  end.

Lemma heap_rel_fresh (R : RBTreeNode -> RBTreeNode -> Prop) h h' (nx : addr) :
  heap_rel R h h' ->
  (forall a : addr, (nx <= a)%nat -> h !! a = None) ->
  (forall a : addr, (nx <= a)%nat -> h' !! a = None).
Proof.
  intros H Hf a Ha. pose proof (H a) as Ha'. rewrite (Hf a Ha) in Ha'. by inversion Ha'.
Qed.

(** A lookup in an updated heap is allocated when the heap below is. *)
Ltac mono_goal :=
  cbn [heap];
  repeat match goal with
  | |- is_Some (<[?x := _]> _ !! ?x) => rewrite lookup_insert_eq; by eexists
  | |- is_Some (<[?x := _]> _ !! ?a) =>
    first [ rewrite (lookup_insert_ne _ x a) by addr_ne
          | destruct (decide (x = a)) as [<-|?];
            [rewrite lookup_insert_eq; by eexists
            |rewrite (lookup_insert_ne _ x a) by assumption] ]
  end.

Lemma insert_ok (N : tree) :
  forall (C : ctx) (fuel : nat) (k v : Z) (s : state) (n : addr),
    ptr_of N = Some n ->
    t_root s = ptr_of (plug C N) ->
    repr (heap s) None (plug C N) ->
    NoDup (addrs (plug C N)) ->
    StronglySorted kv_lt (kvs N) ->
    sync_ok (heap s) (some_ptr (ctx_parent C)) ->
    fresh_from s ->
    area_l s = [] ->
    (ctx_depth C + 2 * height N + 1 <= fuel)%nat ->
    exists T' new s',
      insert fuel (Some n) k v s = Ret (new, true) s' /\
      t_root s' = ptr_of T' /\
      repr (heap s') None T' /\
      kvs T' = lkvs C ++ kv_put k v (kvs N) ++ rkvs C /\
      T' = tree_insert (next s) C N k v /\
      new = negb (has_key k (kvs N)) /\
      quiescent s' /\ fresh_from s' /\ area_l s' = [] /\
      area_m s' = area_m s /\ t_count s' = t_count s /\
      (forall a, is_Some (heap s !! a) -> is_Some (heap s' !! a)).
Proof.
  induction N as [|n0 c l IHl kn vn r IHr]; [done|].
  intros C fuel k v s n HN Hrt Hrepr Hnd Hsort Hsync Hfresh Hla Hfuel.
  injection HN as ->.
  destruct fuel as [|fuel]; [lia|].
  destruct s as [h nx rt cnt la ma].
  cbn [heap area_l next t_root t_count area_m] in *. subst la.
  (* the node and what is known of its neighbours *)
  pose proof Hnd as Hnd0. apply NoDup_plug in Hnd0.
  apply NoDup_app in Hnd0 as (HndC & Hdisj & HndN).
  assert (HnC : n ∉ addrs_ctx C).
  { intros Hin. apply (Hdisj n Hin). cbn. by left. }
  pose proof Hrepr as Hw. apply repr_plug in Hw as [Hctx HreprN].
  cbn [repr ptr_of] in HreprN, Hctx. destruct HreprN as (Hn & Hl & Hr).
  destruct Hn as (dn & Hdn & Hc & Hnl & Hnr & Hnp & Hnk & Hnv).
  destruct (Hsync n dn Hdn) as (Hhp & Hmk & Hfl).
  assert (Hnf : n_flag dn = false).
  { destruct (n_flag dn); [|done]. specialize (Hfl eq_refl).
    destruct (ctx_parent C) as [p|] eqn:HpC; cbn in Hfl; [|by apply elem_of_nil in Hfl].
    apply list_elem_of_singleton in Hfl. injection Hfl as <-.
    exfalso. apply HnC. by apply ctx_parent_in. }
  destruct dn as [dc dl dr dp dk dv df dh dm]. node_fields. subst dc dl dr dp dk dv df dh dm.
  (* the way in: take the node, let go of the parent *)
  assert (Hin : exists h2,
    insert (S fuel) (Some n) k v (mkState h nx rt cnt [] ma) =
      (let* r := (let* nk := key_of (Some n) in
                  if nk =? k then set_value (Some n) v >> ret (false, true) else
                  let* goleft := andM (ret (k <? nk)) (non_nil (left_of (Some n))) in
                  if goleft then let* c := left_of (Some n) in insert fuel c k v else
                  let* goright := andM (ret (nk <? k)) (non_nil (right_of (Some n))) in
                  if goright then let* c := right_of (Some n) in insert fuel c k v else
                  let* ins := alloc (mkNode red None None (Some n) k v false 0 false) in
                  set_child_towards (Some n) k ins >>
                  let* nred := isRed (Some n) in
                  if nred then
                    lock ins >>
                    let* r :=
                      (unlock (Some n) >>
                       let* okl := lockInsert ins in
                       if okl then
                         let* r :=
                           (let* okm := maintainAfterInsert fuel ins in
                            if negb okm then set_child_towards (Some n) k None >> ret (true, false)
                            else ret (true, true)) in
                         unlockArea >> ret r
                       else set_child_towards (Some n) k None >> ret (true, false)) in
                    unlock ins >> ret r
                  else ret (true, true)) in
       unlock (Some n) >> ret r) (mkState h2 nx rt cnt [] ma) /\
    heap_rel flag_changed h h2 /\
    h2 !! n = Some (mkNode c (ptr_of l) (ptr_of r) (ctx_parent C) kn vn true 0 false) /\
    sync_ok h2 [Some n]).
  { destruct (ctx_parent C) as [p|] eqn:HpC.
    - destruct (repr_ctx_parent _ _ _ _ Hctx HpC) as [dpn Hdp].
      assert (Hpn : p <> n) by (intros ->; apply HnC; by apply ctx_parent_in).
      destruct (Hsync p dpn Hdp) as (Hhp' & Hmk' & _).
      destruct dpn as [pc pl pr pp pk pv pf ph pm]. node_fields. subst ph pm.
      eexists. split; [cbn [insert]; igo; reflexivity|].
      split; [flag_chain|]. split; [by repeat heap_lookup2|].
      intros a d Ha. heap_cases Ha.
      + injection Ha as <-. done.
      + injection Ha as <-. cbn. repeat split; try done. intros _. by left.
      + destruct (Hsync a d Ha) as (? & ? & Hf). repeat split; try done.
        intros Ht. specialize (Hf Ht). cbn in Hf. apply list_elem_of_singleton in Hf.
        congruence.
    - eexists. split; [cbn [insert]; igo; reflexivity|].
      split; [flag_chain|]. split; [by repeat heap_lookup2|].
      intros a d Ha. heap_cases Ha.
      + injection Ha as <-. cbn. repeat split; try done. intros _. by left.
      + destruct (Hsync a d Ha) as (? & ? & Hf). repeat split; try done.
        intros Ht. specialize (Hf Ht). cbn in Hf. by apply elem_of_nil in Hf. }
  destruct Hin as (h2 & Ein & Hrel2 & Hn2 & Hsync2).
  rewrite Ein. clear Ein.
  assert (Hrepr2 : repr h2 None (plug C (Node n c l kn vn r))) by by eapply repr_flag_changed.
  assert (Hctx2 : repr_ctx h2 C (Some n)) by by eapply repr_ctx_flag_changed.
  assert (Hl2 : repr h2 (Some n) l) by by eapply repr_flag_changed.
  assert (Hr2 : repr h2 (Some n) r) by by eapply repr_flag_changed.
  assert (Hfresh2 : forall a : addr, (nx <= a)%nat -> h2 !! a = None)
    by (eapply heap_rel_fresh; [exact Hrel2|exact Hfresh]).
  assert (Hmono : forall a, is_Some (h !! a) -> is_Some (h2 !! a))
    by (intros a Ha; by apply (heap_rel_dom _ _ _ _ Hrel2)).
  assert (Hquiet2 : forall a d, h2 !! a = Some d -> a <> n -> node_quiet d).
  { intros a d Ha Hne. destruct (Hsync2 a d Ha) as (? & ? & Hf). split; [|done].
    destruct (n_flag d); [|done]. specialize (Hf eq_refl).
    apply list_elem_of_singleton in Hf. congruence. }
  assert (Hnlt : (n < nx)%nat).
  { destruct (decide (n < nx)%nat) as [|Hge]; [done|].
    rewrite Hfresh2 in Hn2 by lia. done. }
  assert (Hnx : n <> nx) by lia.
  destruct (sorted_node _ _ _ _ _ _ Hsort) as (Hsl & Hsr & Hlt & Hgt).
  clear Hctx Hl Hr Hdn Hsync Hfresh Hrel2 Hrepr.
  cbn [addrs] in HndN. nodup_atoms.
  destruct (Z.compare_spec k kn) as [->|Hklt|Hkgt].
  - (* the key is there: overwrite *)
    exists (plug C (Node n c l kn v r)), false. eexists.
    split; [igo_with ltac:(first [key_step | rewrite Z.eqb_refl]); reflexivity|].
    hproj.
    split; [by rewrite Hrt, !ptr_of_plug|].
    split; [apply repr_plug; split; repr_goal|].
    split; [rewrite kvs_plug; cbn [kvs]; by rewrite kv_put_app_eq|].
    split; [cbn [tree_insert]; by rewrite Z.compare_refl|].
    split.
    { cbn [kvs]. rewrite has_key_app. cbn [has_key existsb fst].
      by rewrite Z.eqb_refl, orb_true_r. }
    split.
    { intros a d Ha. cbn [heap] in Ha.
      heap_cases Ha; [by injection Ha as <-|apply (Hquiet2 a d Ha); addr_ne]. }
    split.
    { intros a Ha. cbn [heap next] in *.
      rewrite !lookup_insert_ne by (intros <-; rewrite Hfresh2 in Hn2 by done; done).
      by apply Hfresh2. }
    split; [done|]. split; [done|]. split; [done|].
    intros a Ha. apply Hmono in Ha. mono_goal. done.
  - (* the key is smaller *)
    assert (Hne : (kn =? k) = false) by (apply Z.eqb_neq; lia).
    assert (Hlt' : (k <? kn) = true) by (apply Z.ltb_lt; lia).
    assert (Hgt' : (kn <? k) = false) by (apply Z.ltb_ge; lia).
    assert (Hcmp : (k ?= kn) = Lt) by by apply Z.compare_lt_iff.
    assert (Hkr : has_key k (kvs r) = false).
    { apply has_key_above. intros q Hq. apply Hgt in Hq. lia. }
    assert (Hput : kvs (Node n c l kn v r) = kvs (Node n c l kn v r) ->
              kv_put k v (kvs (Node n c l kn vn r)) = kv_put k v (kvs l) ++ (kn, vn) :: kvs r).
    { intros _. cbn [kvs]. by apply kv_put_app_lt. }
    specialize (Hput eq_refl).
    assert (Hhas : has_key k (kvs (Node n c l kn vn r)) = has_key k (kvs l)).
    { cbn [kvs]. rewrite has_key_app. cbn [has_key existsb fst].
      fold (has_key k (kvs r)). by rewrite Hne, Hkr, orb_false_r. }
    destruct l as [|l0 cl ll kl vl lr].
    + (* no left child: attach *)
      assert (HnxC : nx ∉ addrs_ctx C).
      { intros Hin. destruct (repr_ctx_in_allocated _ _ _ _ Hctx2 Hin) as [d Hd].
        rewrite Hfresh2 in Hd by lia. done. }
      assert (Hnxr : nx ∉ addrs r).
      { intros Hin. destruct (repr_in_allocated _ _ _ _ Hr2 Hin) as [d Hd].
        rewrite Hfresh2 in Hd by lia. done. }
      destruct c.
      * (* under a red node: take the local area and rebalance *)
        lazymatch goal with
        | |- exists T' new s', ?L = _ /\ _ =>
          let E := fresh "E" in
          eassert (E : L = _);
          [igo_with ltac:(first [key_step | rewrite Hne | rewrite Hlt' | rewrite Hgt']);
           reflexivity
          |rewrite E; clear E]
        end.
        lazymatch goal with
        | |- context [lockInsert (Some nx) ?s3] => set (st3 := s3)
        end.
        assert (Hfree3 : forall a d, a <> nx -> heap st3 !! a = Some d -> n_flag d = false).
        { intros a d Hne3 Ha. cbn [st3 heap] in Ha.
          heap_cases Ha; [by injection Ha as <-|].
          by destruct (Hquiet2 a d Ha) as [Hf _]; [addr_ne|]. }
        assert (HndX : NoDup (addrs (plug (InL n red kn vn r C) (Node nx red Leaf k v Leaf)))).
        { apply NoDup_plug. cbn [addrs_ctx addrs app]. apply NoDup_cons. split.
          - apply not_elem_of_app. split; [by apply not_elem_of_app|].
            by intros Hy%list_elem_of_singleton.
          - apply NoDup_app. split; [|split].
            + apply NoDup_app. split; [done|]. split; [|done].
              intros y Hy HyC. apply (Hdisj y HyC). right. apply elem_of_app. by right.
            + intros y Hy Hy'. apply list_elem_of_singleton in Hy' as ->.
              apply elem_of_app in Hy as [Hy|Hy]; done.
            + apply NoDup_singleton. }
        assert (HnxC1 : nx ∉ addrs_ctx (InL n red kn vn r C)).
        { cbn [addrs_ctx]. apply not_elem_of_cons. split; [done|]. by apply not_elem_of_app. }
        destruct (lockInsert_plug (InL n red kn vn r C) (Node nx red Leaf k v Leaf) st3 nx eq_refl)
          as (s4 & Elock & Hrepr4 & Hsync4 & Hal4 & Hrel4 & Hlocked4 & Hframe4 &
              Hn4 & Hr4 & Hc4 & Hm4).
        { cbn [st3 heap]. apply repr_plug; split; repr_goal. }
        { exact HndX. }
        { intros a d Ha. cbn [st3 heap area_l app] in *.
          heap_cases Ha.
          - by injection Ha as <-.
          - injection Ha as <-. cbn. repeat split; try done. intros _. by left.
          - destruct (Hquiet2 a d Ha) as (Hf & ? & ?); [addr_ne|]. repeat split; try done.
            rewrite Hf. done. }
        { intros q Hq. cbn [st3 area_l] in Hq. by apply elem_of_nil in Hq. }
        { intros d Hd. cbn [st3 heap] in Hd. heap_cases Hd. by injection Hd as <-. }
        { intros a d Ha Hd. apply (Hfree3 a d); [|done].
          intros ->. apply HnxC1. by apply ctx_local_sub. }
        destruct (maintain_ok fuel (InL n red kn vn r C) (Node nx red Leaf k v Leaf) s4 nx eq_refl)
          as (s5 & T5 & Emaint & Hrt5 & Hrepr5 & Hkvs5 & Hsh5 & Hsync5 & Hal5 & Hrel5 &
              Hn5 & Hc5 & Hm5).
        { rewrite Hr4. cbn [st3 t_root]. by rewrite Hrt, !ptr_of_plug. }
        { exact Hrepr4. }
        { exact HndX. }
        { exact Hsync4. }
        { exact Hlocked4. }
        { intros a d Ha Hout Hd. rewrite (Hframe4 a Hout) in Hd. apply (Hfree3 a d); [|done].
          intros ->. by apply HnxC1. }
        { exact Hal4. }
        { cbn [ctx_depth height] in *. lia. }
        destruct (unlockArea_spec s5 Hal5)
          as (s6 & Earea & Hl6 & Hn6 & Hr6 & Hc6 & Hm6 & Hrel6 & Hclr6).
        assert (Hq6 : quiescent s6) by by eapply quiescent_after_unlockArea.
        assert (Hdom : forall a, is_Some (heap st3 !! a) -> is_Some (heap s6 !! a)).
        { intros a Ha. apply (heap_rel_dom _ _ _ _ Hrel6), (heap_rel_dom _ _ _ _ Hrel5).
          by apply (heap_rel_dom _ _ _ _ Hrel4). }
        assert (Equiet1 : unlock (Some nx) s6 = Ret false s6).
        { apply unlock_quiet; [done|]. apply Hdom. cbn [st3 heap]. mono_goal. }
        assert (Equiet2 : unlock (Some n) s6 = Ret false s6).
        { apply unlock_quiet; [done|]. apply Hdom. cbn [st3 heap]. mono_goal. }
        exists T5, true, s6.
        split; [igo_with ltac:(first [rewrite Elock | rewrite Emaint | rewrite Earea
                                      | rewrite Equiet1 | rewrite Equiet2]);
                reflexivity|].
        split; [by rewrite Hr6|].
        split; [eapply repr_flag_changed; [|exact Hrepr5];
                eapply heap_rel_mono; [apply flag_cleared_changed|exact Hrel6]|].
        split; [rewrite Hkvs5, kvs_plug, Hput; cbn [lkvs rkvs kvs]; by list_norm|].
        split; [rewrite Hsh5; cbn [tree_insert]; by rewrite Hcmp|].
        split; [by rewrite Hhas|].
        split; [done|].
        split.
        { assert (Hf3 : forall b : addr, (S nx <= b)%nat -> heap st3 !! b = None).
          { intros b Hb. cbn [st3 heap]. rewrite !lookup_insert_ne by lia.
            apply Hfresh2. lia. }
          pose proof (heap_rel_fresh _ _ _ _ Hrel4 Hf3) as Hf4.
          pose proof (heap_rel_fresh _ _ _ _ Hrel5 Hf4) as Hf5.
          pose proof (heap_rel_fresh _ _ _ _ Hrel6 Hf5) as Hf6.
          intros a Ha. rewrite Hn6, Hn5, Hn4 in Ha. by apply Hf6. }
        split; [done|].
        split; [by rewrite Hm6, Hm5, Hm4|].
        split; [by rewrite Hc6, Hc5, Hc4|].
        intros a Ha. apply Hdom. cbn [st3 heap]. apply Hmono in Ha. mono_goal. done.
      * exists (plug C (Node n black (Node nx red Leaf k v Leaf) kn vn r)), true. eexists.
        split; [igo_with ltac:(first [key_step | rewrite Hne | rewrite Hlt' | rewrite Hgt']);
                reflexivity|].
        hproj.
        split; [by rewrite Hrt, !ptr_of_plug|].
        split; [apply repr_plug; split; repr_goal|].
        split; [by rewrite kvs_plug, Hput|].
        split; [cbn [tree_insert]; by rewrite Hcmp|].
        split; [by rewrite Hhas|].
        split.
        { intros a d Ha. cbn [heap] in Ha.
          heap_cases Ha; [by injection Ha as <-..|apply (Hquiet2 a d Ha); addr_ne]. }
        split.
        { intros a Ha. cbn [heap next] in *.
          rewrite !lookup_insert_ne by lia. apply Hfresh2. lia. }
        split; [done|]. split; [done|]. split; [done|].
        intros a Ha. apply Hmono in Ha. mono_goal. done.
    + (* go left *)
      destruct (IHl (InL n c kn vn r C) fuel k v (mkState h2 nx rt cnt [] ma) l0 eq_refl)
        as (T' & new & s' & E & Hrt' & Hrepr' & Hkvs' & Hsh' & Hnew' & Hq' & Hfr' & Hla' &
            Hm' & Hc' & Hmono');
        [done|exact Hrepr2|exact Hnd|exact Hsl|exact Hsync2|exact Hfresh2|done
        |cbn [ctx_depth height] in *; lia|].
      assert (Equiet : unlock (Some n) s' = Ret false s').
      { apply unlock_quiet; [done|]. apply Hmono'. cbn. by eexists. }
      exists T', new, s'.
      split; [igo_with ltac:(first [key_step | rewrite Hne | rewrite Hlt' | rewrite Hgt'
                                    | rewrite E | rewrite Equiet]);
              reflexivity|].
      split; [done|]. split; [done|].
      split; [rewrite Hkvs', Hput; cbn [lkvs rkvs]; by list_norm|].
      split; [rewrite Hsh'; cbn [tree_insert next]; by rewrite Hcmp|].
      split; [by rewrite Hhas|].
      split; [done|]. split; [done|]. split; [done|]. split; [done|]. split; [done|].
      intros a Ha. apply Hmono'. cbn. by apply Hmono.
  - (* the key is larger *)
    assert (Hne : (kn =? k) = false) by (apply Z.eqb_neq; lia).
    assert (Hlt' : (k <? kn) = false) by (apply Z.ltb_ge; lia).
    assert (Hgt' : (kn <? k) = true) by (apply Z.ltb_lt; lia).
    assert (Hcmp : (k ?= kn) = Gt) by by apply Z.compare_gt_iff.
    assert (Hkl : has_key k (kvs l) = false).
    { apply has_key_below. intros q Hq. apply Hlt in Hq. lia. }
    assert (Hput : kvs (Node n c l kn v r) = kvs (Node n c l kn v r) ->
              kv_put k v (kvs (Node n c l kn vn r)) = kvs l ++ (kn, vn) :: kv_put k v (kvs r)).
    { intros _. cbn [kvs]. apply kv_put_app_gt; [|lia]. intros q Hq. apply Hlt in Hq. lia. }
    specialize (Hput eq_refl).
    assert (Hhas : has_key k (kvs (Node n c l kn vn r)) = has_key k (kvs r)).
    { cbn [kvs]. rewrite has_key_app. cbn [has_key existsb fst].
      fold (has_key k (kvs r)). by rewrite Hne, Hkl. }
    destruct r as [|r0 cr rl kr vr rr].
    + (* no right child: attach *)
      assert (HnxC : nx ∉ addrs_ctx C).
      { intros Hin. destruct (repr_ctx_in_allocated _ _ _ _ Hctx2 Hin) as [d Hd].
        rewrite Hfresh2 in Hd by lia. done. }
      assert (Hnxl : nx ∉ addrs l).
      { intros Hin. destruct (repr_in_allocated _ _ _ _ Hl2 Hin) as [d Hd].
        rewrite Hfresh2 in Hd by lia. done. }
      destruct c.
      * (* under a red node: take the local area and rebalance *)
        lazymatch goal with
        | |- exists T' new s', ?L = _ /\ _ =>
          let E := fresh "E" in
          eassert (E : L = _);
          [igo_with ltac:(first [key_step | rewrite Hne | rewrite Hlt' | rewrite Hgt']);
           reflexivity
          |rewrite E; clear E]
        end.
        lazymatch goal with
        | |- context [lockInsert (Some nx) ?s3] => set (st3 := s3)
        end.
        assert (Hfree3 : forall a d, a <> nx -> heap st3 !! a = Some d -> n_flag d = false).
        { intros a d Hne3 Ha. cbn [st3 heap] in Ha.
          heap_cases Ha; [by injection Ha as <-|].
          by destruct (Hquiet2 a d Ha) as [Hf _]; [addr_ne|]. }
        assert (HndX : NoDup (addrs (plug (InR n red l kn vn C) (Node nx red Leaf k v Leaf)))).
        { apply NoDup_plug. cbn [addrs_ctx addrs app]. apply NoDup_cons. split.
          - apply not_elem_of_app. split; [by apply not_elem_of_app|].
            by intros Hy%list_elem_of_singleton.
          - apply NoDup_app. split; [|split].
            + apply NoDup_app. split; [done|]. split; [|done].
              intros y Hy HyC. apply (Hdisj y HyC). right. apply elem_of_app. by left.
            + intros y Hy Hy'. apply list_elem_of_singleton in Hy' as ->.
              apply elem_of_app in Hy as [Hy|Hy]; done.
            + apply NoDup_singleton. }
        assert (HnxC1 : nx ∉ addrs_ctx (InR n red l kn vn C)).
        { cbn [addrs_ctx]. apply not_elem_of_cons. split; [done|]. by apply not_elem_of_app. }
        destruct (lockInsert_plug (InR n red l kn vn C) (Node nx red Leaf k v Leaf) st3 nx eq_refl)
          as (s4 & Elock & Hrepr4 & Hsync4 & Hal4 & Hrel4 & Hlocked4 & Hframe4 &
              Hn4 & Hr4 & Hc4 & Hm4).
        { cbn [st3 heap]. apply repr_plug; split; repr_goal. }
        { exact HndX. }
        { intros a d Ha. cbn [st3 heap area_l app] in *.
          heap_cases Ha.
          - by injection Ha as <-.
          - injection Ha as <-. cbn. repeat split; try done. intros _. by left.
          - destruct (Hquiet2 a d Ha) as (Hf & ? & ?); [addr_ne|]. repeat split; try done.
            rewrite Hf. done. }
        { intros q Hq. cbn [st3 area_l] in Hq. by apply elem_of_nil in Hq. }
        { intros d Hd. cbn [st3 heap] in Hd. heap_cases Hd. by injection Hd as <-. }
        { intros a d Ha Hd. apply (Hfree3 a d); [|done].
          intros ->. apply HnxC1. by apply ctx_local_sub. }
        destruct (maintain_ok fuel (InR n red l kn vn C) (Node nx red Leaf k v Leaf) s4 nx eq_refl)
          as (s5 & T5 & Emaint & Hrt5 & Hrepr5 & Hkvs5 & Hsh5 & Hsync5 & Hal5 & Hrel5 &
              Hn5 & Hc5 & Hm5).
        { rewrite Hr4. cbn [st3 t_root]. by rewrite Hrt, !ptr_of_plug. }
        { exact Hrepr4. }
        { exact HndX. }
        { exact Hsync4. }
        { exact Hlocked4. }
        { intros a d Ha Hout Hd. rewrite (Hframe4 a Hout) in Hd. apply (Hfree3 a d); [|done].
          intros ->. by apply HnxC1. }
        { exact Hal4. }
        { cbn [ctx_depth height] in *. lia. }
        destruct (unlockArea_spec s5 Hal5)
          as (s6 & Earea & Hl6 & Hn6 & Hr6 & Hc6 & Hm6 & Hrel6 & Hclr6).
        assert (Hq6 : quiescent s6) by by eapply quiescent_after_unlockArea.
        assert (Hdom : forall a, is_Some (heap st3 !! a) -> is_Some (heap s6 !! a)).
        { intros a Ha. apply (heap_rel_dom _ _ _ _ Hrel6), (heap_rel_dom _ _ _ _ Hrel5).
          by apply (heap_rel_dom _ _ _ _ Hrel4). }
        assert (Equiet1 : unlock (Some nx) s6 = Ret false s6).
        { apply unlock_quiet; [done|]. apply Hdom. cbn [st3 heap]. mono_goal. }
        assert (Equiet2 : unlock (Some n) s6 = Ret false s6).
        { apply unlock_quiet; [done|]. apply Hdom. cbn [st3 heap]. mono_goal. }
        exists T5, true, s6.
        split; [igo_with ltac:(first [rewrite Elock | rewrite Emaint | rewrite Earea
                                      | rewrite Equiet1 | rewrite Equiet2]);
                reflexivity|].
        split; [by rewrite Hr6|].
        split; [eapply repr_flag_changed; [|exact Hrepr5];
                eapply heap_rel_mono; [apply flag_cleared_changed|exact Hrel6]|].
        split; [rewrite Hkvs5, kvs_plug, Hput; cbn [lkvs rkvs kvs]; by list_norm|].
        split; [rewrite Hsh5; cbn [tree_insert]; by rewrite Hcmp|].
        split; [by rewrite Hhas|].
        split; [done|].
        split.
        { assert (Hf3 : forall b : addr, (S nx <= b)%nat -> heap st3 !! b = None).
          { intros b Hb. cbn [st3 heap]. rewrite !lookup_insert_ne by lia.
            apply Hfresh2. lia. }
          pose proof (heap_rel_fresh _ _ _ _ Hrel4 Hf3) as Hf4.
          pose proof (heap_rel_fresh _ _ _ _ Hrel5 Hf4) as Hf5.
          pose proof (heap_rel_fresh _ _ _ _ Hrel6 Hf5) as Hf6.
          intros a Ha. rewrite Hn6, Hn5, Hn4 in Ha. by apply Hf6. }
        split; [done|].
        split; [by rewrite Hm6, Hm5, Hm4|].
        split; [by rewrite Hc6, Hc5, Hc4|].
        intros a Ha. apply Hdom. cbn [st3 heap]. apply Hmono in Ha. mono_goal. done.
      * exists (plug C (Node n black l kn vn (Node nx red Leaf k v Leaf))), true. eexists.
        split; [igo_with ltac:(first [key_step | rewrite Hne | rewrite Hlt' | rewrite Hgt']);
                reflexivity|].
        hproj.
        split; [by rewrite Hrt, !ptr_of_plug|].
        split; [apply repr_plug; split; repr_goal|].
        split; [by rewrite kvs_plug, Hput|].
        split; [cbn [tree_insert]; by rewrite Hcmp|].
        split; [by rewrite Hhas|].
        split.
        { intros a d Ha. cbn [heap] in Ha.
          heap_cases Ha; [by injection Ha as <-..|apply (Hquiet2 a d Ha); addr_ne]. }
        split.
        { intros a Ha. cbn [heap next] in *.
          rewrite !lookup_insert_ne by lia. apply Hfresh2. lia. }
        split; [done|]. split; [done|]. split; [done|].
        intros a Ha. apply Hmono in Ha. mono_goal. done.
    + (* go right *)
      destruct (IHr (InR n c l kn vn C) fuel k v (mkState h2 nx rt cnt [] ma) r0 eq_refl)
        as (T' & new & s' & E & Hrt' & Hrepr' & Hkvs' & Hsh' & Hnew' & Hq' & Hfr' & Hla' &
            Hm' & Hc' & Hmono');
        [done|exact Hrepr2|exact Hnd|exact Hsr|exact Hsync2|exact Hfresh2|done
        |cbn [ctx_depth height] in *; lia|].
      assert (Equiet : unlock (Some n) s' = Ret false s').
      { apply unlock_quiet; [done|]. apply Hmono'. cbn. by eexists. }
      exists T', new, s'.
      split; [igo_with ltac:(first [key_step | rewrite Hne | rewrite Hlt' | rewrite Hgt'
                                    | rewrite E | rewrite Equiet]);
              reflexivity|].
      split; [done|]. split; [done|].
      split; [rewrite Hkvs', Hput; cbn [lkvs rkvs]; by list_norm|].
      split; [rewrite Hsh'; cbn [tree_insert next]; by rewrite Hcmp|].
      split; [by rewrite Hhas|].
      split; [done|]. split; [done|]. split; [done|]. split; [done|]. split; [done|].
      intros a Ha. apply Hmono'. cbn. by apply Hmono.
Qed.

(** ** The public operations on a search tree at rest *)

Lemma sorted_keys_nodup (l : list (Z * Z)) : StronglySorted kv_lt l -> NoDup (l.*1).
Proof.
  induction l as [|[k v] l IH]; intros Hs; cbn; [apply NoDup_nil_2|].
  apply StronglySorted_cons in Hs as [Hall Hs]. apply NoDup_cons. split; [|by apply IH].
  intros Hin. apply list_elem_of_fmap in Hin as ([k' v'] & Hk & Hin). cbn in Hk. subst k'.
  pose proof (proj1 (Forall_forall _ _) Hall _ Hin) as Hq. unfold kv_lt in Hq. cbn in Hq. lia.
Qed.

Lemma repr_keys_perm h par t :
  repr h par t ->
  (fun a => default 0 (n_key <$> h !! a)) <$> addrs t ≡ₚ (kvs t).*1.
Proof.
  revert par. induction t as [|a c l IHl k v r IHr]; intros par; cbn [repr addrs kvs]; [done|].
  intros [(d & Hd & _ & _ & _ & _ & Hk & _) [Hl Hr]].
  rewrite fmap_cons, !fmap_app, fmap_cons. cbn [fst].
  rewrite (IHl _ Hl), (IHr _ Hr), Hd. cbn. rewrite Hk.
  by rewrite Permutation_middle.
Qed.

(** In a heap that holds a search tree no node occurs twice. *)
Lemma repr_sorted_nodup h par t :
  repr h par t -> StronglySorted kv_lt (kvs t) -> NoDup (addrs t).
Proof.
  intros Hr Hs. apply (NoDup_fmap_1 (fun a => default 0 (n_key <$> h !! a))).
  rewrite (repr_keys_perm _ _ _ Hr). by apply sorted_keys_nodup.
Qed.

Lemma quiescent_sync s : quiescent s -> sync_ok (heap s) [].
Proof.
  intros Hq a d Ha. destruct (Hq a d Ha) as (Hf & ? & ?). repeat split; try done.
  rewrite Hf. done.
Qed.

Lemma length_kvs t : length (kvs t) = length (addrs t).
Proof.
  induction t as [|a c l IHl k v r IHr]; [done|].
  cbn. rewrite !length_app. cbn. lia.
Qed.

(** [Insert] on a search tree at rest: the tree that results holds the
    bindings of the old one with the new binding put in its place, and it
    is again at rest. *)
Lemma Insert_ok (fuel : nat) (k v : Z) (s : state) (t : tree) :
  tree_ok s t ->
  (2 * height t + 1 <= fuel)%nat ->
  exists s' T',
    Insert fuel k v s = Ret tt s' /\
    tree_ok s' T' /\
    kvs T' = kv_put k v (kvs t) /\
    t_count s' = (if is_nil (ptr_of t) then t_count s
                  else if has_key k (kvs t) then t_count s
                  else wrap64 (t_count s + 1)) /\
    area_m s' = area_m s /\
    T' = tree_insert (next s) Top t k v.
Proof.
  intros [[Hrt Hrepr Hnd Hq Hcnt] Hsort Hfresh] Hfuel.
  destruct s as [h nx rt cnt la ma]. cbn [heap area_l next t_root t_count area_m] in *.
  destruct t as [|n c l kn vn r].
  - (* the empty tree *)
    cbn [ptr_of] in Hrt. subst rt.
    exists (mkState (<[nx := mkNode red None None None k v false 0 false]> h) (S nx) (Some nx)
              cnt la ma), (Node nx red Leaf k v Leaf).
    split; [done|].
    split; [|done].
    split; [|repeat constructor|].
    + split; cbn [heap t_root t_count ptr_of repr addrs app]; [done| |apply NoDup_singleton| |done].
      * split; [|done]. eexists. split; [apply lookup_insert_eq|done].
      * intros a d Ha. cbn [heap] in Ha.
        destruct (decide (nx = a)) as [<-|Hne].
        -- rewrite lookup_insert_eq in Ha. by injection Ha as <-.
        -- rewrite lookup_insert_ne in Ha by done. by eapply Hq.
    + intros a Ha. cbn [heap next] in *. rewrite lookup_insert_ne by lia. apply Hfresh. cbn. lia.
  - (* a root *)
    cbn [ptr_of] in Hrt. subst rt.
    destruct fuel as [|fuel]; [lia|].
    destruct (insert_ok (Node n c l kn vn r) Top (S fuel) k v (mkState h nx (Some n) cnt [] ma) n eq_refl)
      as (T' & new & s' & E & Hrt' & Hrepr' & Hkvs' & Hsh' & Hnew' & Hq' & Hfr' & Hla' &
          Hm' & Hc' & Hmono');
      [done|done|done|done|by apply (quiescent_sync (mkState h nx (Some n) cnt [] ma))|done|done
      |cbn [ctx_depth]; lia|].
    cbn [lkvs rkvs app] in Hkvs'. rewrite app_nil_r in Hkvs'.
    assert (Hsort' : StronglySorted kv_lt (kvs T')) by (rewrite Hkvs'; by apply kv_put_sorted).
    assert (Hroot' : t_root s' <> None).
    { rewrite Hrt'. destruct T'; [|done].
      pose proof (kv_put_elem k v (kvs (Node n c l kn vn r))) as Hin.
      rewrite <- Hkvs' in Hin. by apply elem_of_nil in Hin. }
    destruct s' as [h' nx' rt' cnt' la' ma'].
    cbn [heap area_l next t_root t_count area_m] in *. subst la' ma' cnt'.
    destruct new.
    + exists (mkState h' nx' rt' (wrap64 (cnt + 1)) [] ma), T'.
      split.
      { unfold Insert. hgo_with ltac:(rewrite E). reflexivity. }
      split; [|split; [done|]].
      * split; [|done|done]. split; cbn [heap t_root t_count]; try done.
        by eapply repr_sorted_nodup.
      * cbn [ptr_of is_nil t_count area_m]. split; [|done].
        symmetry in Hnew'. apply negb_true_iff in Hnew'. by rewrite Hnew'.
    + exists (mkState h' nx' rt' cnt [] ma), T'.
      split.
      { unfold Insert. hgo_with ltac:(rewrite E). reflexivity. }
      split; [|split; [done|]].
      * split; [|done|done]. split; cbn [heap t_root t_count]; try done.
        by eapply repr_sorted_nodup.
      * cbn [ptr_of is_nil t_count area_m]. split; [|done].
        symmetry in Hnew'. apply negb_false_iff in Hnew'. by rewrite Hnew'.
Qed.

(** ** The red-black invariants under insertion *)

Lemma plug_red_black (C : ctx) :
  forall X,
    is_red_black (plug C X) <->
    is_red_black X /\ ctx_red_black C (black_height X) /\
    (ctx_red C = true -> red_root X = false).
Proof.
  unfold is_red_black.
  induction C as [|a c k v sb up IH|a c sb k v up IH]; intros X; cbn [plug].
  - cbn. naive_solver.
  - rewrite IH. cbn [no_red_red balanced black_height ctx_red_black ctx_red red_root].
    unfold is_red_black.
    destruct c; destruct (ctx_red up); cbn; split; intros; destruct_and?;
      repeat split; try done; try congruence; naive_solver.
  - rewrite IH. cbn [no_red_red balanced black_height ctx_red_black ctx_red red_root].
    unfold is_red_black.
    destruct c; destruct (ctx_red up); cbn; split; intros; destruct_and?;
      repeat split; try done; try congruence; naive_solver.
Qed.

Lemma paint_black_red_black (u : tree) :
  red_root u = true -> is_red_black u ->
  is_red_black (paint black u) /\ black_height (paint black u) = S (black_height u) /\
  red_root (paint black u) = false.
Proof.
  destruct u as [|a [] l k v r]; [done| |done]. intros _ [Hn Hb].
  cbn in *. unfold is_red_black. cbn. naive_solver.
Qed.

Ltac rb_crush :=
  unfold is_red_black in *;
  cbn [no_red_red balanced black_height red_root paint Nat.add ctx_red_black ctx_red] in *;
  destruct_and?;
  repeat match goal with
  | H : red = red -> _ |- _ => specialize (H eq_refl)
  | H : black = red -> _ |- _ => clear H
  end;
  destruct_and?;
  repeat first [split | intros _ | intro];
  try done; try lia; try congruence.

(** [rebalance] mends a red node below a red parent. *)
Lemma rebalance_red_black (n : nat) :
  forall C X,
    (ctx_depth C <= n)%nat ->
    is_red_black X ->
    ctx_red_black C (black_height X) ->
    is_red_black (rebalance C X).
Proof.
  induction n as [n IH] using lt_wf_ind. intros C X Hn HX HC.
  assert (Hplug : (ctx_red C = true -> red_root X = false) -> is_red_black (plug C X)).
  { intros Hr. apply plug_red_black. done. }
  destruct X as [|x [] xl kx vx xr].
  { destruct C; apply Hplug; done. }
  2: { destruct C; apply Hplug; done. }
  destruct C as [|p [] kp vp sb up|p [] sb kp vp up]; [done| |by apply Hplug| |by apply Hplug];
    (clear Hplug; cbn [ctx_red_black] in HC; destruct HC as (Hsb & Hbh & Hred & Hup);
     destruct (Hred eq_refl) as [Hrsb Hrup]; clear Hred; cbn [Nat.add] in Hup;
     (destruct up as [|g cg kg vg u up|g cg u kg vg up]; [cbn [rebalance]; rb_crush|..]);
     (assert (cg = black) as -> by (by destruct cg));
     cbn [ctx_red_black] in Hup; destruct Hup as (Hu & Hbu & _ & Hup);
     cbn [rebalance];
     (destruct (red_root u) eqn:Hru;
      [destruct (paint_black_red_black u Hru Hu) as (Hpu & Hbpu & Hrpu);
       apply (IH (ctx_depth up)); [cbn [ctx_depth] in Hn; lia|done|..]
      |apply plug_red_black; split; [|split; [|done]]]);
     try (rb_crush; fail);
     cbn [black_height Nat.add] in *; try rewrite Hbpu; try rewrite Hbu; try rewrite Hbh;
     try done).
Qed.

Lemma tree_insert_red_black (nx : addr) (k v : Z) (N : tree) :
  forall C,
    is_red_black N ->
    ctx_red_black C (black_height N) ->
    (ctx_red C = true -> red_root N = false) ->
    is_red_black (tree_insert nx C N k v).
Proof.
  induction N as [|n c l IHl kn vn r IHr]; intros C HN HC Hred; cbn [tree_insert].
  - apply (rebalance_red_black (ctx_depth C)); [done|by rb_crush|done].
  - destruct (k ?= kn).
    + apply plug_red_black. split; [exact HN|]. split; [exact HC|exact Hred].
    + apply IHl.
      * by rb_crush.
      * destruct c, (ctx_red C) eqn:Hc; try (by specialize (Hred eq_refl)); by rb_crush.
      * destruct c; [|done]. intros _. by rb_crush.
    + apply IHr.
      * by rb_crush.
      * destruct c, (ctx_red C) eqn:Hc; try (by specialize (Hred eq_refl)); rb_crush.
        all: cbn [black_height Nat.add] in *;
          match goal with H : black_height _ = black_height _ |- _ => by rewrite <- H end.
      * destruct c; [|done]. intros _. by rb_crush.
Qed.

(** ** [check] on a tree at rest *)

Lemma check_ok (T : tree) :
  forall (fuel : nat) (par : ptr) (bc : Z) (s : state),
    repr (heap s) par T ->
    (forall a d, a ∈ addrs T -> heap s !! a = Some d -> n_flag d = false) ->
    (height T < fuel)%nat ->
    - 2 ^ 63 <= bc ->
    bc + Z.of_nat (height T) < 2 ^ 63 ->
    exists r,
      check fuel (ptr_of T) bc s = Ret r s /\
      (snd r = None <-> is_red_black T) /\
      (snd r = None -> fst r = bc + Z.of_nat (black_height T)).
Proof.
  induction T as [|a c l IHl k v r IHr]; intros fuel par bc s Hrepr Hfree Hfuel Hlo Hhi;
    (destruct fuel as [|fuel]; [lia|]).
  { exists (bc, None). split; [reflexivity|]. split; [by split|]. intros _. cbn. lia. }
  cbn [repr] in Hrepr. destruct Hrepr as ((d & Hd & Hc & Hl & Hr & Hp & Hk & Hv) & Hreprl & Hreprr).
  assert (Hf : n_flag d = false) by (apply (Hfree a d); [by left|done]).
  destruct d as [dc dl dr dp dk dv df dh dm].
  cbn [n_c n_left n_right n_parent n_key n_value n_flag] in *. subst dc dl dr dp dk dv df.
  cbn [height] in Hfuel, Hhi.
  set (bc' := match c with black => bc + 1 | red => bc end).
  assert (Hw : wrap64 (bc + 1) = bc + 1).
  { unfold wrap64, wrap. rewrite Z.mod_small; lia. }
  destruct (IHl fuel (Some a) bc' s Hreprl) as ((lc & le) & El & Hle & Hlc);
    [intros x dx Hx; apply Hfree; right; apply elem_of_app; by left
    |lia|unfold bc'; destruct c; lia|unfold bc'; destruct c; lia|].
  destruct (IHr fuel (Some a) bc' s Hreprr) as ((rc & re) & Er & Hre & Hrc);
    [intros x dx Hx; apply Hfree; right; apply elem_of_app; by right
    |lia|unfold bc'; destruct c; lia|unfold bc'; destruct c; lia|].
  cbn [fst snd] in *.
  pose proof (isRed_tree _ _ _ Hreprl) as HRl.
  pose proof (isRed_tree _ _ _ Hreprr) as HRr.
  assert (Hhead : check (S fuel) (Some a) bc s =
    (if color_eqb c red && (red_root l || red_root r)
     then Ret (0, Some ErrParentChildDoublRed) s
     else match le with
          | Some e => Ret (0, Some e) s
          | None =>
            match re with
            | Some e => Ret (0, Some e) s
            | None => if negb (lc =? rc) then Ret (0, Some ErrBlackHeightMisMatch) s
                      else Ret (lc, None) s
            end
          end)).
  { cbn [check ptr_of]. unfold flag_Load, left_of, right_of, isBlack, isRed at 1, c_of, load.
    unfold bc' in El, Er.
    destruct c;
      repeat (progress (cbn [bind orM ret is_nil n_c n_left n_right n_flag color_eqb andb
                             fst snd];
                        rewrite ?Hd, ?HRl, ?HRr, ?Hw, ?El, ?Er));
      [destruct (red_root l); cbn [orb]; [done|];
       repeat (progress (cbn [bind orM ret is_nil n_c n_left n_right n_flag color_eqb andb
                              fst snd];
                         rewrite ?Hd, ?HRl, ?HRr, ?Hw, ?El, ?Er));
       destruct (red_root r); [done|]|];
      repeat (progress (cbn [bind orM ret is_nil n_c n_left n_right n_flag color_eqb andb
                             fst snd];
                        rewrite ?Hd, ?HRl, ?HRr, ?Hw, ?El, ?Er));
      (destruct le; [done|]);
      repeat (progress (cbn [bind orM ret is_nil n_c n_left n_right n_flag color_eqb andb
                             fst snd];
                        rewrite ?Hd, ?HRl, ?HRr, ?Hw, ?El, ?Er));
      (destruct re; [done|]);
      by destruct (lc =? rc). }
  cbn [ptr_of]. rewrite Hhead. clear Hhead.
  destruct (color_eqb c red && (red_root l || red_root r)) eqn:Hbad.
  { eexists. split; [done|]. cbn [fst snd]. split; [|done]. split; [done|].
    intros [Hn _]. exfalso. cbn in Hn. apply andb_true_iff in Hbad as [Hcr Hor].
    destruct c; [|done]. destruct Hn as [Hn _]. destruct (Hn eq_refl) as [H1 H2].
    by rewrite H1, H2 in Hor. }
  assert (Hnrr : c = red -> red_root l = false /\ red_root r = false).
  { intros ->. cbn in Hbad. by apply orb_false_iff in Hbad. }
  destruct le as [e|].
  { eexists. split; [done|]. cbn [fst snd]. split; [|done]. split; [done|].
    intros HT. assert (Hl' : is_red_black l) by by rb_crush.
    apply Hle in Hl'. done. }
  destruct re as [e|].
  { eexists. split; [done|]. cbn [fst snd]. split; [|done]. split; [done|].
    intros HT. assert (Hr' : is_red_black r) by by rb_crush.
    apply Hre in Hr'. done. }
  specialize (Hlc eq_refl). specialize (Hrc eq_refl).
  destruct Hle as [Hle _], Hre as [Hre _]. specialize (Hle eq_refl). specialize (Hre eq_refl).
  destruct (lc =? rc) eqn:Hcmp; cbn [negb].
  - apply Z.eqb_eq in Hcmp. eexists. split; [done|]. cbn [fst snd]. split.
    + split; [|done]. intros _. destruct Hle, Hre.
      split; cbn [no_red_red balanced]; repeat split; try done; try (by apply Hnrr). lia.
    + intros _. rewrite Hlc. unfold bc'. cbn [black_height]. destruct c; lia.
  - apply Z.eqb_neq in Hcmp. eexists. split; [done|]. cbn [fst snd]. split; [|done].
    split; [done|]. intros [_ Hb]. cbn in Hb. destruct Hb as [Hb _]. lia.
Qed.

(** ** What the operations give to their callers *)

(** [Get] on a search tree at rest. *)
Lemma Get_ok (fuel : nat) (k : Z) (s : state) (t : tree) :
  tree_ok s t ->
  (height t < fuel)%nat ->
  exists r, Get fuel k s = Ret r s /\
            (forall v, (k, v) ∈ kvs t -> r = Some v) /\
            (has_key k (kvs t) = false -> r = None).
Proof.
  intros [[Hrt Hrepr Hnd Hq Hcnt] Hsort Hfresh] Hfuel.
  destruct (get_found t fuel None k s Hrepr Hnd Hsort) as (r & E & Hr); [|done|].
  { intros a Ha. destruct (repr_in_allocated _ _ _ _ Hrepr Ha) as [d Hd].
    exists d. split; [done|]. by destruct (Hq a d Hd) as (? & ? & ?). }
  exists r. split; [|done].
  destruct fuel as [|fuel]; [lia|].
  unfold Get, get_root. cbn [bind]. rewrite Hrt, E. done.
Qed.

Lemma fresh_from_lookup (s : state) (l : list (addr * RBTreeNode)) :
  map_to_list (heap s) = l ->
  Forall (fun p => (p.1 < next s)%nat) l ->
  fresh_from s.
Proof.
  intros <- Hall a Ha. destruct (heap s !! a) as [d|] eqn:E; [|done].
  apply elem_of_map_to_list in E.
  pose proof (proj1 (Forall_forall _ _) Hall _ E) as Hlt. cbn in Hlt. lia.
Qed.

(** The tree of the constructor. *)
Lemma NewRBTree_ok (k v : Z) : tree_ok (NewRBTree k v) (Node 0%nat red Leaf k v Leaf).
Proof.
  split; [split|..].
  - done.
  - cbn [repr]. split; [|done]. eexists. split; [apply lookup_singleton_eq|done].
  - apply NoDup_singleton.
  - intros a d Ha. cbn in Ha. apply lookup_singleton_Some in Ha as [<- <-]. done.
  - done.
  - cbn. repeat constructor.
  - intros a Ha. cbn in *. apply lookup_singleton_ne. lia.
Qed.

(** The three-node tree of the deletion tests. *)
Lemma tree_012_ok : tree_ok tree_012 shape_012.
Proof.
  split.
  - apply tree_012_at_rest.
  - cbn. repeat constructor.
  - eapply fresh_from_lookup; [vm_compute; reflexivity|].
    replace (next tree_012) with 3%nat by (vm_compute; reflexivity).
    repeat (apply Forall_cons_2; [cbn; lia|]). apply Forall_nil_2.
Qed.

(** A value is in a list of literals. *)
Ltac list_in := repeat first [apply list_elem_of_here | apply list_elem_of_further].

(** X1: [Get] finds the value bound to a key of a search tree at rest and
    leaves the state as it was: every reader count it raised on the way
    down is back at its old value. *)
Theorem Get_finds_binding (fuel : nat) (k v : Z) (s : state) (t : tree) :
  tree_ok s t ->
  (height t < fuel)%nat ->
  (k, v) ∈ kvs t ->
  Get fuel k s = Ret (Some v) s.
Proof.
  intros Hok Hfuel Hin. destruct (Get_ok fuel k s t Hok Hfuel) as (r & E & Hr & _).
  by rewrite E, (Hr v Hin).
Qed.

Lemma Get_finds_binding_witness : Get 3 2 tree_012 = Ret (Some 2) tree_012.
Proof.
  apply (Get_finds_binding 3 2 2 tree_012 shape_012).
  - apply tree_012_ok.
  - cbn. lia.
  - cbn. list_in.
Defined.

(** X2: [Get] of a key that a search tree at rest does not hold returns
    no value and leaves the state as it was. *)
Theorem Get_misses_absent_key (fuel : nat) (k : Z) (s : state) (t : tree) :
  tree_ok s t ->
  (height t < fuel)%nat ->
  has_key k (kvs t) = false ->
  Get fuel k s = Ret None s.
Proof.
  intros Hok Hfuel Hin. destruct (Get_ok fuel k s t Hok Hfuel) as (r & E & _ & Hr).
  by rewrite E, (Hr Hin).
Qed.

Lemma Get_misses_absent_key_witness : Get 3 7 tree_012 = Ret None tree_012.
Proof.
  apply (Get_misses_absent_key 3 7 tree_012 shape_012).
  - apply tree_012_ok.
  - cbn. lia.
  - reflexivity.
Defined.

Lemma height_le_kvs t : (height t <= length (kvs t))%nat.
Proof. rewrite length_kvs. apply height_le_size. Qed.

Lemma has_key_elem k l : has_key k l = true -> exists v, (k, v) ∈ l.
Proof.
  intros H. apply existsb_exists in H as ([k' v] & Hin & Hk). cbn in Hk.
  apply Z.eqb_eq in Hk as ->. exists v. by apply list_elem_of_In.
Qed.

Lemma kv_put_other_elem k v l k' v' :
  k' <> k -> (k', v') ∈ kv_put k v l <-> (k', v') ∈ l.
Proof.
  intros Hne. induction l as [|[k0 v0] l IH]; cbn [kv_put].
  - rewrite list_elem_of_singleton. split; [intros [= -> ->]; done|].
    intros H. by apply elem_of_nil in H.
  - destruct (k <? k0).
    + rewrite elem_of_cons. split; [intros [[= -> ->]|H]; done|by right].
    + destruct (Z.eqb_spec k k0) as [->|Hk].
      * rewrite !elem_of_cons. split; (intros [[= -> ->]|H]; [done|by right]).
      * rewrite !elem_of_cons, IH. done.
Qed.

Lemma has_key_put_other k v l k' :
  k' <> k -> has_key k' (kv_put k v l) = has_key k' l.
Proof.
  intros Hne. unfold has_key. induction l as [|[k0 v0] l IH]; cbn [kv_put existsb fst].
  - rewrite (proj2 (Z.eqb_neq k k')) by done. done.
  - destruct (k <? k0).
    + cbn [existsb fst]. rewrite (proj2 (Z.eqb_neq k k')) by done. done.
    + destruct (Z.eqb_spec k k0) as [->|Hk]; cbn [existsb fst].
      * rewrite (proj2 (Z.eqb_neq k0 k')) by done. done.
      * by rewrite IH.
Qed.

(** [Insert] with fuel counted against the number of bindings: the fuel
    that serves the insertion also serves a lookup or another insertion
    in the tree that results. *)
Lemma Insert_ok_size (fuel : nat) (k v : Z) (s : state) (t : tree) :
  tree_ok s t ->
  (2 * length (kvs t) + 3 <= fuel)%nat ->
  exists s' T',
    Insert fuel k v s = Ret tt s' /\
    tree_ok s' T' /\
    kvs T' = kv_put k v (kvs t) /\
    t_count s' = (if is_nil (ptr_of t) then t_count s
                  else if has_key k (kvs t) then t_count s
                  else wrap64 (t_count s + 1)) /\
    (height T' < fuel)%nat /\
    (2 * length (kvs T') + 1 <= fuel)%nat.
Proof.
  intros Hok Hfuel. pose proof (height_le_kvs t) as Hh.
  destruct (Insert_ok fuel k v s t Hok) as (s' & T' & E & Hok' & Hkvs & Hcnt & _); [lia|].
  exists s', T'. do 4 (split; [done|]).
  pose proof (height_le_kvs T') as Hh'. pose proof (kv_put_length k v (kvs t)) as Hlen.
  rewrite <- Hkvs in Hlen. lia.
Qed.

(** X3: [Insert] on a well-formed search tree at rest returns and leaves
    a well-formed search tree at rest whose bindings, in key order, are
    those of the old tree with the new binding put in its place. *)
Theorem Insert_keeps_search_tree (fuel : nat) (k v : Z) (s : state) (t : tree) :
  tree_ok s t ->
  (2 * height t + 1 <= fuel)%nat ->
  exists s' T',
    Insert fuel k v s = Ret tt s' /\
    tree_ok s' T' /\
    kvs T' = kv_put k v (kvs t).
Proof.
  intros Hok Hfuel.
  destruct (Insert_ok fuel k v s t Hok Hfuel) as (s' & T' & E & Hok' & Hkvs & _).
  by exists s', T'.
Qed.

Lemma Insert_keeps_search_tree_witness :
  exists s' T',
    Insert 5 7 70 tree_012 = Ret tt s' /\
    tree_ok s' T' /\
    kvs T' = kv_put 7 70 (kvs shape_012).
Proof.
  apply (Insert_keeps_search_tree 5 7 70 tree_012 shape_012).
  - apply tree_012_ok.
  - cbn. lia.
Defined.

(** X4: after [Insert(k, v)] on a well-formed search tree at rest,
    [Get(k)] returns [v]. *)
Theorem Insert_then_Get (fuel : nat) (k v : Z) (s : state) (t : tree) :
  tree_ok s t ->
  (2 * length (kvs t) + 3 <= fuel)%nat ->
  exists s', Insert fuel k v s = Ret tt s' /\ Get fuel k s' = Ret (Some v) s'.
Proof.
  intros Hok Hfuel.
  destruct (Insert_ok_size fuel k v s t Hok Hfuel)
    as (s' & T' & E & Hok' & Hkvs & _ & Hh & _).
  exists s'. split; [done|].
  destruct (Get_ok fuel k s' T' Hok' Hh) as (r & Eg & Hr & _).
  rewrite Eg, (Hr v); [done|]. rewrite Hkvs. apply kv_put_elem.
Qed.

Lemma Insert_then_Get_witness :
  exists s', Insert 9 7 70 tree_012 = Ret tt s' /\ Get 9 7 s' = Ret (Some 70) s'.
Proof.
  apply (Insert_then_Get 9 7 70 tree_012 shape_012).
  - apply tree_012_ok.
  - cbn. lia.
Defined.

(** X5: [Insert] into a tree that is not empty adds one to [count], with
    Go's wrap-around, when the key is new, and leaves [count] alone when
    the key is already there. *)
Theorem Insert_counts_new_keys (fuel : nat) (k v : Z) (s : state) (t : tree) :
  tree_ok s t ->
  t <> Leaf ->
  (2 * height t + 1 <= fuel)%nat ->
  exists s',
    Insert fuel k v s = Ret tt s' /\
    t_count s' = if has_key k (kvs t) then t_count s else wrap64 (t_count s + 1).
Proof.
  intros Hok Hne Hfuel.
  destruct (Insert_ok fuel k v s t Hok Hfuel) as (s' & T' & E & _ & _ & Hcnt & _).
  exists s'. split; [done|]. by destruct t.
Qed.

Lemma Insert_counts_new_keys_witness :
  exists s',
    Insert 5 7 70 tree_012 = Ret tt s' /\
    t_count s' = if has_key 7 (kvs shape_012) then t_count tree_012
                 else wrap64 (t_count tree_012 + 1).
Proof.
  apply (Insert_counts_new_keys 5 7 70 tree_012 shape_012).
  - apply tree_012_ok.
  - discriminate.
  - cbn. lia.
Defined.

(** X6: [Insert(k, v)] does not disturb the other keys: for a key other
    than [k], [Get] returns after the insertion what it returned before. *)
Theorem Insert_keeps_other_keys (fuel : nat) (k v k' : Z) (s : state) (t : tree) :
  tree_ok s t ->
  (2 * length (kvs t) + 3 <= fuel)%nat ->
  k' <> k ->
  exists s' r,
    Insert fuel k v s = Ret tt s' /\
    Get fuel k' s = Ret r s /\
    Get fuel k' s' = Ret r s'.
Proof.
  intros Hok Hfuel Hne. pose proof (height_le_kvs t) as Hht.
  destruct (Insert_ok_size fuel k v s t Hok Hfuel)
    as (s' & T' & E & Hok' & Hkvs & _ & Hh & _).
  destruct (Get_ok fuel k' s t Hok) as (r & Eg & Hr & Hr0); [lia|].
  destruct (Get_ok fuel k' s' T' Hok' Hh) as (r' & Eg' & Hr' & Hr0').
  exists s', r. split; [done|]. split; [done|]. rewrite Eg'. f_equal.
  destruct (has_key k' (kvs t)) eqn:Hk.
  - destruct (has_key_elem _ _ Hk) as (v' & Hin).
    rewrite (Hr v' Hin). apply Hr'. rewrite Hkvs. by apply kv_put_other_elem.
  - rewrite (Hr0 eq_refl). apply Hr0'. rewrite Hkvs. by rewrite has_key_put_other.
Qed.

Lemma Insert_keeps_other_keys_witness :
  exists s' r,
    Insert 9 7 70 tree_012 = Ret tt s' /\
    Get 9 2 tree_012 = Ret r tree_012 /\
    Get 9 2 s' = Ret r s'.
Proof.
  apply (Insert_keeps_other_keys 9 7 70 2 tree_012 shape_012).
  - apply tree_012_ok.
  - cbn. lia.
  - lia.
Defined.

(** X7: two insertions of the same key: the second value is the one that
    [Get] returns, and the second insertion leaves [count] as the first
    one left it. *)
Theorem Insert_twice_overwrites (fuel : nat) (k v1 v2 : Z) (s : state) (t : tree) :
  tree_ok s t ->
  (2 * length (kvs t) + 3 <= fuel)%nat ->
  exists s1 s2,
    Insert fuel k v1 s = Ret tt s1 /\
    Insert fuel k v2 s1 = Ret tt s2 /\
    Get fuel k s2 = Ret (Some v2) s2 /\
    t_count s2 = t_count s1.
Proof.
  intros Hok Hfuel.
  destruct (Insert_ok_size fuel k v1 s t Hok Hfuel)
    as (s1 & T1 & E1 & Hok1 & Hkvs1 & _ & Hh1 & Hlen1).
  pose proof (height_le_kvs T1) as Hht1.
  destruct (Insert_ok fuel k v2 s1 T1 Hok1) as (s2 & T2 & E2 & Hok2 & Hkvs2 & Hcnt2 & _); [lia|].
  exists s1, s2. split; [done|]. split; [done|].
  assert (Hhas : has_key k (kvs T1) = true) by (rewrite Hkvs1; apply has_key_put).
  split.
  - pose proof (height_le_kvs T2) as Hht2.
    pose proof (kv_put_length_has k v2 (kvs T1) (ok_sorted _ _ Hok1)) as Hlen2.
    rewrite <- Hkvs2, Hhas in Hlen2.
    destruct (Get_ok fuel k s2 T2 Hok2) as (r & Eg & Hr & _); [lia|].
    rewrite Eg, (Hr v2); [done|]. rewrite Hkvs2. apply kv_put_elem.
  - rewrite Hcnt2, Hhas. by destruct (is_nil (ptr_of T1)).
Qed.

Lemma Insert_twice_overwrites_witness :
  exists s1 s2,
    Insert 9 7 70 tree_012 = Ret tt s1 /\
    Insert 9 7 71 s1 = Ret tt s2 /\
    Get 9 7 s2 = Ret (Some 71) s2 /\
    t_count s2 = t_count s1.
Proof.
  apply (Insert_twice_overwrites 9 7 70 71 tree_012 shape_012).
  - apply tree_012_ok.
  - cbn. lia.
Defined.

(** ** The writer flag *)

(** X8: [lock] followed by [unlock] on a free node without readers: both
    succeed, the flag is held in between, and the state ends as it
    began. *)
Theorem lock_then_unlock_restores (s : state) (a : addr) (d : RBTreeNode) :
  heap s !! a = Some d ->
  n_flag d = false ->
  n_hpflag d <= 0 ->
  exists s1,
    lock (Some a) s = Ret true s1 /\
    islock (Some a) s1 = Ret true s1 /\
    unlock (Some a) s1 = Ret true s.
Proof.
  intros H Hf Hh. eexists. split; [by apply lock_takes_free_node|].
  assert (Hl : heap (with_heap (<[a := with_flag true d]> (heap s)) s) !! a
               = Some (with_flag true d)) by apply lookup_insert_eq.
  split.
  - unfold islock, flag_Load, load. cbn [bind]. by rewrite Hl.
  - rewrite (unlock_spec _ _ _ Hl). cbn [n_flag with_flag]. f_equal.
    destruct s as [h nx rt cnt la ma]. cbn [heap with_heap next t_root t_count area_l area_m] in *.
    f_equal. rewrite insert_insert_eq. apply insert_id. rewrite H. f_equal.
    destruct d. cbn in *. by subst.
Qed.

Lemma lock_then_unlock_restores_witness :
  exists s1,
    lock (Some 0%nat) (NewRBTree 1 1) = Ret true s1 /\
    islock (Some 0%nat) s1 = Ret true s1 /\
    unlock (Some 0%nat) s1 = Ret true (NewRBTree 1 1).
Proof.
  apply (lock_then_unlock_restores (NewRBTree 1 1) 0%nat
           (mkNode red None None None 1 1 false 0 false)).
  - reflexivity.
  - reflexivity.
  - simpl. lia.
Defined.

(** ** Waiting for a writer *)

Lemma get_conflict (fuel : nat) (k : Z) (s : state) (a : addr) (d : RBTreeNode) :
  heap s !! a = Some d -> n_flag d = true ->
  get (S fuel) (Some a) k s = Ret (None, false) s.
Proof.
  intros H Hf. cbn [get is_nil]. unfold islock, flag_Load, load. cbn [bind]. by rewrite H, Hf.
Qed.

(** X9: while a writer holds the root, [Get] does not return: every
    attempt reports a conflict, the loop sleeps and tries again, and the
    state stays as it is.  With any fuel the run ends in [Timeout]. *)
Theorem Get_waits_for_held_root (fuel : nat) (k : Z) (s : state) (a : addr) (d : RBTreeNode) :
  t_root s = Some a ->
  heap s !! a = Some d ->
  n_flag d = true ->
  Get fuel k s = Timeout.
Proof.
  intros Hrt H Hf. destruct fuel as [|fuel]; [unfold Get, get_root; cbn [bind]; by rewrite Hrt|].
  assert (Hloop : forall attempts, Get_loop attempts (S fuel) k (None, false) s = Timeout).
  { induction attempts as [|n IH]; [done|].
    cbn [Get_loop snd]. unfold sleep, get_root. cbn [bind ret]. rewrite Hrt.
    by rewrite (get_conflict fuel k s a d H Hf). }
  unfold Get, get_root. cbn [bind]. rewrite Hrt, (get_conflict fuel k s a d H Hf).
  apply Hloop.
Qed.

Lemma Get_waits_for_held_root_witness : Get 5 1 tree_busy_root = Timeout.
Proof.
  apply (Get_waits_for_held_root 5 1 tree_busy_root 0%nat
           (mkNode red None None None 1 1 true 3 false)).
  - reflexivity.
  - reflexivity.
  - reflexivity.
Defined.

Lemma insert_conflict (fuel : nat) (k v : Z) (s : state) (a : addr) (d : RBTreeNode) :
  heap s !! a = Some d -> n_flag d = true ->
  insert (S fuel) (Some a) k v s = Ret (false, false) s.
Proof.
  intros H Hf. cbn [insert]. rewrite bind_eq, (lock_spec _ _ _ H), Hf. done.
Qed.

(** X10: while another writer holds the root, [Insert] does not return
    either: [insert] fails to take the root, nothing is written to the
    tree, and the loop of [Insert] tries again.  With any fuel the run
    ends in [Timeout]. *)
Theorem Insert_waits_for_held_root (fuel : nat) (k v : Z) (s : state) (a : addr)
    (d : RBTreeNode) :
  t_root s = Some a ->
  heap s !! a = Some d ->
  n_flag d = true ->
  Insert fuel k v s = Timeout.
Proof.
  intros Hrt H Hf. destruct s as [h nx rt cnt la ma].
  cbn [heap t_root] in *. subst rt.
  destruct fuel as [|fuel]; [done|].
  assert (Hloop : forall attempts,
            Insert_loop attempts (S fuel) k v (false, false) (mkState h nx (Some a) cnt [] ma)
            = Timeout).
  { induction attempts as [|n IH]; [done|].
    cbn [Insert_loop].
    hgo_with ltac:(first [rewrite (insert_conflict fuel k v
                            (mkState h nx (Some a) cnt [] ma) a d H Hf)
                         | rewrite IH]).
    reflexivity. }
  unfold Insert.
  hgo_with ltac:(first [rewrite (insert_conflict fuel k v
                          (mkState h nx (Some a) cnt [] ma) a d H Hf)
                       | rewrite Hloop]).
  reflexivity.
Qed.

Lemma Insert_waits_for_held_root_witness : Insert 5 2 2 tree_busy_root = Timeout.
Proof.
  apply (Insert_waits_for_held_root 5 2 2 tree_busy_root 0%nat
           (mkNode red None None None 1 1 true 3 false)).
  - reflexivity.
  - reflexivity.
  - reflexivity.
Defined.

(** ** Rotations *)

Lemma tree_012_sync : sync_ok (heap tree_012) (area_l tree_012).
Proof.
  replace (area_l tree_012) with (@nil ptr) by (vm_compute; reflexivity).
  apply quiescent_sync, tree_012_at_rest.
Qed.

(** X11: a left rotation at a node [n] with right child [m], anywhere in
    a tree without readers or markers: [m] takes the place of [n], [n]
    becomes its left child and the left subtree of [m] the right subtree
    of [n]; parent pointers and the root follow.  The bindings in key
    order, the flags and [count] are as before. *)
Theorem rotateLeft_keeps_order (C : ctx) n cn m cm A kn vn B km vm D (s : state) :
  t_root s = ptr_of (plug C (Node n cn A kn vn (Node m cm B km vm D))) ->
  repr (heap s) None (plug C (Node n cn A kn vn (Node m cm B km vm D))) ->
  NoDup (addrs (plug C (Node n cn A kn vn (Node m cm B km vm D)))) ->
  sync_ok (heap s) (area_l s) ->
  exists s',
    rotateLeft (Some n) s = Ret tt s' /\
    t_root s' = ptr_of (plug C (Node m cm (Node n cn A kn vn B) km vm D)) /\
    repr (heap s') None (plug C (Node m cm (Node n cn A kn vn B) km vm D)) /\
    kvs (plug C (Node m cm (Node n cn A kn vn B) km vm D)) =
      kvs (plug C (Node n cn A kn vn (Node m cm B km vm D))) /\
    heap_rel sync_same (heap s) (heap s') /\
    t_count s' = t_count s.
Proof.
  intros Hrt Hrepr Hnd Hsync.
  destruct (rotateLeft_plug C n cn m cm A kn vn B km vm D s Hrt Hrepr Hnd Hsync)
    as (s' & E & Hrt' & Hrepr' & _ & _ & Hrel & _ & Hc & _).
  exists s'. do 3 (split; [done|]). split; [|done].
  rewrite !kvs_plug. cbn [kvs]. by list_norm.
Qed.

Lemma rotateLeft_keeps_order_witness :
  exists s',
    rotateLeft (Some 0%nat) tree_012 = Ret tt s' /\
    t_root s' = Some 2%nat /\
    repr (heap s') None
      (Node 2%nat red (Node 0%nat black (Node 1%nat red Leaf 0 0 Leaf) 1 1 Leaf) 2 2 Leaf) /\
    [(0, 0); (1, 1); (2, 2)] = [(0, 0); (1, 1); (2, 2)] /\
    heap_rel sync_same (heap tree_012) (heap s') /\
    t_count s' = t_count tree_012.
Proof.
  apply (rotateLeft_keeps_order Top 0%nat black 2%nat red (Node 1%nat red Leaf 0 0 Leaf)
           1 1 Leaf 2 2 Leaf tree_012).
  - vm_compute. reflexivity.
  - apply tree_012_at_rest.
  - apply tree_012_at_rest.
  - apply tree_012_sync.
Defined.

(** X12: a right rotation at a node [n] with left child [m], the mirror
    image: [m] takes the place of [n], [n] becomes its right child and
    the right subtree of [m] the left subtree of [n].  The bindings in key
    order, the flags and [count] are as before. *)
Theorem rotateRight_keeps_order (C : ctx) n cn m cm A km vm B kn vn D (s : state) :
  t_root s = ptr_of (plug C (Node n cn (Node m cm A km vm B) kn vn D)) ->
  repr (heap s) None (plug C (Node n cn (Node m cm A km vm B) kn vn D)) ->
  NoDup (addrs (plug C (Node n cn (Node m cm A km vm B) kn vn D))) ->
  sync_ok (heap s) (area_l s) ->
  exists s',
    rotateRight (Some n) s = Ret tt s' /\
    t_root s' = ptr_of (plug C (Node m cm A km vm (Node n cn B kn vn D))) /\
    repr (heap s') None (plug C (Node m cm A km vm (Node n cn B kn vn D))) /\
    kvs (plug C (Node m cm A km vm (Node n cn B kn vn D))) =
      kvs (plug C (Node n cn (Node m cm A km vm B) kn vn D)) /\
    heap_rel sync_same (heap s) (heap s') /\
    t_count s' = t_count s.
Proof.
  intros Hrt Hrepr Hnd Hsync.
  destruct (rotateRight_plug C n cn m cm A km vm B kn vn D s Hrt Hrepr Hnd Hsync)
    as (s' & E & Hrt' & Hrepr' & _ & _ & Hrel & _ & Hc & _).
  exists s'. do 3 (split; [done|]). split; [|done].
  rewrite !kvs_plug. cbn [kvs]. by list_norm.
Qed.

Lemma rotateRight_keeps_order_witness :
  exists s',
    rotateRight (Some 0%nat) tree_012 = Ret tt s' /\
    t_root s' = Some 1%nat /\
    repr (heap s') None
      (Node 1%nat red Leaf 0 0 (Node 0%nat black Leaf 1 1 (Node 2%nat red Leaf 2 2 Leaf))) /\
    [(0, 0); (1, 1); (2, 2)] = [(0, 0); (1, 1); (2, 2)] /\
    heap_rel sync_same (heap tree_012) (heap s') /\
    t_count s' = t_count tree_012.
Proof.
  apply (rotateRight_keeps_order Top 0%nat black 1%nat red Leaf 0 0 Leaf 1 1
           (Node 2%nat red Leaf 2 2 Leaf) tree_012).
  - vm_compute. reflexivity.
  - apply tree_012_at_rest.
  - apply tree_012_at_rest.
  - apply tree_012_sync.
Defined.

(** X13: the guards of the rotations: a left rotation at nil or at a node
    without a right child, and a right rotation at nil or at a node
    without a left child, do nothing at all. *)
Theorem rotation_without_child (s : state) (n : addr) (d : RBTreeNode) :
  heap s !! n = Some d ->
  (n_right d = None -> rotateLeft (Some n) s = Ret tt s) /\
  (n_left d = None -> rotateRight (Some n) s = Ret tt s) /\
  rotateLeft None s = Ret tt s /\
  rotateRight None s = Ret tt s.
Proof.
  intros H. split; [|split; [|done]].
  - intros Hr. unfold rotateLeft, right_of, load. cbn [bind orM ret is_nil]. by rewrite H, Hr.
  - intros Hl. unfold rotateRight, left_of, load. cbn [bind orM ret is_nil]. by rewrite H, Hl.
Qed.

Lemma rotation_without_child_witness :
  (@None addr = None -> rotateLeft (Some 0%nat) (NewRBTree 1 1) = Ret tt (NewRBTree 1 1)) /\
  (@None addr = None -> rotateRight (Some 0%nat) (NewRBTree 1 1) = Ret tt (NewRBTree 1 1)) /\
  rotateLeft None (NewRBTree 1 1) = Ret tt (NewRBTree 1 1) /\
  rotateRight None (NewRBTree 1 1) = Ret tt (NewRBTree 1 1).
Proof.
  apply (rotation_without_child (NewRBTree 1 1) 0%nat
           (mkNode red None None None 1 1 false 0 false)).
  reflexivity.
Defined.

(** X14: a left rotation at [n] followed by a right rotation at the node
    that took its place gives back the tree the heap held before, with
    the root and the flags as before. *)
Theorem rotateLeft_then_rotateRight (C : ctx) n cn m cm A kn vn B km vm D (s : state) :
  t_root s = ptr_of (plug C (Node n cn A kn vn (Node m cm B km vm D))) ->
  repr (heap s) None (plug C (Node n cn A kn vn (Node m cm B km vm D))) ->
  NoDup (addrs (plug C (Node n cn A kn vn (Node m cm B km vm D)))) ->
  sync_ok (heap s) (area_l s) ->
  exists s1 s2,
    rotateLeft (Some n) s = Ret tt s1 /\
    rotateRight (Some m) s1 = Ret tt s2 /\
    t_root s2 = t_root s /\
    repr (heap s2) None (plug C (Node n cn A kn vn (Node m cm B km vm D))) /\
    heap_rel sync_same (heap s) (heap s2).
Proof.
  intros Hrt Hrepr Hnd Hsync.
  destruct (rotateLeft_plug C n cn m cm A kn vn B km vm D s Hrt Hrepr Hnd Hsync)
    as (s1 & E1 & Hrt1 & Hrepr1 & Hnd1 & Hsync1 & Hrel1 & _).
  destruct (rotateRight_plug C m cm n cn A kn vn B km vm D s1 Hrt1 Hrepr1 Hnd1 Hsync1)
    as (s2 & E2 & Hrt2 & Hrepr2 & _ & _ & Hrel2 & _).
  exists s1, s2. do 2 (split; [done|]). split; [by rewrite Hrt2, Hrt|]. split; [done|].
  eapply heap_rel_trans; [|exact Hrel1|exact Hrel2].
  intros x y z (? & ? & ?) (? & ? & ?). repeat split; congruence.
Qed.

Lemma rotateLeft_then_rotateRight_witness :
  exists s1 s2,
    rotateLeft (Some 0%nat) tree_012 = Ret tt s1 /\
    rotateRight (Some 2%nat) s1 = Ret tt s2 /\
    t_root s2 = t_root tree_012 /\
    repr (heap s2) None shape_012 /\
    heap_rel sync_same (heap tree_012) (heap s2).
Proof.
  apply (rotateLeft_then_rotateRight Top 0%nat black 2%nat red (Node 1%nat red Leaf 0 0 Leaf)
           1 1 Leaf 2 2 Leaf tree_012).
  - vm_compute. reflexivity.
  - apply tree_012_at_rest.
  - apply tree_012_at_rest.
  - apply tree_012_sync.
Defined.

(** ** The invariant checker *)

Lemma Check_red_black (fuel : nat) (s : state) (t : tree) :
  tree_at_rest s t ->
  is_red_black t ->
  (height t < fuel)%nat ->
  Z.of_nat (height t) < 2 ^ 63 ->
  Check fuel s = Ret None s.
Proof.
  intros [Hrt Hrepr _ Hq _] Hrb Hfuel Hbound.
  destruct (check_ok t fuel None 0 s Hrepr) as ((c & e) & E & [_ He] & _);
    [intros a d _ Hd; by destruct (Hq a d Hd)|done|lia|lia|].
  cbn [snd] in He. rewrite (He Hrb) in E.
  unfold Check, get_root. cbn [bind]. rewrite Hrt.
  destruct t as [|a c0 l k v r]; [done|]. cbn [ptr_of is_nil bind] in *. by rewrite E.
Qed.

Lemma tree_012_red_black : is_red_black shape_012.
Proof. split; cbn; repeat split; done. Qed.

(** X15: on a tree at rest [Check] returns, changes nothing, and its
    error is nil exactly when the tree is red-black in the sense that no
    red node has a red child and all paths from the root to a leaf meet
    the same number of black nodes (the root may be red). *)
Theorem Check_decides_red_black (fuel : nat) (s : state) (t : tree) :
  tree_at_rest s t ->
  (height t < fuel)%nat ->
  Z.of_nat (height t) < 2 ^ 63 ->
  exists e, Check fuel s = Ret e s /\ (e = None <-> is_red_black t).
Proof.
  intros [Hrt Hrepr _ Hq _] Hfuel Hbound.
  destruct (check_ok t fuel None 0 s Hrepr) as ((c & e) & E & He & _);
    [intros a d _ Hd; by destruct (Hq a d Hd)|done|lia|lia|].
  cbn [snd] in He.
  unfold Check, get_root. cbn [bind]. rewrite Hrt.
  destruct t as [|a c0 l k v r].
  - exists None. split; [done|]. split; [|done]. intros _. by split.
  - cbn [ptr_of is_nil bind] in *. rewrite E. by exists e.
Qed.

Lemma Check_decides_red_black_witness :
  exists e, Check 5 tree_012 = Ret e tree_012 /\ (e = None <-> is_red_black shape_012).
Proof.
  apply (Check_decides_red_black 5 tree_012 shape_012).
  - apply tree_012_at_rest.
  - cbn. lia.
  - cbn. lia.
Defined.

(** X16: [Check] does not look below a node whose writer flag is set:
    when the root is held it reports no error, whatever the tree is. *)
Theorem Check_skips_held_root (fuel : nat) (s : state) (a : addr) (d : RBTreeNode) :
  t_root s = Some a ->
  heap s !! a = Some d ->
  n_flag d = true ->
  Check (S fuel) s = Ret None s.
Proof.
  intros Hrt Hd Hf. unfold Check, get_root. cbn [bind]. rewrite Hrt. cbn [is_nil check].
  unfold flag_Load, load. cbn [bind orM ret is_nil]. by rewrite Hd, Hf.
Qed.

Lemma Check_skips_held_root_witness : Check 1 tree_busy_root = Ret None tree_busy_root.
Proof.
  apply (Check_skips_held_root 0 tree_busy_root 0%nat
           (mkNode red None None None 1 1 true 3 false)).
  - reflexivity.
  - reflexivity.
  - reflexivity.
Defined.

(** ** Insertion keeps the tree red-black *)

Lemma Insert_red_black (fuel : nat) (k v : Z) (s : state) (t : tree) :
  tree_ok s t ->
  is_red_black t ->
  (2 * length (kvs t) + 3 <= fuel)%nat ->
  exists s' T',
    Insert fuel k v s = Ret tt s' /\
    tree_ok s' T' /\
    is_red_black T' /\
    kvs T' = kv_put k v (kvs t) /\
    (height T' < fuel)%nat /\
    (2 * length (kvs T') + 1 <= fuel)%nat.
Proof.
  intros Hok Hrb Hfuel.
  pose proof (height_le_kvs t) as Hh.
  destruct (Insert_ok fuel k v s t Hok) as (s' & T' & E & Hok' & Hkvs & _ & _ & Hsh); [lia|].
  exists s', T'. split; [done|]. split; [done|].
  split; [rewrite Hsh; by apply tree_insert_red_black|]. split; [done|].
  pose proof (height_le_kvs T') as Hh'.
  pose proof (kv_put_length k v (kvs t)) as Hlen. rewrite <- Hkvs in Hlen. lia.
Qed.

(** X17: [Insert] on a red-black search tree at rest leaves a red-black
    search tree at rest that holds the old bindings with [(k, v)] put in
    place. *)
Theorem Insert_keeps_red_black (fuel : nat) (k v : Z) (s : state) (t : tree) :
  tree_ok s t ->
  is_red_black t ->
  (2 * length (kvs t) + 3 <= fuel)%nat ->
  exists s' T',
    Insert fuel k v s = Ret tt s' /\
    tree_ok s' T' /\
    is_red_black T' /\
    kvs T' = kv_put k v (kvs t).
Proof.
  intros Hok Hrb Hfuel.
  destruct (Insert_red_black fuel k v s t Hok Hrb Hfuel)
    as (s' & T' & E & Hok' & Hrb' & Hkvs & _).
  by exists s', T'.
Qed.

Lemma Insert_keeps_red_black_witness :
  exists s' T',
    Insert 9 3 3 tree_012 = Ret tt s' /\
    tree_ok s' T' /\
    is_red_black T' /\
    kvs T' = kv_put 3 3 (kvs shape_012).
Proof.
  apply (Insert_keeps_red_black 9 3 3 tree_012 shape_012).
  - apply tree_012_ok.
  - apply tree_012_red_black.
  - cbn. lia.
Defined.

(** X18: after [Insert] on a red-black search tree at rest, [Check]
    reports no error. *)
Theorem Insert_then_Check (fuel : nat) (k v : Z) (s : state) (t : tree) :
  tree_ok s t ->
  is_red_black t ->
  (2 * length (kvs t) + 3 <= fuel)%nat ->
  Z.of_nat fuel < 2 ^ 63 ->
  exists s',
    Insert fuel k v s = Ret tt s' /\
    Check fuel s' = Ret None s'.
Proof.
  intros Hok Hrb Hfuel Hbound.
  destruct (Insert_red_black fuel k v s t Hok Hrb Hfuel)
    as (s' & T' & E & Hok' & Hrb' & Hkvs & Hh & _).
  exists s'. split; [done|].
  apply (Check_red_black fuel s' T'); [by destruct Hok'|done|done|lia].
Qed.

Lemma Insert_then_Check_witness :
  exists s',
    Insert 9 3 3 tree_012 = Ret tt s' /\
    Check 9 s' = Ret None s'.
Proof.
  apply (Insert_then_Check 9 3 3 tree_012 shape_012).
  - apply tree_012_ok.
  - apply tree_012_red_black.
  - cbn. lia.
  - cbn. lia.
Defined.

(** ** Trees built by the constructor and [Insert] *)

Lemma has_key_false_elem k l : has_key k l = false -> forall v, (k, v) ∉ l.
Proof.
  intros H v Hin. apply not_true_iff_false in H. apply H.
  apply existsb_exists. exists (k, v). split; [by apply list_elem_of_In|apply Z.eqb_refl].
Qed.

Lemma NewRBTree_red_black (k v : Z) : is_red_black (Node 0%nat red Leaf k v Leaf).
Proof. split; cbn; repeat split; done. Qed.

(** What a run of [Insert]s keeps: a red-black search tree at rest whose
    bindings are [(k, k)] for the keys seen so far, counted by [count]. *)
Lemma build_from_ok (fuel : nat) (ks : list Z) :
  forall (s : state) (t : tree) (seen : list Z),
    tree_ok s t ->
    is_red_black t ->
    kvs t <> [] ->
    t_count s = Z.of_nat (length (kvs t)) ->
    (forall k v, (k, v) ∈ kvs t <-> v = k /\ k ∈ seen) ->
    (2 * (length (kvs t) + length ks) + 3 <= fuel)%nat ->
    Z.of_nat fuel < 2 ^ 63 ->
    exists T',
      tree_ok (fold_left (fun s k => exec (Insert fuel k k) s) ks s) T' /\
      is_red_black T' /\
      t_count (fold_left (fun s k => exec (Insert fuel k k) s) ks s)
        = Z.of_nat (length (kvs T')) /\
      (forall k v, (k, v) ∈ kvs T' <-> v = k /\ k ∈ seen ++ ks) /\
      (length (kvs T') <= length (kvs t) + length ks)%nat.
Proof.
  induction ks as [|k1 ks IH]; intros s t seen Hok Hrb Hne Hcnt Hkv Hfuel Hbound;
    cbn [fold_left length].
  { exists t. rewrite app_nil_r. do 4 (split; [done|]). lia. }
  cbn [length] in Hfuel.
  destruct (Insert_ok fuel k1 k1 s t Hok) as (s1 & T1 & E & Hok1 & Hkvs1 & Hcnt1 & _ & Hsh).
  { pose proof (height_le_kvs t). lia. }
  assert (Hexec : exec (Insert fuel k1 k1) s = s1) by (unfold exec; by rewrite E).
  rewrite Hexec.
  assert (Hlen1 : length (kvs T1) = if has_key k1 (kvs t) then length (kvs t)
                                    else S (length (kvs t))).
  { rewrite Hkvs1. apply kv_put_length_has. by destruct Hok. }
  destruct (IH s1 T1 (seen ++ [k1])) as (T' & Hok' & Hrb' & Hcnt' & Hkv' & Hlen'); try done.
  - rewrite Hsh. by apply tree_insert_red_black.
  - rewrite Hkvs1. intros Hnil. pose proof (kv_put_elem k1 k1 (kvs t)) as Hin.
    rewrite Hnil in Hin. by apply elem_of_nil in Hin.
  - rewrite Hcnt1, Hlen1. destruct t as [|a c l k v r]; [done|]. cbn [ptr_of is_nil].
    destruct (has_key k1 (kvs (Node a c l k v r))); [done|].
    unfold wrap64, wrap. rewrite Z.mod_small; lia.
  - intros k v. rewrite Hkvs1, elem_of_app, list_elem_of_singleton.
    destruct (decide (k = k1)) as [->|Hk].
    + split.
      * intros Hin. split; [|by right].
        apply (sorted_binding_unique (kv_put k1 k1 (kvs t)) k1);
          [apply kv_put_sorted; by destruct Hok|done|apply kv_put_elem].
      * intros [-> _]. apply kv_put_elem.
    + rewrite (kv_put_other_elem k1 k1 (kvs t) k v Hk), Hkv. naive_solver.
  - rewrite Hlen1. destruct (has_key k1 (kvs t)); lia.
  - exists T'. do 3 (split; [done|]). split.
    + intros k v. rewrite Hkv', <- app_assoc. done.
    + rewrite Hlen1 in Hlen'. destruct (has_key k1 (kvs t)); lia.
Qed.

Lemma build_ok (fuel : nat) (k0 : Z) (ks : list Z) :
  (2 * length ks + 5 <= fuel)%nat ->
  Z.of_nat fuel < 2 ^ 63 ->
  exists T,
    tree_ok (build fuel k0 ks) T /\
    is_red_black T /\
    t_count (build fuel k0 ks) = Z.of_nat (length (kvs T)) /\
    (forall k v, (k, v) ∈ kvs T <-> v = k /\ k ∈ k0 :: ks) /\
    (length (kvs T) <= 1 + length ks)%nat.
Proof.
  intros Hfuel Hbound. unfold build.
  destruct (build_from_ok fuel ks (NewRBTree k0 k0) (Node 0%nat red Leaf k0 k0 Leaf) [k0])
    as (T & H);
    [apply NewRBTree_ok|apply NewRBTree_red_black|done|done| |cbn [kvs app length]; lia|done
    |by exists T].
  intros k v. cbn [kvs app]. rewrite !list_elem_of_singleton. naive_solver.
Qed.

(** X19: every tree built by the constructor and a run of [Insert]s
    passes [Check]. *)
Theorem build_passes_Check (fuel : nat) (k0 : Z) (ks : list Z) :
  (2 * length ks + 5 <= fuel)%nat ->
  Z.of_nat fuel < 2 ^ 63 ->
  Check fuel (build fuel k0 ks) = Ret None (build fuel k0 ks).
Proof.
  intros Hfuel Hbound.
  destruct (build_ok fuel k0 ks Hfuel Hbound) as (T & Hok & Hrb & _ & _ & Hlen).
  pose proof (height_le_kvs T) as Hh.
  apply (Check_red_black fuel _ T); [by destruct Hok|done|lia|lia].
Qed.

Lemma build_passes_Check_witness :
  Check 10 (build 10 1 [0; 2]) = Ret None (build 10 1 [0; 2]).
Proof.
  apply (build_passes_Check 10 1 [0; 2]).
  - cbn. lia.
  - cbn. lia.
Defined.

(** X20: in a tree built by the constructor on [k0] and [Insert(k, k)]
    for the keys of [ks], [Get] finds exactly the keys that went in: it
    returns the value [k] for each of them and nil for any other key, and
    leaves the tree as it is. *)
Theorem build_then_Get (fuel : nat) (k0 : Z) (ks : list Z) (k : Z) :
  (2 * length ks + 5 <= fuel)%nat ->
  Z.of_nat fuel < 2 ^ 63 ->
  Get fuel k (build fuel k0 ks)
    = Ret (if decide (k ∈ k0 :: ks) then Some k else None) (build fuel k0 ks).
Proof.
  intros Hfuel Hbound.
  destruct (build_ok fuel k0 ks Hfuel Hbound) as (T & Hok & _ & _ & Hkv & Hlen).
  pose proof (height_le_kvs T) as Hh.
  destruct (Get_ok fuel k _ T Hok) as (r & E & Hsome & Hnone); [lia|].
  rewrite E. f_equal. destruct (decide (k ∈ k0 :: ks)) as [Hin|Hout].
  - apply Hsome. by apply Hkv.
  - apply Hnone. destruct (has_key k (kvs T)) eqn:Hhas; [|done].
    apply has_key_elem in Hhas as [v Hv]. apply Hkv in Hv as [_ Hv]. done.
Qed.

Lemma build_then_Get_witness :
  Get 10 2 (build 10 1 [0; 2])
    = Ret (if decide (2 ∈ [1; 0; 2]) then Some 2 else None) (build 10 1 [0; 2]).
Proof.
  apply (build_then_Get 10 1 [0; 2] 2).
  - cbn. lia.
  - cbn. lia.
Defined.

(** X21: in a tree built by the constructor and a run of [Insert]s,
    [count] is the number of distinct keys that went in. *)
Theorem build_counts_distinct_keys (fuel : nat) (k0 : Z) (ks : list Z) :
  (2 * length ks + 5 <= fuel)%nat ->
  Z.of_nat fuel < 2 ^ 63 ->
  exists l : list Z,
    NoDup l /\ (forall k, k ∈ l <-> k ∈ k0 :: ks) /\
    t_count (build fuel k0 ks) = Z.of_nat (length l).
Proof.
  intros Hfuel Hbound.
  destruct (build_ok fuel k0 ks Hfuel Hbound) as (T & Hok & _ & Hcnt & Hkv & _).
  exists ((kvs T).*1). split; [apply sorted_keys_nodup; by destruct Hok|]. split.
  - intros k. rewrite list_elem_of_fmap. split.
    + intros ([k' v] & -> & Hin). cbn. by apply Hkv in Hin as [_ ?].
    + intros Hin. exists (k, k). split; [done|]. by apply Hkv.
  - by rewrite length_fmap.
Qed.

Lemma build_counts_distinct_keys_witness :
  exists l : list Z,
    NoDup l /\ (forall k, k ∈ l <-> k ∈ [1; 0; 2; 0]) /\
    t_count (build 13 1 [0; 2; 0]) = Z.of_nat (length l).
Proof.
  apply (build_counts_distinct_keys 13 1 [0; 2; 0]).
  - cbn. lia.
  - cbn. lia.
Defined.

(** ** The local area of an insertion *)

(** X22: [lockInsert] on a held, unmarked node of a tree without readers
    or markers, whose parent, sibling, grandparent and uncle are free:
    it succeeds, sets the flag of exactly these nodes, and appends the
    node itself and then these nodes, in this order, to the area. *)
Theorem lockInsert_takes_local_area (C : ctx) (X : tree) (s : state) (x : addr) :
  ptr_of X = Some x ->
  repr (heap s) None (plug C X) ->
  NoDup (addrs (plug C X)) ->
  sync_ok (heap s) (area_l s ++ [Some x]) ->
  (forall d, heap s !! x = Some d -> n_flag d = true) ->
  (forall a d, a ∈ ctx_local C -> heap s !! a = Some d -> n_flag d = false) ->
  exists s',
    lockInsert (Some x) s = Ret true s' /\
    area_l s' = area_l s ++ Some x :: (Some <$> ctx_local C) /\
    (forall a d, a ∈ ctx_local C -> heap s' !! a = Some d -> n_flag d = true) /\
    (forall a, a ∉ ctx_local C -> heap s' !! a = heap s !! a) /\
    heap_rel flag_changed (heap s) (heap s').
Proof.
  intros HX Hrepr Hnd Hsync Hheld Hfree.
  apply repr_plug in Hrepr as [Hctx Hrepr]. apply NoDup_plug in Hnd. rewrite HX in Hctx.
  destruct (lockInsert_ok C X s x HX Hctx Hrepr Hnd Hsync Hheld Hfree)
    as (s' & E & Harea & Hrel & Hlocked & Hframe & _).
  by exists s'.
Qed.

Lemma lockInsert_takes_local_area_witness :
  exists s',
    lockInsert (Some 3%nat) tree_0123_hung = Ret true s' /\
    area_l s' = area_l tree_0123_hung ++ Some 3%nat :: (Some <$> [2%nat; 0%nat; 1%nat]) /\
    (forall a d, a ∈ [2%nat; 0%nat; 1%nat] -> heap s' !! a = Some d -> n_flag d = true) /\
    (forall a, a ∉ [2%nat; 0%nat; 1%nat] -> heap s' !! a = heap tree_0123_hung !! a) /\
    heap_rel flag_changed (heap tree_0123_hung) (heap s').
Proof.
  apply (lockInsert_takes_local_area
           (InR 2%nat red Leaf 2 2 (InR 0%nat black (Node 1%nat red Leaf 0 0 Leaf) 1 1 Top))
           (Node 3%nat red Leaf 3 3 Leaf) tree_0123_hung 3%nat).
  - reflexivity.
  - cbn [plug repr]. repeat split; (eexists; split; [vm_compute; reflexivity|cbn; done]).
  - cbn. repeat (apply NoDup_cons; split; [list_notin|]). apply NoDup_nil_2.
  - replace (area_l tree_0123_hung) with (@nil ptr) by (vm_compute; reflexivity).
    unfold sync_ok. heap_forall; cbn; repeat split; try done; intros _; list_in.
  - intros d Hd. vm_compute in Hd. by injection Hd as <-.
  - intros a d Ha Hd. cbn in Ha. elem_cases Ha; vm_compute in Hd; by injection Hd as <-.
Defined.

(** X23: [lockInsert] on a node that its caller does not hold, or that
    carries a marker, returns false and changes nothing. *)
Theorem lockInsert_refuses (s : state) (x : addr) (d : RBTreeNode) :
  heap s !! x = Some d ->
  n_flag d = false \/ n_marker d = true ->
  lockInsert (Some x) s = Ret false s.
Proof.
  intros Hd Hbad. unfold lockInsert, islock, isMark, flag_Load, marker_Load, load.
  cbn [bind orM notM ret]. rewrite Hd. cbn [bind orM notM ret].
  destruct (n_flag d); cbn [negb]; [|done].
  destruct Hbad as [?|Hm]; [done|]. cbn [bind orM notM ret]. by rewrite Hd, Hm.
Qed.

Lemma lockInsert_refuses_witness :
  lockInsert (Some 0%nat) (NewRBTree 1 1) = Ret false (NewRBTree 1 1).
Proof.
  apply (lockInsert_refuses (NewRBTree 1 1) 0%nat
           (mkNode red None None None 1 1 false 0 false)).
  - reflexivity.
  - left. reflexivity.
Defined.

(** X24: [lockInsert] backs out when another writer holds the parent: it
    returns false, the area is empty again, and the node itself has been
    released with the area; nothing else changes. *)
Theorem lockInsert_backs_out (s : state) (x p : addr) (dx dp : RBTreeNode) :
  heap s !! x = Some dx ->
  n_flag dx = true -> n_marker dx = false ->
  n_parent dx = Some p ->
  heap s !! p = Some dp ->
  n_flag dp = true ->
  area_l s = [] ->
  lockInsert (Some x) s
    = Ret false (with_heap (<[x := with_flag false dx]> (heap s)) s).
Proof.
  intros Hx Hfx Hmx Hpx Hp Hfp Hl.
  destruct s as [h nx rt cnt la ma], dx as [xc xl xr xp xk xv xf xh xm],
    dp as [pc pl pr pp pk pv pf ph pm].
  cbn [heap area_l n_flag n_marker n_parent] in *. subst la xf xm xp pf.
  unfold lockInsert, lock_unmarked. hgo_with ltac:(progress unfold unlockArea). reflexivity.
Qed.

Lemma lockInsert_backs_out_witness :
  let s := with_heap (alter (with_flag true) 2%nat (heap tree_0123_hung)) tree_0123_hung in
  lockInsert (Some 3%nat) s
    = Ret false
        (with_heap (<[3%nat := with_flag false
                                 (mkNode red None None (Some 2%nat) 3 3 true 0 false)]> (heap s))
           s).
Proof.
  intros s.
  apply (lockInsert_backs_out s 3%nat 2%nat
           (mkNode red None None (Some 2%nat) 3 3 true 0 false)
           (mkNode red None (Some 3%nat) (Some 0%nat) 2 2 true 0 false)).
  - vm_compute. reflexivity.
  - reflexivity.
  - reflexivity.
  - reflexivity.
  - vm_compute. reflexivity.
  - reflexivity.
  - vm_compute. reflexivity.
Defined.

(** X25: when the parent is free but carries a marker, [lockInsert]
    takes the parent's flag, sees the marker, releases the area and
    returns false.  The parent was not yet in the area: its flag stays
    set, with the area empty. *)
Theorem lockInsert_marked_parent_stays_held (s : state) (x p : addr) (dx dp : RBTreeNode) :
  heap s !! x = Some dx ->
  n_flag dx = true -> n_marker dx = false ->
  n_parent dx = Some p ->
  x <> p ->
  heap s !! p = Some dp ->
  n_flag dp = false -> n_hpflag dp <= 0 -> n_marker dp = true ->
  area_l s = [] ->
  lockInsert (Some x) s
    = Ret false (with_heap (<[x := with_flag false dx]>
                              (<[p := with_flag true dp]> (heap s))) s).
Proof.
  intros Hx Hfx Hmx Hpx Hne Hp Hfp Hhp Hmp Hl.
  destruct s as [h nx rt cnt la ma], dx as [xc xl xr xp xk xv xf xh xm],
    dp as [pc pl pr pp pk pv pf ph pm].
  cbn [heap area_l n_flag n_marker n_parent n_hpflag] in *. subst la xf xm xp pf pm.
  assert (Hlt : (0 <? ph) = false) by (apply Z.ltb_ge; lia).
  unfold lockInsert, lock_unmarked.
  hgo_with ltac:(first [progress unfold unlockArea | rewrite Hlt]). reflexivity.
Qed.

Lemma lockInsert_marked_parent_stays_held_witness :
  let s := with_heap (alter (with_marker true) 2%nat (heap tree_0123_hung)) tree_0123_hung in
  lockInsert (Some 3%nat) s
    = Ret false
        (with_heap
           (<[3%nat := with_flag false (mkNode red None None (Some 2%nat) 3 3 true 0 false)]>
              (<[2%nat := with_flag true
                            (mkNode red None (Some 3%nat) (Some 0%nat) 2 2 false 0 true)]>
                 (heap s)))
           s).
Proof.
  intros s.
  apply (lockInsert_marked_parent_stays_held s 3%nat 2%nat
           (mkNode red None None (Some 2%nat) 3 3 true 0 false)
           (mkNode red None (Some 3%nat) (Some 0%nat) 2 2 false 0 true)).
  - vm_compute. reflexivity.
  - reflexivity.
  - reflexivity.
  - reflexivity.
  - lia.
  - vm_compute. reflexivity.
  - reflexivity.
  - simpl. lia.
  - reflexivity.
  - vm_compute. reflexivity.
Defined.

(** X26: [unlockArea] clears the flag of every member of the area,
    changes no other word of any node, and leaves the area empty. *)
Theorem unlockArea_releases (s : state) :
  area_allocated s ->
  exists s',
    unlockArea s = Ret tt s' /\
    area_l s' = [] /\
    (forall a d, Some a ∈ area_l s -> heap s' !! a = Some d -> n_flag d = false) /\
    heap_rel flag_cleared (heap s) (heap s') /\
    next s' = next s /\ t_root s' = t_root s /\ t_count s' = t_count s /\
    area_m s' = area_m s.
Proof.
  intros Hal. destruct (unlockArea_spec s Hal)
    as (s' & E & Hl & Hn & Hr & Hc & Hm & Hrel & Hclr).
  by exists s'.
Qed.

Lemma unlockArea_releases_witness :
  exists s',
    unlockArea (with_l [Some 0%nat] tree_busy_root) = Ret tt s' /\
    area_l s' = [] /\
    (forall a d, Some a ∈ [Some 0%nat] -> heap s' !! a = Some d -> n_flag d = false) /\
    heap_rel flag_cleared (heap tree_busy_root) (heap s') /\
    next s' = next tree_busy_root /\ t_root s' = t_root tree_busy_root /\
    t_count s' = t_count tree_busy_root /\ area_m s' = area_m tree_busy_root.
Proof.
  apply (unlockArea_releases (with_l [Some 0%nat] tree_busy_root)).
  intros p Hp. apply list_elem_of_singleton in Hp as ->.
  exists 0%nat. split; [reflexivity|]. eexists. reflexivity.
Defined.
